(** * A shallow embedding of the explicit-free-list allocator of [mm.c]

    The allocator manages one contiguous, growable region of bytes.  Blocks
    carry a 4-byte header and a 4-byte footer holding [size | allocated];
    free blocks also carry two 4-byte links that thread a doubly linked free
    list.  The program is compiled for a 32-bit target, so [int], [size_t]
    and pointers are all 32 bits wide.

    The embedding keeps the memory at byte granularity, threads the three
    global variables and the break of the region through a state-and-error
    monad, and gives every loop a fuel argument. *)

From Stdlib Require Import ZArith List Bool Lia.
Import ListNotations.
Local Open Scope Z_scope.

(** ** Machine integers *)

Definition two32 : Z := 4294967296.
Definition two31 : Z := 2147483648.

(** Value of a 32-bit pattern read as [unsigned] / [size_t]. *)
Definition to_uint (z : Z) : Z := z mod two32.

(** Value of a 32-bit pattern read as [int]. *)
Definition to_int (z : Z) : Z :=
  let u := z mod two32 in if u <? two31 then u else u - two32.

(** ** Byte-addressed memory *)

Definition memory := Z -> Z.

Definition byte_at (m : memory) (a : Z) : Z := m a mod 256.

(** Little-endian 32-bit read. *)
Definition rd (m : memory) (a : Z) : Z :=
  byte_at m a + 256 * byte_at m (a + 1) + 65536 * byte_at m (a + 2)
  + 16777216 * byte_at m (a + 3).

(** Little-endian 32-bit write. *)
Definition wr (m : memory) (a v : Z) : memory :=
  fun x =>
    if x =? a then v mod 256
    else if x =? a + 1 then (v / 256) mod 256
    else if x =? a + 2 then (v / 65536) mod 256
    else if x =? a + 3 then (v / 16777216) mod 256
    else m x.

(** [memcpy(dst, src, n)] on non-overlapping ranges. *)
Definition copy_bytes (m : memory) (dst src n : Z) : memory :=
  fun x => if (dst <=? x) && (x <? dst + n) then m (src + (x - dst)) else m x.

(** ** Allocator state *)

Record state : Type := mkState {
  mem : memory;
  mem_start_brk : Z;   (* first byte of the region *)
  mem_brk : Z;         (* one past the last byte handed out so far *)
  mem_max_addr : Z;    (* one past the last byte the provider can ever supply *)
  heap_blocks : Z;     (* static BlockHeader *heap_blocks *)
  free_headp : Z;      (* static BlockHeader *free_headp *)
  free_tailp : Z       (* static BlockHeader *free_tailp *)
}.

Definition with_mem (s : state) (m : memory) : state :=
  mkState m (mem_start_brk s) (mem_brk s) (mem_max_addr s)
          (heap_blocks s) (free_headp s) (free_tailp s).

Definition with_brk (s : state) (b : Z) : state :=
  mkState (mem s) (mem_start_brk s) b (mem_max_addr s)
          (heap_blocks s) (free_headp s) (free_tailp s).

Definition with_heap_blocks (s : state) (p : Z) : state :=
  mkState (mem s) (mem_start_brk s) (mem_brk s) (mem_max_addr s)
          p (free_headp s) (free_tailp s).

Definition with_head (s : state) (p : Z) : state :=
  mkState (mem s) (mem_start_brk s) (mem_brk s) (mem_max_addr s)
          (heap_blocks s) p (free_tailp s).

Definition with_tail (s : state) (p : Z) : state :=
  mkState (mem s) (mem_start_brk s) (mem_brk s) (mem_max_addr s)
          (heap_blocks s) (free_headp s) p.

(** ** The state-and-error monad *)

Inductive result (A : Type) : Type :=
| Ok (a : A)     (* normal return *)
| Fault          (* access outside the region handed out by the provider *)
| Timeout.       (* a loop ran out of fuel *)
Arguments Ok {A} a.
Arguments Fault {A}.
Arguments Timeout {A}.

Definition M (A : Type) : Type := state -> result (A * state).

Definition ret {A} (a : A) : M A := fun s => Ok (a, s).

Definition bind {A B} (c : M A) (k : A -> M B) : M B :=
  fun s => match c s with
           | Ok (a, s') => k a s'
           | Fault => Fault
           | Timeout => Timeout
           end.

Definition timeout {A} : M A := fun _ => Timeout.

Notation "x <- c ;; k" := (bind c (fun x => k))
  (at level 61, c at next level, right associativity).
Notation "c ;;; k" := (bind c (fun _ => k))
  (at level 61, right associativity).

(** A 4-byte access at [a] is legal when it lies inside the region. *)
Definition in_heap (s : state) (a : Z) : bool :=
  (mem_start_brk s <=? a) && (a + 4 <=? mem_brk s).

(** [*(int * )a] *)
Definition load_int (a : Z) : M Z :=
  fun s => if in_heap s a then Ok (to_int (rd (mem s) a), s) else Fault.

(** [*(BlockHeader ** )a] *)
Definition load_ptr (a : Z) : M Z :=
  fun s => if in_heap s a then Ok (rd (mem s) a, s) else Fault.

(** [*(int * )a = v] (also used for pointer-sized stores). *)
Definition store (a v : Z) : M unit :=
  fun s => if in_heap s a then Ok (tt, with_mem s (wr (mem s) a v)) else Fault.

Definition get_head : M Z := fun s => Ok (free_headp s, s).
Definition get_tail : M Z := fun s => Ok (free_tailp s, s).
Definition set_head (p : Z) : M unit := fun s => Ok (tt, with_head s p).
Definition set_tail (p : Z) : M unit := fun s => Ok (tt, with_tail s p).

(** ** The region growth provider *)

(** Modelled from the spec: [mem_sbrk] of [memlib.c], the Region Growth
    Provider.  It hands out the next [incr] bytes of one contiguous region,
    the region only grows, and failure (a negative request or exhaustion of
    the provider) is reported by the sentinel [(void * )-1]. *)
Definition mem_sbrk (incr : Z) : M Z :=
  fun s =>
    if (incr <? 0) || (mem_max_addr s <? mem_brk s + incr)
    then Ok (-1, s)
    else Ok (mem_brk s, with_brk s (mem_brk s + incr)).

(** ** Block metadata codec *)

Definition get_size (bp : Z) : M Z :=
  w <- load_int bp ;; ret (Z.land w (-8)).

Definition get_allocated (bp : Z) : M Z :=
  w <- load_int bp ;; ret (Z.land w 1).

Definition set_header (bp size allocated : Z) : M unit :=
  store bp (Z.lor size allocated).

Definition set_footer (bp size allocated : Z) : M unit :=
  sz <- get_size bp ;;
  set_header (bp + sz - 4) size allocated.

Definition get_payload_addr (bp : Z) : Z := bp + 4.

Definition get_prev (bp : Z) : M Z :=
  previous_size <- get_size (bp - 4) ;;
  ret (bp - previous_size).

Definition get_next (bp : Z) : M Z :=
  this_size <- get_size bp ;;
  ret (bp + this_size).

Definition get_prev_free (bp : Z) : M Z := load_ptr (bp + 4).
Definition get_next_free (bp : Z) : M Z := load_ptr (bp + 8).
Definition set_prev_free (bp prev : Z) : M unit := store (bp + 4) prev.
Definition set_next_free (bp next : Z) : M unit := store (bp + 8) next.

(** ** Free list index *)

Definition free_list_prepend (bp : Z) : M unit :=
  h <- get_head ;; t <- get_tail ;;
  if negb (h =? 0) || negb (t =? 0) then
    set_prev_free bp 0 ;;;
    h1 <- get_head ;; set_next_free bp h1 ;;;
    h2 <- get_head ;; set_prev_free h2 bp ;;;
    set_head bp
  else
    set_prev_free bp 0 ;;;
    set_next_free bp 0 ;;;
    set_head bp ;;;
    set_tail bp.

Definition free_list_append (bp : Z) : M unit :=
  h <- get_head ;; t <- get_tail ;;
  if negb (h =? 0) || negb (t =? 0) then
    set_next_free bp 0 ;;;
    t1 <- get_tail ;; set_next_free t1 bp ;;;
    t2 <- get_tail ;; set_prev_free bp t2 ;;;
    set_tail bp
  else
    set_prev_free bp 0 ;;;
    set_next_free bp 0 ;;;
    set_head bp ;;;
    set_tail bp.

Definition free_list_remove (bp : Z) : M unit :=
  p <- get_prev_free bp ;; n <- get_next_free bp ;;
  if (p =? 0) && negb (n =? 0) then
    n1 <- get_next_free bp ;; set_prev_free n1 0 ;;;
    n2 <- get_next_free bp ;; set_head n2 ;;;
    set_next_free bp 0
  else if (n =? 0) && negb (p =? 0) then
    p1 <- get_prev_free bp ;; set_next_free p1 0 ;;;
    p2 <- get_prev_free bp ;; set_tail p2 ;;;
    set_prev_free bp 0
  else if (p =? 0) && (n =? 0) then
    set_head 0 ;;;
    set_tail 0 ;;;
    set_prev_free bp 0 ;;;
    set_next_free bp 0
  else
    p1 <- get_prev_free bp ;; n1 <- get_next_free bp ;;
    set_next_free p1 n1 ;;;
    n2 <- get_next_free bp ;; p2 <- get_prev_free bp ;;
    set_prev_free n2 p2.

(** ** Coalescing engine *)

(** [if (size < 1000) free_list_prepend(bp); else free_list_append(bp);] *)
Definition free_list_insert (size bp : Z) : M unit :=
  if size <? 1000 then free_list_prepend bp else free_list_append bp.

Definition free_coalesce (bp : Z) : M Z :=
  size <- get_size bp ;;
  set_header bp size 0 ;;;
  set_footer bp size 0 ;;;
  pb <- get_prev bp ;; prev_alloc <- get_allocated pb ;;
  nb <- get_next bp ;; next_alloc <- get_allocated nb ;;
  if negb (prev_alloc =? 0) && negb (next_alloc =? 0) then
    free_list_insert size bp ;;;
    ret bp
  else if negb (prev_alloc =? 0) && (next_alloc =? 0) then
    nb1 <- get_next bp ;; free_list_remove nb1 ;;;
    free_list_insert size bp ;;;
    nb2 <- get_next bp ;; nextSize <- get_size nb2 ;;
    let totalSize := to_int (size + nextSize) in
    set_header bp totalSize 0 ;;;
    set_footer bp totalSize 0 ;;;
    ret bp
  else if (prev_alloc =? 0) && negb (next_alloc =? 0) then
    pb1 <- get_prev bp ;; prevSize <- get_size pb1 ;;
    let totalSize := to_int (size + prevSize) in
    pb2 <- get_prev bp ;; set_header pb2 totalSize 0 ;;;
    pb3 <- get_prev bp ;; set_footer pb3 totalSize 0 ;;;
    get_prev bp
  else
    nb1 <- get_next bp ;; free_list_remove nb1 ;;;
    nb2 <- get_next bp ;; nextSize <- get_size nb2 ;;
    pb1 <- get_prev bp ;; prevSize <- get_size pb1 ;;
    let totalSize := to_int (to_int (prevSize + size) + nextSize) in
    pb2 <- get_prev bp ;; set_header pb2 totalSize 0 ;;;
    pb3 <- get_prev bp ;; set_footer pb3 totalSize 0 ;;;
    get_prev bp.

(** ** Top-level allocator: growth, initialisation, free *)

(** Returns the header of the new free block, or [0] ([NULL]) when the
    provider fails. *)
Definition extend_heap (size : Z) : M Z :=
  bp <- mem_sbrk size ;;
  if bp =? -1 then ret 0
  else
    let old_epilogue := bp - 4 in
    set_header old_epilogue size 0 ;;;
    set_footer old_epilogue size 0 ;;;
    ne <- get_next old_epilogue ;; set_header ne 0 1 ;;;
    free_coalesce old_epilogue.

Definition set_heap_blocks (p : Z) : M unit :=
  fun s => Ok (tt, with_heap_blocks s p).

Definition mm_init : M Z :=
  set_head 0 ;;;
  set_tail 0 ;;;
  new_region <- mem_sbrk 16 ;;
  if new_region =? -1 then ret (-1)
  else
    set_heap_blocks new_region ;;;
    set_header new_region 0 0 ;;;
    set_header (new_region + 4) 8 1 ;;;
    set_footer (new_region + 4) 8 1 ;;;
    set_header (new_region + 12) 0 1 ;;;
    set_heap_blocks (new_region + 4) ;;;
    extend_heap 200 ;;;
    ret 0.

Definition mm_free (bp : Z) : M unit :=
  let blockH := bp - 4 in
  free_coalesce blockH ;;; ret tt.

(** ** Fit search and placement *)

(** The loop of the [size > 270] branch: walk [prev_free] links from the
    tail. *)
Fixpoint find_fit_from_tail (fuel : nat) (size hptr : Z) : M Z :=
  match fuel with
  | O => timeout
  | S fuel' =>
    if hptr =? 0 then ret 0
    else
      bSize <- get_size hptr ;;
      if bSize >=? size then
        p <- get_prev_free hptr ;;
        if negb (p =? 0) then
          p1 <- get_prev_free hptr ;; nSize <- get_size p1 ;;
          if (nSize <? bSize) && (nSize >=? size) then get_prev_free hptr
          else ret hptr
        else ret hptr
      else
        p <- get_prev_free hptr ;;
        find_fit_from_tail fuel' size p
  end.

(** The loop of the [size <= 270] branch: walk [next_free] links from the
    head. *)
Fixpoint find_fit_from_head (fuel : nat) (size hptr : Z) : M Z :=
  match fuel with
  | O => timeout
  | S fuel' =>
    if hptr =? 0 then ret 0
    else
      bSize <- get_size hptr ;;
      if bSize >=? size then
        n <- get_next_free hptr ;;
        if negb (n =? 0) then
          n1 <- get_next_free hptr ;; nSize <- get_size n1 ;;
          if (nSize <? bSize) && (nSize >=? size) then get_next_free hptr
          else ret hptr
        else ret hptr
      else
        n <- get_next_free hptr ;;
        find_fit_from_head fuel' size n
  end.

Definition find_fit (fuel : nat) (size : Z) : M Z :=
  if size >? 270 then
    t <- get_tail ;; find_fit_from_tail fuel size t
  else
    h <- get_head ;; find_fit_from_head fuel size h.

Definition place (bp size : Z) : M Z :=
  sz <- get_size bp ;;
  let newSize := to_int (sz - size) in
  free_list_remove bp ;;;
  if newSize <=? 8 then
    s1 <- get_size bp ;; set_header bp s1 1 ;;;
    s2 <- get_size bp ;; set_footer bp s2 1 ;;;
    ret bp
  else if size >? 25 then
    set_header bp newSize 0 ;;;
    set_footer bp newSize 0 ;;;
    nb1 <- get_next bp ;; set_header nb1 size 1 ;;;
    nb2 <- get_next bp ;; set_footer nb2 size 1 ;;;
    free_coalesce bp ;;;
    get_next bp
  else
    set_header bp size 1 ;;;
    set_footer bp size 1 ;;;
    nb1 <- get_next bp ;; set_header nb1 newSize 0 ;;;
    nb2 <- get_next bp ;; set_footer nb2 newSize 0 ;;;
    nb3 <- get_next bp ;; free_coalesce nb3 ;;;
    ret bp.

(** [payload_size] is an [int]; C division truncates toward zero. *)
Definition required_block_size (payload_size : Z) : Z :=
  let payload_size := to_int (payload_size + 8) in
  to_int (Z.quot (to_int (payload_size + 7)) 8 * 8).

(** ** Top-level allocator: allocate and resize *)

(** The [while (1)] loop of [mm_malloc]. *)
Fixpoint malloc_grow (fuel fit_fuel : nat) (required_size : Z) : M Z :=
  match fuel with
  | O => timeout
  | S fuel' =>
    extend_heap required_size ;;;
    b <- find_fit fit_fuel required_size ;;
    if negb (b =? 0) then
      b1 <- find_fit fit_fuel required_size ;;
      p <- place b1 required_size ;;
      ret (get_payload_addr p)
    else malloc_grow fuel' fit_fuel required_size
  end.

(** [size] is a [size_t]; it is converted to [int] at the call of
    [required_block_size]. *)
Definition mm_malloc (fuel : nat) (size : Z) : M Z :=
  if size =? 0 then ret 0
  else
    let required_size := required_block_size (to_int size) in
    b <- find_fit fuel required_size ;;
    if negb (b =? 0) then
      b1 <- find_fit fuel required_size ;;
      p <- place b1 required_size ;;
      ret (get_payload_addr p)
    else
      b2 <- find_fit fuel required_size ;;
      if b2 =? 0 then malloc_grow fuel fuel required_size
      else ret 0.

(** [memcpy(dst, src, n)]: every byte read or written must lie inside the
    region. *)
Definition memcpy (dst src n : Z) : M unit :=
  fun s =>
    if n =? 0 then Ok (tt, s)
    else if (mem_start_brk s <=? dst) && (dst + n <=? mem_brk s)
         && (mem_start_brk s <=? src) && (src + n <=? mem_brk s)
    then Ok (tt, with_mem s (copy_bytes (mem s) dst src n))
    else Fault.

(** [MIN(x, y)] of the source: [(x) > (y) ? (y) : (x)]. *)
Definition MIN (x y : Z) : Z := if x >? y then y else x.

Definition mm_realloc (fuel : nat) (ptr size : Z) : M Z :=
  let hptr := ptr - 4 in
  let rSize := to_uint (required_block_size (to_int size)) in
  sb <- get_size hptr ;;
  let size_block := to_uint sb in
  let sSize := to_uint (size_block - rSize) in
  s1 <- get_size hptr ;; nb <- get_next hptr ;; s2 <- get_size nb ;;
  let aSize := to_uint (s1 + s2) in
  let newSize := to_uint (aSize - rSize) in
  if hptr =? 0 then mm_malloc fuel size
  else if size =? 0 then
    mm_free hptr ;;; ret 0
  else if size_block <? rSize then
    nb1 <- get_next hptr ;; next_alloc <- get_allocated nb1 ;;
    if (next_alloc =? 0) && (aSize >=? rSize) then
      nb2 <- get_next hptr ;; free_list_remove nb2 ;;;
      (if newSize <=? 250 then
         set_header hptr (to_int aSize) 1 ;;;
         set_footer hptr (to_int aSize) 1
       else
         set_header hptr (to_int rSize) 1 ;;;
         set_footer hptr (to_int rSize) 1 ;;;
         nb3 <- get_next hptr ;; set_header nb3 (to_int newSize) 0 ;;;
         nb4 <- get_next hptr ;; set_footer nb4 (to_int newSize) 0 ;;;
         nb5 <- get_next hptr ;; free_coalesce nb5 ;;; ret tt) ;;;
      ret (get_payload_addr hptr)
    else
      new_ptr <- mm_malloc fuel size ;;
      os <- get_size (ptr - 4) ;;
      memcpy new_ptr ptr (MIN size (to_uint (to_uint os - 8))) ;;;
      mm_free ptr ;;;
      ret new_ptr
  else
    (if sSize >? 250 then
       set_header hptr (to_int rSize) 1 ;;;
       set_footer hptr (to_int rSize) 1 ;;;
       nb3 <- get_next hptr ;; set_header nb3 (to_int sSize) 0 ;;;
       nb4 <- get_next hptr ;; set_footer nb4 (to_int sSize) 0 ;;;
       nb5 <- get_next hptr ;; free_coalesce nb5 ;;; ret tt
     else ret tt) ;;;
    ret (get_payload_addr hptr).

(** ** Concrete regions used to run the code *)

(** A provider whose region starts at [lo], can supply [cap] bytes in all,
    and whose bytes initially hold [m]. *)
Definition fresh (m : memory) (lo cap : Z) : state :=
  mkState m lo lo (lo + cap) 0 0 0.

Definition zeros : memory := fun _ => 0.

(** The state reached after running [c], or the state given when [c] does
    not return. *)
Definition state_after {A} (c : M A) (s : state) : state :=
  match c s with Ok (_, s') => s' | _ => s end.

Definition value_of {A} (c : M A) (s : state) : option A :=
  match c s with Ok (a, _) => Some a | _ => None end.

(** Walk the heap from the prologue, as a heap checker would, and test that
    the header and footer words of every block decode to the same
    [(size, allocated)] pair.  The walk stops at the first header of size 0
    (the epilogue). *)
Fixpoint headers_match_footers (fuel : nat) (bp : Z) : M bool :=
  match fuel with
  | O => timeout
  | S fuel' =>
    sz <- get_size bp ;;
    if sz =? 0 then ret true
    else
      al <- get_allocated bp ;;
      fsz <- get_size (bp + sz - 4) ;;
      fal <- get_allocated (bp + sz - 4) ;;
      if (sz =? fsz) && (al =? fal) then headers_match_footers fuel' (bp + sz)
      else ret false
  end.

Definition check_heap (fuel : nat) : M bool :=
  fun s => headers_match_footers fuel (heap_blocks s) s.

(** ** Weakest preconditions *)

(** [wp T c s Q]: running [c] from [s] does not fault, and if it returns
    [a] in state [s'] then [Q a s'].  With [T := False] the run must also
    return (total correctness); with [T := True] it may run out of fuel. *)
Definition wp {A} (T : Prop) (c : M A) (s : state)
           (Q : A -> state -> Prop) : Prop :=
  match c s with
  | Ok (a, s') => Q a s'
  | Fault => False
  | Timeout => T
  end.


(** ** The heap as a list of blocks and a free list *)

(** A block is [Limbo] between the moment its header says "free" (or is
    about to) and the moment [free_coalesce] has put it on the free list:
    only the size in its header is meaningful then. *)
Inductive status : Type := Allocated | Free | Limbo.

Record block : Type := mkBlock {
  b_addr : Z;        (* address of the header *)
  b_size : Z;        (* total size, header and footer included *)
  b_status : status
}.

Definition b_end (b : block) : Z := b_addr b + b_size b.

(** [chain a bl e]: the blocks of [bl] tile the addresses from [a] to [e]
    with no gap, in order. *)
Fixpoint chain (a : Z) (bl : list block) (e : Z) : Prop :=
  match bl with
  | [] => a = e
  | b :: r =>
    b_addr b = a /\ 16 <= b_size b /\ b_size b mod 8 = 0 /\
    chain (a + b_size b) r e
  end.

(** What the memory holds in the header and footer of a block. *)
Definition tagged (m : memory) (b : block) : Prop :=
  match b_status b with
  | Allocated =>
    rd m (b_addr b) = b_size b + 1 /\ rd m (b_end b - 4) = b_size b + 1
  | Free =>
    rd m (b_addr b) = b_size b /\ rd m (b_end b - 4) = b_size b
  | Limbo =>
    rd m (b_addr b) = b_size b \/ rd m (b_addr b) = b_size b + 1
  end.

Definition clean (bl : list block) : Prop :=
  Forall (fun b => b_status b <> Limbo) bl.

(** [links m p l n]: the nodes of [l] are doubly linked in this order, the
    first one having [p] as [prev_free] and the last one [n] as
    [next_free]. *)
Fixpoint links (m : memory) (p : Z) (l : list Z) (n : Z) : Prop :=
  match l with
  | [] => True
  | x :: r => rd m (x + 4) = p /\ rd m (x + 8) = hd n r /\ links m x r n
  end.

(** The link fields of distinct nodes do not overlap. *)
Definition spaced (l : list Z) : Prop :=
  forall x y, In x l -> In y l -> x = y \/ x + 8 <= y \/ y + 8 <= x.

(** [m'] differs from [m] at most inside the link fields of the nodes of
    [l]. *)
Definition only_links (l : list Z) (m m' : memory) : Prop :=
  forall x, (forall y, In y l -> x < y + 4 \/ y + 12 <= x) -> m' x = m x.

(** The provider's variables and [heap_blocks] are the same in both
    states. *)
Definition same_region (s s' : state) : Prop :=
  mem_start_brk s' = mem_start_brk s /\ mem_brk s' = mem_brk s /\
  mem_max_addr s' = mem_max_addr s /\ heap_blocks s' = heap_blocks s.

Definition is_free (b : block) : bool :=
  match b_status b with Free => true | _ => false end.

(** Header addresses of the free blocks of [bl], in address order. *)
Definition free_addrs (bl : list block) : list Z :=
  map b_addr (filter is_free bl).

(** The free list [fl] is laid out in the state. *)
Record fl_rep (s : state) (fl : list Z) : Prop := mkFlRep {
  fr_links : links (mem s) 0 fl 0;
  fr_head : free_headp s = hd 0 fl;
  fr_tail : free_tailp s = last fl 0;
  fr_nodup : NoDup fl;
  fr_spaced : spaced fl;
  fr_valid : forall y, In y fl ->
             0 < y < two31 /\ mem_start_brk s <= y /\ y + 12 <= mem_brk s
}.

(** The region holds the padding word, the prologue, the blocks [bl], the
    epilogue, and the free list [fl] threads exactly the free blocks. *)
Record heap_rep (s : state) (bl : list block) (fl : list Z) : Prop :=
mkHeapRep {
  hr_lo : 0 < mem_start_brk s;
  hr_aligned : mem_start_brk s mod 8 = 0;
  hr_max : mem_brk s <= mem_max_addr s /\ mem_max_addr s <= two31;
  hr_heap_blocks : heap_blocks s = mem_start_brk s + 4;
  hr_prologue : rd (mem s) (mem_start_brk s + 4) = 9 /\
                rd (mem s) (mem_start_brk s + 8) = 9;
  hr_chain : chain (mem_start_brk s + 12) bl (mem_brk s - 4);
  hr_epilogue : rd (mem s) (mem_brk s - 4) = 1;
  hr_tags : Forall (tagged (mem s)) bl;
  hr_links : links (mem s) 0 fl 0;
  hr_head : free_headp s = hd 0 fl;
  hr_tail : free_tailp s = last fl 0;
  hr_nodup : NoDup fl;
  hr_free : forall x, In x fl <-> In x (free_addrs bl)
}.

(** A well-formed heap: a representation without block in limbo. *)
Definition heap_inv (s : state) (bl : list block) (fl : list Z) : Prop :=
  heap_rep s bl fl /\ clean bl.

(** The payload bytes of the allocated blocks of [bl] are the same in [m]
    and [m']. *)
Definition keeps_payloads (bl : list block) (m m' : memory) : Prop :=
  forall b, In b bl -> b_status b = Allocated ->
  forall x, b_addr b + 4 <= x < b_end b - 4 -> m' x = m x.

(** The allocated blocks of [bl] are still allocated blocks of [bl']. *)
Definition keeps_allocated (bl bl' : list block) : Prop :=
  forall b, In b bl -> b_status b = Allocated -> In b bl'.

(** A block header address at which the two link fields can be accessed. *)
Definition node_ok (s : state) (y : Z) : Prop :=
  0 < y < two31 /\ mem_start_brk s <= y /\ y + 12 <= mem_brk s.


(** The block after the one considered, if any, is allocated (the epilogue
    is). *)
Definition next_allocated (bl2 : list block) : Prop :=
  match bl2 with
  | [] => True
  | b :: _ => b_status b = Allocated
  end.

(** The block before the one considered, if any, is allocated (the
    prologue is). *)
Definition prev_allocated (bl1 : list block) : Prop :=
  last (map b_status bl1) Allocated = Allocated.

(** No two neighbours in a list of statuses are both free. *)
Fixpoint no_ff (l : list status) : Prop :=
  match l with
  | [] => True
  | a :: r => ~ (a = Free /\ hd Allocated r = Free) /\ no_ff r
  end.

(** No two neighbouring blocks are both free: every merge that could be
    made has been made. *)
Definition coalesced (bl : list block) : Prop := no_ff (map b_status bl).

(** [m'] differs from [m] at most inside the addresses [lo .. hi - 1] and
    inside the link fields of the nodes of [l]. *)
Definition frame (lo hi : Z) (l : list Z) (m m' : memory) : Prop :=
  forall x, x < lo \/ hi <= x ->
  (forall y, In y l -> x < y + 4 \/ y + 12 <= x) -> m' x = m x.

(** What [free_list_insert] does to the free list. *)
Definition insert_fl (size bp : Z) (fl : list Z) : list Z :=
  if size <? 1000 then bp :: fl else fl ++ [bp].

(** The four-way case analysis that ends [free_coalesce], as a function of
    the values computed before it. *)
Definition coalesce_cases (bp size prev_alloc next_alloc : Z) : M Z :=
  if negb (prev_alloc =? 0) && negb (next_alloc =? 0) then
    free_list_insert size bp ;;;
    ret bp
  else if negb (prev_alloc =? 0) && (next_alloc =? 0) then
    nb1 <- get_next bp ;; free_list_remove nb1 ;;;
    free_list_insert size bp ;;;
    nb2 <- get_next bp ;; nextSize <- get_size nb2 ;;
    let totalSize := to_int (size + nextSize) in
    set_header bp totalSize 0 ;;;
    set_footer bp totalSize 0 ;;;
    ret bp
  else if (prev_alloc =? 0) && negb (next_alloc =? 0) then
    pb1 <- get_prev bp ;; prevSize <- get_size pb1 ;;
    let totalSize := to_int (size + prevSize) in
    pb2 <- get_prev bp ;; set_header pb2 totalSize 0 ;;;
    pb3 <- get_prev bp ;; set_footer pb3 totalSize 0 ;;;
    get_prev bp
  else
    nb1 <- get_next bp ;; free_list_remove nb1 ;;;
    nb2 <- get_next bp ;; nextSize <- get_size nb2 ;;
    pb1 <- get_prev bp ;; prevSize <- get_size pb1 ;;
    let totalSize := to_int (to_int (prevSize + size) + nextSize) in
    pb2 <- get_prev bp ;; set_header pb2 totalSize 0 ;;;
    pb3 <- get_prev bp ;; set_footer pb3 totalSize 0 ;;;
    get_prev bp.

(** ** A checker for concrete heaps *)

Definition status_eqb (a b : status) : bool :=
  match a, b with
  | Allocated, Allocated | Free, Free | Limbo, Limbo => true
  | _, _ => false
  end.

Fixpoint chain_b (a : Z) (bl : list block) (e : Z) : bool :=
  match bl with
  | [] => a =? e
  | b :: r =>
    (b_addr b =? a) && (16 <=? b_size b) && (b_size b mod 8 =? 0)
    && chain_b (a + b_size b) r e
  end.

Definition tagged_b (m : memory) (b : block) : bool :=
  match b_status b with
  | Allocated =>
    (rd m (b_addr b) =? b_size b + 1) && (rd m (b_end b - 4) =? b_size b + 1)
  | Free =>
    (rd m (b_addr b) =? b_size b) && (rd m (b_end b - 4) =? b_size b)
  | Limbo =>
    (rd m (b_addr b) =? b_size b) || (rd m (b_addr b) =? b_size b + 1)
  end.

Fixpoint links_b (m : memory) (p : Z) (l : list Z) (n : Z) : bool :=
  match l with
  | [] => true
  | x :: r =>
    (rd m (x + 4) =? p) && (rd m (x + 8) =? hd n r) && links_b m x r n
  end.

Definition mem_b (x : Z) (l : list Z) : bool := existsb (Z.eqb x) l.

Fixpoint nodup_b (l : list Z) : bool :=
  match l with
  | [] => true
  | x :: r => negb (mem_b x r) && nodup_b r
  end.

Definition check_rep (s : state) (bl : list block) (fl : list Z) : bool :=
  (0 <? mem_start_brk s) && (mem_start_brk s mod 8 =? 0)
  && (mem_brk s <=? mem_max_addr s) && (mem_max_addr s <=? two31)
  && (heap_blocks s =? mem_start_brk s + 4)
  && (rd (mem s) (mem_start_brk s + 4) =? 9)
  && (rd (mem s) (mem_start_brk s + 8) =? 9)
  && chain_b (mem_start_brk s + 12) bl (mem_brk s - 4)
  && (rd (mem s) (mem_brk s - 4) =? 1)
  && forallb (tagged_b (mem s)) bl
  && links_b (mem s) 0 fl 0
  && (free_headp s =? hd 0 fl) && (free_tailp s =? last fl 0)
  && nodup_b fl
  && forallb (fun x => mem_b x (free_addrs bl)) fl
  && forallb (fun x => mem_b x fl) (free_addrs bl).

Definition clean_b (bl : list block) : bool :=
  forallb (fun b => negb (status_eqb (b_status b) Limbo)) bl.

Fixpoint no_ff_b (l : list status) : bool :=
  match l with
  | [] => true
  | a :: r =>
    negb (status_eqb a Free && status_eqb (hd Allocated r) Free) && no_ff_b r
  end.

Definition coalesced_b (bl : list block) : bool := no_ff_b (map b_status bl).


(** ** The fit search on lists *)

(** The search of [find_fit] on a list of [(header address, size)] pairs:
    the first block that is large enough, unless the block after it in the
    direction of the search is smaller and still large enough. *)
Fixpoint scan_fit (size : Z) (l : list (Z * Z)) : Z :=
  match l with
  | [] => 0
  | (x, sx) :: r =>
    if sx >=? size then
      match r with
      | (y, sy) :: _ => if (sy <? sx) && (sy >=? size) then y else x
      | [] => x
      end
    else scan_fit size r
  end.

(** The free list with the size found in each header. *)
Definition sized (s : state) (fl : list Z) : list (Z * Z) :=
  map (fun y => (y, rd (mem s) y)) fl.


(** ** Concrete heaps *)

(** The region right after [mm_init]: a zero-filled region starting at
    address 1000 from which the provider can supply 100000 bytes. *)
Definition heap0 : state := state_after mm_init (fresh zeros 1000 100000).

(** Two 16-byte allocations: the payloads are at 1016 and 1040. *)
Definition heap2 : state :=
  state_after (mm_malloc 10 16) (state_after (mm_malloc 10 16) heap0).

(** A provider that can supply exactly the 216 bytes [mm_init] asks for. *)
Definition exhausted : state := state_after mm_init (fresh zeros 1000 216).

(** Five 16-byte allocations (payloads at 1016, 1040, 1064, 1088, 1112),
    then the second and the fourth are freed: the free list is
    [1084; 1036; 1132]. *)
Definition heap5 : state :=
  let m := mm_malloc 10 16 in
  state_after
    (m ;;; m ;;; m ;;; m ;;; m ;;; mm_free 1040 ;;; mm_free 1088) heap0.

(** Three 16-byte allocations at 1012, 1036 and 1060, a 2000-byte one that
    is freed again, and the first one freed: the blocks are a free one of
    24 bytes, two allocated ones of 24 bytes and a free one of 2136 bytes;
    the free list is [1012; 1084]. *)
Definition heap_big_next : state :=
  let m := mm_malloc 10 16 in
  state_after
    (m ;;; m ;;; m ;;; d <- mm_malloc 10 2000 ;; mm_free d ;;; mm_free 1016)
    heap0.

Definition heap_big_next_blocks : list block :=
  [mkBlock 1012 24 Free; mkBlock 1036 24 Allocated;
   mkBlock 1060 24 Allocated; mkBlock 1084 2136 Free].

(** Six large allocations of which the second, fourth and sixth are freed,
    last one first: the free list is [1524; 2108; 2724; 1012] with sizes
    272, 304, 280 and 200. *)
Definition heap_fit : state :=
  state_after
    (s0 <- mm_malloc 10 300 ;;
     a <- mm_malloc 10 264 ;; b <- mm_malloc 10 300 ;;
     c <- mm_malloc 10 296 ;; d <- mm_malloc 10 300 ;;
     e <- mm_malloc 10 272 ;;
     mm_free e ;;; mm_free c ;;; mm_free a) heap0.

Definition heap_fit_blocks : list block :=
  [mkBlock 1012 200 Free; mkBlock 1212 312 Allocated;
   mkBlock 1524 272 Free; mkBlock 1796 312 Allocated;
   mkBlock 2108 304 Free; mkBlock 2412 312 Allocated;
   mkBlock 2724 280 Free].

Definition heap2_blocks : list block :=
  [mkBlock 1012 24 Allocated; mkBlock 1036 24 Allocated;
   mkBlock 1060 152 Free].

(** [heap2] after the caller has filled the 16 payload bytes at 1016. *)
Definition heap2_filled : state :=
  state_after (store 1016 287454020 ;;; store 1020 1432778632 ;;;
               store 1024 19088743 ;;; store 1028 2309737967) heap2.

(** [heap2] after the caller has stored the words 1 and 9 in the last two
    words of the payload at 1016. *)
Definition heap2_user : state :=
  state_after (store 1024 1 ;;; store 1028 9) heap2.

(** A 192-byte and a 256-byte allocation (payloads at 1016 and 1216, blocks
    of 200 and 264 bytes, empty free list); the caller has stored a word at
    1216. *)
Definition heap_large : state :=
  state_after (mm_malloc 10 192 ;;; mm_malloc 10 256 ;;;
               store 1216 287454020) heap0.

Definition heap_large_blocks : list block :=
  [mkBlock 1012 200 Allocated; mkBlock 1212 264 Allocated].

(** ** Steps of the allocator *)

(** From [(s, bl)] to [(s', bl')] the region keeps its start, the
    allocated blocks stay allocated and their payload bytes are
    untouched. *)
Definition evolves (s : state) (bl : list block)
           (s' : state) (bl' : list block) : Prop :=
  mem_start_brk s' = mem_start_brk s /\
  keeps_allocated bl bl' /\ keeps_payloads bl (mem s) (mem s').

(** What a successful allocation of a block of at least [r] bytes
    establishes: the heap is well formed again, the block at [q - 4] is
    allocated, large enough, and was not an allocated block before. *)
Definition alloc_post (s : state) (bl : list block) (r : Z)
           (q : Z) (s' : state) : Prop :=
  exists bl' fl' qsz,
    heap_inv s' bl' fl' /\ evolves s bl s' bl' /\
    heap_blocks s' = heap_blocks s /\
    In (mkBlock (q - 4) qsz Allocated) bl' /\ r <= qsz /\
    (forall b, In b bl -> b_status b = Allocated -> b_addr b <> q - 4).

(** Where [place] puts the allocated block [r], of [rsz] bytes, inside a
    free block of [bsz] bytes at [bp]: the whole block when at most 8 bytes
    would remain, else its last [size] bytes when [size > 25] and its first
    [size] bytes otherwise. *)
Definition placed (bp bsz size r rsz : Z) : Prop :=
  if bsz - size <=? 8 then r = bp /\ rsz = bsz
  else if size >? 25 then r = bp + (bsz - size) /\ rsz = size
  else r = bp /\ rsz = size.

(** Some free block of [bl] has at least [r] bytes. *)
Definition has_fit (bl : list block) (r : Z) : Prop :=
  exists b, In b bl /\ b_status b = Free /\ r <= b_size b.

(** What a successful [mm_realloc p n] establishes, [p] being the payload
    of an allocated block of [sz] bytes between the blocks [bl1] and
    [bl2]: the heap is well formed again, the block at [q - 4] is allocated
    and large enough, the first [min (sz - 8) n] payload bytes are those
    that were at [p], and the other allocated blocks are as they were. *)
Definition realloc_post (s : state) (bl1 : list block) (p sz : Z)
           (bl2 : list block) (n : Z) (q : Z) (s' : state) : Prop :=
  exists bl' fl' qsz,
    heap_inv s' bl' fl' /\
    In (mkBlock (q - 4) qsz Allocated) bl' /\ n + 8 <= qsz /\
    (forall i, 0 <= i < Z.min (sz - 8) n -> mem s' (q + i) = mem s (p + i)) /\
    mem_start_brk s' = mem_start_brk s /\
    keeps_allocated (bl1 ++ bl2) bl' /\
    keeps_payloads (bl1 ++ bl2) (mem s) (mem s').

(** [mm_realloc] can serve a required block size [r] in place: the block
    is large enough, or the next block is free and the two together are. *)
Definition resize_in_place (sz : Z) (bl2 : list block) (r : Z) : Prop :=
  r <= sz \/
  exists nb nsz bl2', bl2 = mkBlock nb nsz Free :: bl2' /\ r <= sz + nsz.

(** What [mm_realloc p n] establishes, in full: [realloc_post], the
    pointer and the region are the same when the request is served in
    place, the pointer is another one otherwise, it is the pointer of no
    other block that was allocated, no block other than the returned one
    became allocated, and a heap without neighbouring free
    blocks stays so (when [K] holds). *)
Definition realloc_full_post (K : Prop) (s : state) (bl1 : list block)
           (p sz : Z) (bl2 : list block) (n r : Z) (q : Z) (s' : state)
  : Prop :=
  exists bl' fl' qsz,
    heap_inv s' bl' fl' /\
    In (mkBlock (q - 4) qsz Allocated) bl' /\ n + 8 <= qsz /\
    (forall i, 0 <= i < Z.min (sz - 8) n -> mem s' (q + i) = mem s (p + i)) /\
    mem_start_brk s' = mem_start_brk s /\
    keeps_allocated (bl1 ++ bl2) bl' /\
    keeps_payloads (bl1 ++ bl2) (mem s) (mem s') /\
    (resize_in_place sz bl2 r -> q = p /\ mem_brk s' = mem_brk s) /\
    ((~ resize_in_place sz bl2 r -> q <> p) /\
     (forall b, In b (bl1 ++ bl2) -> b_status b = Allocated ->
                b_addr b <> q - 4)) /\
    (forall b, In b bl' -> b_status b = Allocated ->
               b = mkBlock (q - 4) qsz Allocated \/ In b (bl1 ++ bl2)) /\
    (K -> coalesced bl').

(** ** The states a caller can reach *)

(** The entries of [live] other than those for the pointer [p]. *)
Definition remove_ptr (p : Z) (live : list (Z * Z)) : list (Z * Z) :=
  filter (fun e => negb (fst e =? p)) live.

(** [reachable s live]: the state [s] is reached from [mm_init] on a fresh
    region by calls of [mm_malloc], [mm_free], [mm_realloc] (with a non-zero
    size) and by stores of the caller inside the payloads it holds; [live]
    lists the pointers the caller holds, each with the size it asked for.
    [mm_free] and [mm_realloc] are called on live pointers only, and sizes
    are at most [2^31 - 16]. *)
Inductive reachable : state -> list (Z * Z) -> Prop :=
| reach_init s s' :
    mem_brk s = mem_start_brk s -> 0 < mem_start_brk s ->
    mem_start_brk s mod 8 = 0 ->
    mem_start_brk s + 16 <= mem_max_addr s -> mem_max_addr s <= two31 ->
    mm_init s = Ok (0, s') ->
    reachable s' []
| reach_malloc s live fuel n q s' :
    reachable s live -> 0 < n <= two31 - 16 ->
    mm_malloc fuel n s = Ok (q, s') ->
    reachable s' ((q, n) :: live)
| reach_free s live p n s' :
    reachable s live -> In (p, n) live ->
    mm_free p s = Ok (tt, s') ->
    reachable s' (remove_ptr p live)
| reach_realloc s live fuel p n0 n q s' :
    reachable s live -> In (p, n0) live -> 0 < n <= two31 - 16 ->
    mm_realloc fuel p n s = Ok (q, s') ->
    reachable s' ((q, n) :: remove_ptr p live)
| reach_store s live p n a v s' :
    reachable s live -> In (p, n) live -> p <= a -> a + 4 <= p + n ->
    store a v s = Ok (tt, s') ->
    reachable s' live.

(** The allocated blocks of [bl] are the blocks of the live pointers, each
    large enough for the size asked for, and no pointer is listed twice. *)
Definition tracks (live : list (Z * Z)) (bl : list block) : Prop :=
  (forall p n, In (p, n) live ->
     exists sz, In (mkBlock (p - 4) sz Allocated) bl /\ n + 8 <= sz) /\
  (forall b, In b bl -> b_status b = Allocated ->
     In (b_addr b + 4) (map fst live)) /\
  NoDup (map fst live).
(** * Reasoning principles *)

(** ** Memory *)

Lemma bytes_value (v : Z) :
  v mod 256 + 256 * ((v / 256) mod 256) + 65536 * ((v / 65536) mod 256)
  + 16777216 * ((v / 16777216) mod 256) = v mod two32.
Proof.
  unfold two32. Z.div_mod_to_equations. lia.
Qed.

Lemma wr_other m a v x : x < a \/ a + 4 <= x -> wr m a v x = m x.
Proof.
  intros H. unfold wr.
  replace (x =? a) with false by (symmetry; apply Z.eqb_neq; lia).
  replace (x =? a + 1) with false by (symmetry; apply Z.eqb_neq; lia).
  replace (x =? a + 2) with false by (symmetry; apply Z.eqb_neq; lia).
  replace (x =? a + 3) with false by (symmetry; apply Z.eqb_neq; lia).
  reflexivity.
Qed.

Lemma rd_wr_same m a v : rd (wr m a v) a = v mod two32.
Proof.
  unfold rd, byte_at, wr.
  rewrite Z.eqb_refl.
  replace (a + 1 =? a) with false by (symmetry; apply Z.eqb_neq; lia).
  replace (a + 2 =? a) with false by (symmetry; apply Z.eqb_neq; lia).
  replace (a + 3 =? a) with false by (symmetry; apply Z.eqb_neq; lia).
  rewrite !Z.eqb_refl.
  replace (a + 2 =? a + 1) with false by (symmetry; apply Z.eqb_neq; lia).
  replace (a + 3 =? a + 1) with false by (symmetry; apply Z.eqb_neq; lia).
  replace (a + 3 =? a + 2) with false by (symmetry; apply Z.eqb_neq; lia).
  rewrite !Z.mod_mod by lia. apply bytes_value.
Qed.

Lemma rd_wr_other m a v b :
  b + 4 <= a \/ a + 4 <= b -> rd (wr m a v) b = rd m b.
Proof.
  intros H. unfold rd, byte_at. rewrite !wr_other by lia. reflexivity.
Qed.

Lemma rd_ext m m' a :
  (forall x, a <= x < a + 4 -> m' x = m x) -> rd m' a = rd m a.
Proof.
  intros H. unfold rd, byte_at. rewrite !H by lia. reflexivity.
Qed.

Lemma rd_range m a : 0 <= rd m a < two32.
Proof.
  unfold rd, byte_at, two32.
  pose proof (Z.mod_pos_bound (m a) 256).
  pose proof (Z.mod_pos_bound (m (a + 1)) 256).
  pose proof (Z.mod_pos_bound (m (a + 2)) 256).
  pose proof (Z.mod_pos_bound (m (a + 3)) 256).
  lia.
Qed.

Lemma to_int_small z : 0 <= z < two31 -> to_int z = z.
Proof.
  intros H. unfold to_int, two31, two32 in *.
  rewrite Z.mod_small by lia.
  destruct (z <? 2147483648) eqn:E; [reflexivity|].
  apply Z.ltb_ge in E. lia.
Qed.

Lemma to_uint_small z : 0 <= z < two32 -> to_uint z = z.
Proof. intros H. unfold to_uint. apply Z.mod_small. exact H. Qed.

Lemma wp_ret {A} T (a : A) s Q : Q a s -> wp T (ret a) s Q.
Proof. intros H. exact H. Qed.

Lemma wp_bind {A B} T (c : M A) (k : A -> M B) s Q :
  wp T c s (fun a s' => wp T (k a) s' Q) -> wp T (bind c k) s Q.
Proof.
  unfold wp, bind. destruct (c s) as [[a s']| |]; auto.
Qed.

Lemma wp_mono {A} T (c : M A) s (Q Q' : A -> state -> Prop) :
  wp T c s Q -> (forall a s', Q a s' -> Q' a s') -> wp T c s Q'.
Proof.
  unfold wp. destruct (c s) as [[a s']| |]; auto.
Qed.

Lemma wp_total {A} (T : Prop) (c : M A) s Q : wp False c s Q -> wp T c s Q.
Proof.
  unfold wp. destruct (c s) as [[a s']| |]; auto. intros [].
Qed.

Lemma wp_ok {A} (c : M A) s Q :
  wp False c s Q -> exists a s', c s = Ok (a, s') /\ Q a s'.
Proof.
  unfold wp. destruct (c s) as [[a s']| |]; try contradiction.
  intros H. exists a, s'. auto.
Qed.

Lemma wp_partial {A} (c : M A) s Q a s' :
  wp True c s Q -> c s = Ok (a, s') -> Q a s'.
Proof.
  unfold wp. intros H E. rewrite E in H. exact H.
Qed.

Lemma in_heap_true s a :
  mem_start_brk s <= a -> a + 4 <= mem_brk s -> in_heap s a = true.
Proof.
  intros H1 H2. unfold in_heap.
  apply andb_true_intro. split; apply Z.leb_le; assumption.
Qed.

Lemma wp_load_int T a s Q :
  mem_start_brk s <= a -> a + 4 <= mem_brk s ->
  Q (to_int (rd (mem s) a)) s -> wp T (load_int a) s Q.
Proof.
  intros H1 H2 H. unfold wp, load_int. rewrite in_heap_true by assumption.
  exact H.
Qed.

Lemma wp_load_ptr T a s Q :
  mem_start_brk s <= a -> a + 4 <= mem_brk s ->
  Q (rd (mem s) a) s -> wp T (load_ptr a) s Q.
Proof.
  intros H1 H2 H. unfold wp, load_ptr. rewrite in_heap_true by assumption.
  exact H.
Qed.

Lemma wp_store T a v s Q :
  mem_start_brk s <= a -> a + 4 <= mem_brk s ->
  Q tt (with_mem s (wr (mem s) a v)) -> wp T (store a v) s Q.
Proof.
  intros H1 H2 H. unfold wp, store. rewrite in_heap_true by assumption.
  exact H.
Qed.

(** ** Symbolic execution *)

Ltac proj_simpl :=
  cbn [mem mem_start_brk mem_brk mem_max_addr heap_blocks free_headp free_tailp
       with_mem with_brk with_heap_blocks with_head with_tail] in *.

Ltac rdwr :=
  repeat first [rewrite rd_wr_same | rewrite rd_wr_other by lia].

Lemma wp_get_head T s Q : Q (free_headp s) s -> wp T get_head s Q.
Proof. intros H; exact H. Qed.
Lemma wp_get_tail T s Q : Q (free_tailp s) s -> wp T get_tail s Q.
Proof. intros H; exact H. Qed.
Lemma wp_set_head T p s Q : Q tt (with_head s p) -> wp T (set_head p) s Q.
Proof. intros H; exact H. Qed.
Lemma wp_set_tail T p s Q : Q tt (with_tail s p) -> wp T (set_tail p) s Q.
Proof. intros H; exact H. Qed.
Lemma wp_set_heap_blocks T p s Q :
  Q tt (with_heap_blocks s p) -> wp T (set_heap_blocks p) s Q.
Proof. intros H; exact H. Qed.

Lemma wp_mem_sbrk T incr s Q :
  (incr < 0 \/ mem_max_addr s < mem_brk s + incr -> Q (-1) s) ->
  (0 <= incr -> mem_brk s + incr <= mem_max_addr s ->
   Q (mem_brk s) (with_brk s (mem_brk s + incr))) ->
  wp T (mem_sbrk incr) s Q.
Proof.
  intros H1 H2. unfold wp, mem_sbrk.
  destruct (incr <? 0) eqn:E1; cbn [orb].
  - apply H1. apply Z.ltb_lt in E1. lia.
  - destruct (mem_max_addr s <? mem_brk s + incr) eqn:E2.
    + apply H1. apply Z.ltb_lt in E2. lia.
    + apply Z.ltb_ge in E1, E2. apply H2; lia.
Qed.

Ltac wp_prim :=
  lazymatch goal with
  | |- wp _ (bind _ _) _ _ => apply wp_bind
  | |- wp _ (ret _) _ _ => apply wp_ret
  | |- wp _ (store _ _) _ _ => apply wp_store; [proj_simpl; lia | proj_simpl; lia | ]
  | |- wp _ (load_int _) _ _ => apply wp_load_int; [proj_simpl; lia | proj_simpl; lia | ]
  | |- wp _ (load_ptr _) _ _ => apply wp_load_ptr; [proj_simpl; lia | proj_simpl; lia | ]
  | |- wp _ get_head _ _ => apply wp_get_head
  | |- wp _ get_tail _ _ => apply wp_get_tail
  | |- wp _ (set_head _) _ _ => apply wp_set_head
  | |- wp _ (set_tail _) _ _ => apply wp_set_tail
  | |- wp _ (set_heap_blocks _) _ _ => apply wp_set_heap_blocks
  | |- wp _ (get_size _) _ _ => unfold get_size
  | |- wp _ (get_allocated _) _ _ => unfold get_allocated
  | |- wp _ (set_header _ _ _) _ _ => unfold set_header
  | |- wp _ (set_footer _ _ _) _ _ => unfold set_footer
  | |- wp _ (get_prev _) _ _ => unfold get_prev
  | |- wp _ (get_next _) _ _ => unfold get_next
  | |- wp _ (get_prev_free _) _ _ => unfold get_prev_free
  | |- wp _ (get_next_free _) _ _ => unfold get_next_free
  | |- wp _ (set_prev_free _ _) _ _ => unfold set_prev_free
  | |- wp _ (set_next_free _ _) _ _ => unfold set_next_free
  end.


Ltac is_pos p :=
  lazymatch p with xH => idtac | xI ?q => is_pos q | xO ?q => is_pos q end.
Ltac is_Zconst z :=
  lazymatch z with Z0 => idtac | Zpos ?p => is_pos p | Zneg ?p => is_pos p end.
Ltac zfold2 f :=
  match goal with
  | |- context [f ?a ?b] =>
    is_Zconst a; is_Zconst b;
    let v := eval vm_compute in (f a b) in change (f a b) with v
  end.
Ltac zfold1 f :=
  match goal with
  | |- context [f ?a] =>
    is_Zconst a;
    let v := eval vm_compute in (f a) in change (f a) with v
  end.
Ltac zfold :=
  repeat first
    [ zfold2 Z.lor | zfold2 Z.land | zfold2 Z.add | zfold2 Z.sub
    | zfold2 Z.modulo | zfold2 Z.eqb | zfold2 Z.ltb | zfold2 Z.leb
    | zfold2 Z.gtb | zfold2 Z.geb
    | zfold1 to_int | zfold1 to_uint
    | progress change (?a mod two32) with (to_uint a) ].
Ltac norm_addr :=
  repeat match goal with
  | |- context [?a + ?b + ?c] =>
    is_Zconst b; is_Zconst c;
    let v := eval vm_compute in (b + c) in
    replace (a + b + c) with (a + v) by lia
  | |- context [?a + ?b - ?c] =>
    is_Zconst b; is_Zconst c;
    let v := eval vm_compute in (b - c) in
    replace (a + b - c) with (a + v) by lia
  | |- context [?a + 0] => replace (a + 0) with a by lia
  end.
Ltac wp_run :=
  repeat (first [wp_prim | progress (proj_simpl; rdwr; zfold; norm_addr; cbn [negb andb orb]; cbv iota)]).


(** * Lemmas on the heap representation *)

(** ** Header words *)

Lemma land_m8 x : Z.land x (-8) = x - x mod 8.
Proof.
  change (-8) with (Z.lnot (Z.ones 3)).
  rewrite <- Z.ldiff_land, Z.ldiff_ones_r by lia.
  rewrite Z.shiftr_div_pow2, Z.shiftl_mul_pow2 by lia.
  change (2 ^ 3) with 8. Z.div_mod_to_equations. lia.
Qed.

Lemma land_1 x : Z.land x 1 = x mod 2.
Proof.
  change 1 with (Z.ones 1) at 1. rewrite Z.land_ones by lia. reflexivity.
Qed.

Lemma lor_flag sz al :
  sz mod 8 = 0 -> al = 0 \/ al = 1 -> Z.lor sz al = sz + al.
Proof.
  intros Hsz [->| ->]; [rewrite Z.lor_0_r; lia|].
  assert (H : Z.land sz 1 = 0).
  { rewrite land_1. Z.div_mod_to_equations. lia. }
  rewrite <- Z.lxor_lor by exact H.
  symmetry. apply Z.add_nocarry_lxor. exact H.
Qed.

Lemma word_size sz al :
  sz mod 8 = 0 -> al = 0 \/ al = 1 -> Z.land (sz + al) (-8) = sz.
Proof.
  intros Hsz Hal. rewrite land_m8. Z.div_mod_to_equations. lia.
Qed.

Lemma word_flag sz al :
  sz mod 8 = 0 -> al = 0 \/ al = 1 -> Z.land (sz + al) 1 = al.
Proof.
  intros Hsz Hal. rewrite land_1. Z.div_mod_to_equations. lia.
Qed.

(** ** Chains of blocks *)

Lemma chain_app a l1 l2 e :
  chain a (l1 ++ l2) e <-> exists mid, chain a l1 mid /\ chain mid l2 e.
Proof.
  revert a. induction l1 as [|b l1 IH]; intros a; cbn [app chain].
  - split.
    + intros H. exists a. auto.
    + intros (mid & -> & H). exact H.
  - rewrite IH. split.
    + intros (H1 & H2 & H3 & mid & H4 & H5). exists mid. auto 6.
    + intros (mid & (H1 & H2 & H3 & H4) & H5). eauto 7.
Qed.

Lemma chain_le a l e : chain a l e -> a <= e.
Proof.
  revert a. induction l as [|b l IH]; intros a; cbn [chain].
  - lia.
  - intros (H1 & H2 & H3 & H4). apply IH in H4. lia.
Qed.

Lemma chain_bounds a l e :
  chain a l e -> Forall (fun b => a <= b_addr b /\ b_end b <= e) l.
Proof.
  revert a. induction l as [|b l IH]; intros a; cbn [chain].
  - constructor.
  - intros (H1 & H2 & H3 & H4). constructor.
    + pose proof (chain_le _ _ _ H4). unfold b_end. lia.
    + apply IH in H4. eapply Forall_impl; [|exact H4].
      cbn beta. intros c. lia.
Qed.

Lemma chain_sizes a l e :
  chain a l e -> Forall (fun b => 16 <= b_size b /\ b_size b mod 8 = 0) l.
Proof.
  revert a. induction l as [|b l IH]; intros a; cbn [chain].
  - constructor.
  - intros (H1 & H2 & H3 & H4). constructor; eauto.
Qed.

Lemma chain_aligned a l e :
  a mod 8 = 4 -> chain a l e ->
  Forall (fun b => b_addr b mod 8 = 4) l /\ e mod 8 = 4.
Proof.
  revert a. induction l as [|b l IH]; intros a Ha; cbn [chain].
  - intros <-. split; [constructor|exact Ha].
  - intros (H1 & H2 & H3 & H4).
    assert (Hn : (a + b_size b) mod 8 = 4)
      by (Z.div_mod_to_equations; lia).
    destruct (IH _ Hn H4) as [H5 H6]. split; [|exact H6].
    constructor; [rewrite H1; exact Ha|exact H5].
Qed.

Lemma chain_split a l1 b l2 e :
  chain a (l1 ++ b :: l2) e ->
  chain a l1 (b_addr b) /\ 16 <= b_size b /\ b_size b mod 8 = 0 /\
  chain (b_end b) l2 e.
Proof.
  rewrite chain_app. intros (mid & H1 & H2). cbn [chain] in H2.
  destruct H2 as (H2 & H3 & H4 & H5). subst mid. unfold b_end. auto.
Qed.

Lemma chain_join a l1 b l2 e :
  chain a l1 (b_addr b) -> 16 <= b_size b -> b_size b mod 8 = 0 ->
  chain (b_end b) l2 e -> chain a (l1 ++ b :: l2) e.
Proof.
  intros H1 H2 H3 H4. rewrite chain_app. exists (b_addr b).
  split; [exact H1|]. cbn [chain]. auto.
Qed.

Lemma chain_in_bounds a l e b :
  chain a l e -> In b l -> a <= b_addr b /\ b_end b <= e.
Proof.
  intros H Hb. apply chain_bounds in H. rewrite Forall_forall in H.
  apply H. exact Hb.
Qed.

Lemma chain_in_size a l e b :
  chain a l e -> In b l -> 16 <= b_size b /\ b_size b mod 8 = 0.
Proof.
  intros H Hb. apply chain_sizes in H. rewrite Forall_forall in H.
  apply H. exact Hb.
Qed.

Lemma chain_disjoint a l e b1 b2 :
  chain a l e -> In b1 l -> In b2 l ->
  b1 = b2 \/ b_end b1 <= b_addr b2 \/ b_end b2 <= b_addr b1.
Proof.
  revert a. induction l as [|b l IH]; intros a Hc H1 H2; [destruct H1|].
  cbn [chain] in Hc. destruct Hc as (Ha & Hs & Hm & Hc).
  destruct H1 as [->|H1], H2 as [->|H2].
  - left. reflexivity.
  - right. left. pose proof (chain_in_bounds _ _ _ _ Hc H2).
    unfold b_end in *. lia.
  - right. right. pose proof (chain_in_bounds _ _ _ _ Hc H1).
    unfold b_end in *. lia.
  - eapply IH; eassumption.
Qed.

Lemma chain_inj a l e b1 b2 :
  chain a l e -> In b1 l -> In b2 l -> b_addr b1 = b_addr b2 -> b1 = b2.
Proof.
  intros Hc H1 H2 E.
  destruct (chain_disjoint _ _ _ _ _ Hc H1 H2) as [H|H]; [exact H|].
  pose proof (chain_in_size _ _ _ _ Hc H1).
  pose proof (chain_in_size _ _ _ _ Hc H2).
  unfold b_end in *. lia.
Qed.

(** ** Doubly linked lists in memory *)

Lemma last_cons {A} (l : list A) x d : last (x :: l) d = last l x.
Proof.
  revert x d. induction l as [|y l IH]; intros x d; [reflexivity|].
  change (last (x :: y :: l) d) with (last (y :: l) d).
  rewrite !IH. reflexivity.
Qed.

Lemma links_app m p l1 l2 n :
  links m p (l1 ++ l2) n <->
  links m p l1 (hd n l2) /\ links m (last l1 p) l2 n.
Proof.
  revert p. induction l1 as [|x l1 IH]; intros p; cbn [app links].
  - cbn. tauto.
  - rewrite IH.
    assert (E1 : hd n (l1 ++ l2) = hd (hd n l2) l1) by (destruct l1; reflexivity).
    assert (E2 : last (x :: l1) p = last l1 x) by apply last_cons.
    rewrite E1, E2. tauto.
Qed.

Lemma links_frame m m' p l n :
  links m p l n ->
  (forall y, In y l -> forall x, y + 4 <= x < y + 12 -> m' x = m x) ->
  links m' p l n.
Proof.
  revert p. induction l as [|z l IH]; intros p H Hm; cbn [links] in *; [exact I|].
  destruct H as (H1 & H2 & H3).
  assert (Hz : forall x, z + 4 <= x < z + 12 -> m' x = m x)
    by (apply Hm; left; reflexivity).
  split; [|split].
  - rewrite <- H1. apply rd_ext. intros x Hx. apply Hz. lia.
  - rewrite <- H2. apply rd_ext. intros x Hx. apply Hz. lia.
  - apply IH; [exact H3|]. intros y Hy. apply Hm. right. exact Hy.
Qed.

Lemma links_prev_irrelevant m p p' l n :
  links m p l n -> l = [] \/ rd m (hd 0 l + 4) = p' -> links m p' l n.
Proof.
  destruct l as [|x l]; cbn [links hd]; [auto|].
  intros (H1 & H2 & H3) [E|E]; [discriminate|]. auto.
Qed.

Lemma last_cons_ne {A} (x : A) l d : l <> [] -> last (x :: l) d = last l d.
Proof. destruct l; [congruence|reflexivity]. Qed.

Lemma last_snoc {A} (l : list A) x d : last (l ++ [x]) d = x.
Proof. apply last_last. Qed.

Lemma last_in {A} (l : list A) d : l <> [] -> In (last l d) l.
Proof.
  induction l as [|x l IH]; [congruence|]. intros _.
  destruct l as [|y l]; [left; reflexivity|].
  right. apply IH. discriminate.
Qed.

Lemma hd_in {A} (l : list A) d : l <> [] -> In (hd d l) l.
Proof. destruct l; [congruence|]. intros _. left. reflexivity. Qed.

Lemma spaced_sub l l' : spaced l -> incl l' l -> spaced l'.
Proof. intros H Hi x y Hx Hy. apply H; apply Hi; assumption. Qed.

Lemma only_links_refl l m : only_links l m m.
Proof. intros x _. reflexivity. Qed.

Lemma only_links_trans l m1 m2 m3 :
  only_links l m1 m2 -> only_links l m2 m3 -> only_links l m1 m3.
Proof.
  intros H1 H2 x Hx. rewrite H2 by exact Hx. apply H1. exact Hx.
Qed.

Lemma only_links_incl l l' m m' :
  only_links l m m' -> incl l l' -> only_links l' m m'.
Proof.
  intros H Hi x Hx. apply H. intros y Hy. apply Hx. apply Hi. exact Hy.
Qed.

Lemma only_links_wr l m y v :
  In y l -> only_links l m (wr m (y + 4) v) /\ only_links l m (wr m (y + 8) v).
Proof.
  intros Hy. split; intros x Hx; specialize (Hx y Hy); apply wr_other; lia.
Qed.

Lemma same_region_refl s : same_region s s.
Proof. repeat split. Qed.

(** ** The free list operations *)

Ltac mod_small :=
  rewrite ?Z.mod_small by (unfold two31, two32 in *; lia).

Lemma spaced_apart l x y :
  spaced l -> In x l -> In y l -> x <> y -> x + 8 <= y \/ y + 8 <= x.
Proof. intros H Hx Hy Hn. destruct (H x y Hx Hy) as [E|E]; [contradiction|exact E]. Qed.

Lemma not_in_neq {A} (x y : A) l : ~ In x l -> In y l -> x <> y.
Proof. intros H Hy E. subst. contradiction. Qed.

Lemma nodup_head_neq {A} (x y : A) l : NoDup (x :: l) -> In y l -> x <> y.
Proof. intros H Hy E. subst. inversion H. contradiction. Qed.

Lemma free_list_prepend_spec T s fl bp Q :
  fl_rep s fl -> ~ In bp fl -> spaced (bp :: fl) -> node_ok s bp ->
  (forall s', fl_rep s' (bp :: fl) ->
              only_links (bp :: fl) (mem s) (mem s') ->
              same_region s s' -> Q tt s') ->
  wp T (free_list_prepend bp) s Q.
Proof.
  intros [Hl Hh Ht Hnd Hsp Hv] Hbp Hsp' (Hb1 & Hb2 & Hb3) HQ.
  unfold free_list_prepend. wp_prim. wp_prim. wp_prim. wp_prim.
  destruct fl as [|x r].
  - cbn [hd last] in Hh, Ht. rewrite Hh, Ht. cbn [Z.eqb negb orb].
    wp_run. apply HQ.
    + constructor; proj_simpl.
      * cbn [links hd]. rdwr. mod_small. auto.
      * reflexivity.
      * reflexivity.
      * constructor; [exact Hbp|constructor].
      * exact Hsp'.
      * intros y [<-|[]]. auto.
    + proj_simpl. intros z Hz. specialize (Hz bp (or_introl eq_refl)).
      rewrite !wr_other by lia. reflexivity.
    + repeat split.
  - cbn [hd] in Hh. rewrite Hh.
    destruct (Hv x (or_introl eq_refl)) as (Hx1 & Hx2 & Hx3).
    replace (x =? 0) with false by (symmetry; apply Z.eqb_neq; lia).
    cbn [negb orb]. wp_run. rewrite !Hh. clear Hh.
    assert (Hbx : bp + 8 <= x \/ x + 8 <= bp).
    { apply (spaced_apart _ _ _ Hsp'); [left; reflexivity|right; left; reflexivity|].
      apply (not_in_neq _ _ _ Hbp). left. reflexivity. }
    apply HQ.
    + constructor; proj_simpl.
      * cbn [links hd] in *. destruct Hl as (Hl1 & Hl2 & Hl3).
        rdwr. mod_small. repeat split.
        -- rewrite <- Hl2. rdwr. reflexivity.
        -- eapply links_frame; [exact Hl3|]. intros y Hy z Hz.
           assert (Hy1 : bp + 8 <= y \/ y + 8 <= bp).
           { apply (spaced_apart _ _ _ Hsp'); [left; reflexivity|right; right; exact Hy|].
             apply (not_in_neq _ _ _ Hbp). right. exact Hy. }
           assert (Hy2 : x + 8 <= y \/ y + 8 <= x).
           { apply (spaced_apart _ _ _ Hsp); [left; reflexivity|right; exact Hy|].
             apply (nodup_head_neq _ _ _ Hnd Hy). }
           rewrite !wr_other by lia. reflexivity.
      * reflexivity.
      * rewrite Ht. symmetry. apply last_cons_ne. discriminate.
      * constructor; assumption.
      * exact Hsp'.
      * intros y [<-|Hy]; [auto|]. apply Hv. exact Hy.
    + proj_simpl. intros z Hz.
      pose proof (Hz bp (or_introl eq_refl)).
      pose proof (Hz x (or_intror (or_introl eq_refl))).
      rewrite !wr_other by lia. reflexivity.
    + repeat split.
Qed.

Lemma nodup_app_iff {A} (l1 l2 : list A) :
  NoDup (l1 ++ l2) <->
  NoDup l1 /\ NoDup l2 /\ (forall x, In x l1 -> In x l2 -> False).
Proof.
  induction l1 as [|a l1 IH]; cbn [app].
  - split.
    + intros H. split; [constructor|]. split; [exact H|]. intros x [].
    + tauto.
  - split.
    + intros H. inversion H as [|? ? Hn Hd]; subst.
      apply IH in Hd. destruct Hd as (H1 & H2 & H3).
      split; [|split].
      * constructor; [|exact H1]. intros Hi. apply Hn. apply in_or_app. auto.
      * exact H2.
      * intros x [<-|Hx] Hx2.
        -- apply Hn. apply in_or_app. auto.
        -- eapply H3; eassumption.
    + intros (H1 & H2 & H3). inversion H1 as [|? ? Hn Hd]; subst.
      constructor.
      * intros Hi. apply in_app_or in Hi. destruct Hi as [Hi|Hi]; [contradiction|].
        apply (H3 a); [left; reflexivity|exact Hi].
      * apply IH. split; [exact Hd|]. split; [exact H2|].
        intros x Hx. apply H3. right. exact Hx.
Qed.

Lemma snoc_cases {A} (l : list A) : l = [] \/ exists l' x, l = l' ++ [x].
Proof.
  destruct l as [|a l] using rev_ind; [left; reflexivity|].
  right. eauto.
Qed.

Lemma free_list_append_spec T s fl bp Q :
  fl_rep s fl -> ~ In bp fl -> spaced (bp :: fl) -> node_ok s bp ->
  (forall s', fl_rep s' (fl ++ [bp]) ->
              only_links (bp :: fl) (mem s) (mem s') ->
              same_region s s' -> Q tt s') ->
  wp T (free_list_append bp) s Q.
Proof.
  intros [Hl Hh Ht Hnd Hsp Hv] Hbp Hsp' (Hb1 & Hb2 & Hb3) HQ.
  unfold free_list_append. wp_prim. wp_prim. wp_prim. wp_prim.
  destruct (snoc_cases fl) as [->|(l & t & ->)].
  - cbn [hd last] in Hh, Ht. rewrite Hh, Ht. cbn [Z.eqb negb orb].
    wp_run. apply HQ.
    + cbn [app]. constructor; proj_simpl.
      * cbn [links hd]. rdwr. mod_small. auto.
      * reflexivity.
      * reflexivity.
      * constructor; [exact Hbp|constructor].
      * exact Hsp'.
      * intros y [<-|[]]. auto.
    + proj_simpl. intros z Hz. specialize (Hz bp (or_introl eq_refl)).
      rewrite !wr_other by lia. reflexivity.
    + repeat split.
  - rewrite last_last in Ht.
    assert (Hti : In t (l ++ [t])) by (apply in_or_app; right; left; reflexivity).
    destruct (Hv t Hti) as (Ht1 & Ht2 & Ht3).
    replace (free_tailp s =? 0) with false by (symmetry; apply Z.eqb_neq; lia).
    rewrite orb_true_r. wp_run. rewrite !Ht. clear Ht.
    assert (Hbt : bp + 8 <= t \/ t + 8 <= bp).
    { apply (spaced_apart _ _ _ Hsp'); [left; reflexivity|right; exact Hti|].
      apply (not_in_neq _ _ _ Hbp Hti). }
    apply links_app in Hl. cbn [hd links] in Hl.
    destruct Hl as (Hl1 & Hl2 & Hl3 & _).
    apply nodup_app_iff in Hnd. destruct Hnd as (Hn1 & _ & Hn3).
    apply HQ.
    + constructor; proj_simpl.
      * rewrite !links_app. cbn [hd links]. rewrite !last_last.
        rdwr. mod_small. repeat split.
        -- eapply links_frame; [exact Hl1|]. intros y Hy z Hz.
           assert (Hyi : In y (l ++ [t])) by (apply in_or_app; left; exact Hy).
           assert (Hy1 : bp + 8 <= y \/ y + 8 <= bp).
           { apply (spaced_apart _ _ _ Hsp'); [left; reflexivity|right; exact Hyi|].
             apply (not_in_neq _ _ _ Hbp Hyi). }
           assert (Hy2 : t + 8 <= y \/ y + 8 <= t).
           { apply (spaced_apart _ _ _ Hsp); [exact Hti|exact Hyi|].
             intros E. subst y. apply (Hn3 t Hy). left. reflexivity. }
           rewrite !wr_other by lia. reflexivity.
        -- rewrite <- Hl2. rdwr. reflexivity.
      * rewrite Hh. destruct l; reflexivity.
      * rewrite last_last. reflexivity.
      * apply nodup_app_iff. split; [|split].
        -- apply nodup_app_iff. split; [exact Hn1|]. split; [constructor; [intros []|constructor]|exact Hn3].
        -- constructor; [intros []|constructor].
        -- intros y Hy [<-|[]]. contradiction.
      * eapply spaced_sub; [exact Hsp'|]. intros y Hy.
        apply in_app_or in Hy. destruct Hy as [Hy|[<-|[]]]; [right; exact Hy|left; reflexivity].
      * intros y Hy. apply in_app_or in Hy.
        destruct Hy as [Hy|[<-|[]]]; [apply Hv; exact Hy|auto].
    + proj_simpl. intros z Hz.
      pose proof (Hz bp (or_introl eq_refl)).
      pose proof (Hz t (or_intror Hti)).
      rewrite !wr_other by lia. reflexivity.
    + repeat split.
Qed.

Ltac in_list :=
  solve [ repeat first
    [ assumption | left; reflexivity | apply in_or_app; left; in_list
    | apply in_or_app; right; in_list | right ] ].

Lemma last_app_ne {A} (l1 l2 : list A) d :
  l2 <> [] -> last (l1 ++ l2) d = last l2 d.
Proof.
  intros H. induction l1 as [|x l1 IH]; [reflexivity|].
  cbn [app]. rewrite last_cons_ne; [exact IH|].
  destruct l1; [exact H|discriminate].
Qed.

Lemma free_list_remove_spec T s l1 bp l2 Q :
  fl_rep s (l1 ++ bp :: l2) ->
  (forall s', fl_rep s' (l1 ++ l2) ->
              only_links (l1 ++ bp :: l2) (mem s) (mem s') ->
              same_region s s' -> Q tt s') ->
  wp T (free_list_remove bp) s Q.
Proof.
  intros [Hl Hh Ht Hnd Hsp Hv] HQ.
  assert (Hap := fun x y => spaced_apart _ x y Hsp).
  apply links_app in Hl. cbn [hd links] in Hl.
  destruct Hl as (Hl1 & Hp & Hn & Hl2).
  assert (Hnd' : NoDup (l1 ++ l2)) by (eapply NoDup_remove_1; exact Hnd).
  assert (Hsp' : spaced (l1 ++ l2)).
  { eapply spaced_sub; [exact Hsp|]. intros y Hy.
    apply in_app_or in Hy. apply in_or_app. destruct Hy; [left|right; right]; assumption. }
  assert (Hv' : forall y, In y (l1 ++ l2) ->
            0 < y < two31 /\ mem_start_brk s <= y /\ y + 12 <= mem_brk s).
  { intros y Hy. apply Hv.
    apply in_app_or in Hy. apply in_or_app. destruct Hy; [left|right; right]; assumption. }
  apply nodup_app_iff in Hnd. destruct Hnd as (Hn1 & Hn2 & Hn3).
  inversion Hn2 as [|? ? Hn4 Hn5]; subst.
  destruct (Hv bp ltac:(in_list)) as (Hb1 & Hb2 & Hb3).
  assert (Hbl1 : forall y, In y l1 -> bp + 8 <= y \/ y + 8 <= bp).
  { intros y Hy. apply Hap; [in_list|in_list|]. intros E. subst y.
    apply (Hn3 bp Hy). left. reflexivity. }
  assert (Hbl2 : forall y, In y l2 -> bp + 8 <= y \/ y + 8 <= bp).
  { intros y Hy. apply Hap; [in_list|in_list|]. intros E. subst y. contradiction. }
  unfold free_list_remove. wp_prim. wp_prim. wp_prim. wp_prim. wp_prim. wp_prim.
  proj_simpl. rewrite Hp, Hn.
  destruct (snoc_cases l1) as [->|(l1' & p & ->)];
    [change (@last Z [] 0) with 0 in *|rewrite last_last in *;
      destruct (Hv p ltac:(in_list)) as (Hp1 & Hp2 & Hp3);
      pose proof (Hbl1 p ltac:(in_list)) as Hbp;
      apply links_app in Hl1; cbn [hd links] in Hl1;
      destruct Hl1 as (Hl1 & Hpp & Hpn & _);
      replace (p =? 0) with false by (symmetry; apply Z.eqb_neq; lia)];
  (destruct l2 as [|n l2'];
    [|destruct (Hv n ltac:(in_list)) as (Hn1' & Hn2' & Hn3');
      pose proof (Hbl2 n ltac:(in_list)) as Hbn;
      cbn [hd links] in Hl2, Hn |- *; destruct Hl2 as (Hnp & Hnn & Hl2);
      replace (n =? 0) with false by (symmetry; apply Z.eqb_neq; lia)]);
  cbn [hd app Z.eqb negb andb] in *.
  - (* sole element *)
    wp_run. apply HQ.
    + constructor; proj_simpl; auto.
    + proj_simpl. intros z Hz. specialize (Hz bp ltac:(in_list)).
      rewrite !wr_other by lia. reflexivity.
    + repeat split.
  - (* head *)
    wp_run. rewrite ?Hn. apply HQ.
    + constructor; proj_simpl; auto.
      cbn [links]. rdwr. mod_small. repeat split.
      * rewrite <- Hnn. rdwr. reflexivity.
      * eapply links_frame; [exact Hl2|]. intros y Hy z Hz.
        pose proof (Hbl2 y ltac:(in_list)).
        assert (n + 8 <= y \/ y + 8 <= n).
        { apply Hap; [in_list|in_list|]. apply (nodup_head_neq _ _ _ Hn5 Hy). }
        rewrite !wr_other by lia. reflexivity.
    + proj_simpl. intros z Hz.
      pose proof (Hz bp ltac:(in_list)). pose proof (Hz n ltac:(in_list)).
      rewrite !wr_other by lia. reflexivity.
    + repeat split.
  - (* tail *)
    wp_run. rewrite ?Hp. apply HQ.
    + rewrite app_nil_r in *. constructor; proj_simpl; auto.
      * rewrite links_app. cbn [hd links]. rdwr. mod_small. repeat split.
        -- eapply links_frame; [exact Hl1|]. intros y Hy z Hz.
           pose proof (Hbl1 y ltac:(in_list)).
           assert (p + 8 <= y \/ y + 8 <= p).
           { apply Hap; [in_list|in_list|].
             apply nodup_app_iff in Hn1. destruct Hn1 as (_ & _ & Hd).
             intros E. apply (Hd y Hy). left. exact E. }
           rewrite !wr_other by lia. reflexivity.
        -- rewrite <- Hpp. rdwr. reflexivity.
      * rewrite Hh. destruct l1'; reflexivity.
      * rewrite last_last. reflexivity.
    + proj_simpl. intros z Hz.
      pose proof (Hz bp ltac:(in_list)). pose proof (Hz p ltac:(in_list)).
      rewrite !wr_other by lia. reflexivity.
    + repeat split.
  - (* interior *)
    assert (Hpn' : p + 8 <= n \/ n + 8 <= p).
    { apply Hap; [in_list|in_list|]. intros E.
      apply (Hn3 n); [rewrite <- E; in_list|in_list]. }
    wp_run. rewrite ?Hp, ?Hn. apply HQ.
    + constructor; proj_simpl; auto.
      * rewrite !links_app. cbn [hd links]. rewrite last_last.
        rdwr. mod_small. repeat split.
        -- eapply links_frame; [exact Hl1|]. intros y Hy z Hz.
           pose proof (Hbl1 y ltac:(in_list)).
           assert (p + 8 <= y \/ y + 8 <= p).
           { apply Hap; [in_list|in_list|].
             apply nodup_app_iff in Hn1. destruct Hn1 as (_ & _ & Hd).
             intros E. apply (Hd y Hy). left. exact E. }
           assert (n + 8 <= y \/ y + 8 <= n).
           { apply Hap; [in_list|in_list|]. intros E; subst y.
             first [apply (Hn3 n); in_list | apply (Hn3 p); in_list]. }
           rewrite !wr_other by lia. reflexivity.
        -- rewrite <- Hpp. rdwr. reflexivity.
        -- rewrite <- Hnn. rdwr. reflexivity.
        -- eapply links_frame; [exact Hl2|]. intros y Hy z Hz.
           pose proof (Hbl2 y ltac:(in_list)).
           assert (p + 8 <= y \/ y + 8 <= p).
           { apply Hap; [in_list|in_list|]. intros E; subst y.
             first [apply (Hn3 n); in_list | apply (Hn3 p); in_list]. }
           assert (n + 8 <= y \/ y + 8 <= n).
           { apply Hap; [in_list|in_list|]. apply (nodup_head_neq _ _ _ Hn5 Hy). }
           rewrite !wr_other by lia. reflexivity.
      * rewrite Hh. destruct l1'; reflexivity.
      * rewrite Ht. rewrite !last_app_ne by discriminate.
        apply last_cons_ne. discriminate.
    + proj_simpl. intros z Hz.
      pose proof (Hz n ltac:(in_list)). pose proof (Hz p ltac:(in_list)).
      rewrite !wr_other by lia. reflexivity.
    + repeat split.
Qed.

(** ** Reading and writing header words *)

Lemma wp_get_size T s a sz al Q :
  mem_start_brk s <= a -> a + 4 <= mem_brk s ->
  rd (mem s) a = sz + al -> sz mod 8 = 0 -> al = 0 \/ al = 1 ->
  0 <= sz -> sz + al < two31 ->
  Q sz s -> wp T (get_size a) s Q.
Proof.
  intros H1 H2 Hw Hsz Hal H0 Hlt HQ. unfold get_size.
  apply wp_bind. apply wp_load_int; [assumption..|]. apply wp_ret.
  rewrite Hw, to_int_small by lia. rewrite word_size by assumption. exact HQ.
Qed.

Lemma wp_get_allocated T s a sz al Q :
  mem_start_brk s <= a -> a + 4 <= mem_brk s ->
  rd (mem s) a = sz + al -> sz mod 8 = 0 -> al = 0 \/ al = 1 ->
  0 <= sz -> sz + al < two31 ->
  Q al s -> wp T (get_allocated a) s Q.
Proof.
  intros H1 H2 Hw Hsz Hal H0 Hlt HQ. unfold get_allocated.
  apply wp_bind. apply wp_load_int; [assumption..|]. apply wp_ret.
  rewrite Hw, to_int_small by lia. rewrite word_flag by assumption. exact HQ.
Qed.

Lemma wp_set_header T s a sz al Q :
  mem_start_brk s <= a -> a + 4 <= mem_brk s ->
  sz mod 8 = 0 -> al = 0 \/ al = 1 ->
  Q tt (with_mem s (wr (mem s) a (sz + al))) ->
  wp T (set_header a sz al) s Q.
Proof.
  intros H1 H2 Hsz Hal HQ. unfold set_header.
  rewrite lor_flag by assumption. apply wp_store; assumption.
Qed.

Lemma wp_set_footer T s a cur cal sz al Q :
  mem_start_brk s <= a -> a + 4 <= mem_brk s ->
  rd (mem s) a = cur + cal -> cur mod 8 = 0 -> cal = 0 \/ cal = 1 ->
  0 <= cur -> cur + cal < two31 ->
  mem_start_brk s <= a + cur - 4 -> a + cur <= mem_brk s ->
  sz mod 8 = 0 -> al = 0 \/ al = 1 ->
  Q tt (with_mem s (wr (mem s) (a + cur - 4) (sz + al))) ->
  wp T (set_footer a sz al) s Q.
Proof.
  intros H1 H2 Hw Hc Hcal H0 Hlt H3 H4 Hsz Hal HQ. unfold set_footer.
  apply wp_bind. eapply wp_get_size; try eassumption.
  apply wp_set_header; try assumption; lia.
Qed.

Lemma wp_get_next T s a sz al Q :
  mem_start_brk s <= a -> a + 4 <= mem_brk s ->
  rd (mem s) a = sz + al -> sz mod 8 = 0 -> al = 0 \/ al = 1 ->
  0 <= sz -> sz + al < two31 ->
  Q (a + sz) s -> wp T (get_next a) s Q.
Proof.
  intros H1 H2 Hw Hsz Hal H0 Hlt HQ. unfold get_next.
  apply wp_bind. eapply wp_get_size; eassumption.
Qed.

Lemma wp_get_prev T s a sz al Q :
  mem_start_brk s <= a - 4 -> a <= mem_brk s ->
  rd (mem s) (a - 4) = sz + al -> sz mod 8 = 0 -> al = 0 \/ al = 1 ->
  0 <= sz -> sz + al < two31 ->
  Q (a - sz) s -> wp T (get_prev a) s Q.
Proof.
  intros H1 H2 Hw Hsz Hal H0 Hlt HQ. unfold get_prev.
  apply wp_bind. eapply wp_get_size; try eassumption; lia.
Qed.

(** ** Free addresses *)

Lemma in_free_addrs bl x :
  In x (free_addrs bl) <->
  exists b, In b bl /\ b_addr b = x /\ b_status b = Free.
Proof.
  unfold free_addrs. rewrite in_map_iff. split.
  - intros (b & E & Hb). apply filter_In in Hb. destruct Hb as [Hb Fb].
    exists b. repeat split; auto. unfold is_free in Fb.
    destruct (b_status b); congruence.
  - intros (b & Hb & E & Fb). exists b. split; [exact E|].
    apply filter_In. split; [exact Hb|]. unfold is_free. rewrite Fb. reflexivity.
Qed.

Lemma free_addrs_app l1 l2 :
  free_addrs (l1 ++ l2) = free_addrs l1 ++ free_addrs l2.
Proof. unfold free_addrs. rewrite filter_app, map_app. reflexivity. Qed.

Lemma free_addrs_cons b l :
  free_addrs (b :: l)
  = (if is_free b then [b_addr b] else []) ++ free_addrs l.
Proof. unfold free_addrs. cbn [filter]. destruct (is_free b); reflexivity. Qed.

Lemma free_addrs_bounds a l e x :
  chain a l e -> In x (free_addrs l) -> a <= x /\ x + 16 <= e.
Proof.
  intros Hc Hx. apply in_free_addrs in Hx. destruct Hx as (b & Hb & <- & _).
  pose proof (chain_in_bounds _ _ _ _ Hc Hb).
  pose proof (chain_in_size _ _ _ _ Hc Hb). unfold b_end in *. lia.
Qed.

(** ** Facts read off a heap representation *)

Section Rep.
Variables (s : state) (bl : list block) (fl : list Z).
Hypothesis R : heap_rep s bl fl.

Lemma rep_block b :
  In b bl ->
  mem_start_brk s + 12 <= b_addr b /\ b_end b <= mem_brk s - 4 /\
  16 <= b_size b /\ b_size b mod 8 = 0 /\ b_end b < two31.
Proof.
  intros Hb.
  pose proof (chain_in_bounds _ _ _ _ (hr_chain _ _ _ R) Hb).
  pose proof (chain_in_size _ _ _ _ (hr_chain _ _ _ R) Hb).
  pose proof (hr_max _ _ _ R).
  unfold b_end in *. lia.
Qed.

Lemma rep_node y :
  In y fl -> exists b, In b bl /\ b_addr b = y /\ b_status b = Free.
Proof.
  intros Hy. apply (hr_free _ _ _ R) in Hy. apply in_free_addrs in Hy.
  exact Hy.
Qed.

Lemma rep_node_ok y : In y fl -> node_ok s y.
Proof.
  intros Hy. destruct (rep_node y Hy) as (b & Hb & <- & _).
  pose proof (rep_block _ Hb) as H. pose proof (hr_lo _ _ _ R).
  unfold b_end, node_ok in *. lia.
Qed.

(** A node of the free list is either the block [b] itself, or lies
    entirely before it or after it. *)
Lemma node_vs_block b y :
  In b bl -> In y fl ->
  (y = b_addr b /\ b_status b = Free) \/ y + 16 <= b_addr b \/ b_end b <= y.
Proof.
  intros Hb Hy. destruct (rep_node y Hy) as (c & Hc & <- & Fc).
  pose proof (rep_block _ Hc) as H1. pose proof (rep_block _ Hb) as H2.
  destruct (chain_disjoint _ _ _ _ _ (hr_chain _ _ _ R) Hc Hb) as [E|E].
  - left. subst c. auto.
  - right. unfold b_end in *. lia.
Qed.

Lemma rep_spaced : spaced fl.
Proof.
  intros x y Hx Hy. destruct (rep_node x Hx) as (b & Hb & <- & Fb).
  destruct (node_vs_block b y Hb Hy) as [[E _]|E]; [left; congruence|].
  pose proof (rep_block _ Hb). unfold b_end in *. lia.
Qed.

(** Header and footer words never overlap a link field. *)
Lemma tag_not_link b y x :
  In b bl -> In y fl ->
  b_addr b <= x < b_addr b + 4 \/ b_end b - 4 <= x < b_end b ->
  x < y + 4 \/ y + 12 <= x.
Proof.
  intros Hb Hy Hx. pose proof (rep_block _ Hb).
  destruct (node_vs_block b y Hb Hy) as [[E _]|E]; unfold b_end in *; lia.
Qed.

Lemma allocated_not_link b y x :
  In b bl -> b_status b = Allocated -> In y fl ->
  b_addr b <= x < b_end b -> x < y + 4 \/ y + 12 <= x.
Proof.
  intros Hb Sb Hy Hx. pose proof (rep_block _ Hb).
  destruct (node_vs_block b y Hb Hy) as [[_ E]|E];
    [congruence|unfold b_end in *; lia].
Qed.

Lemma sentinel_not_link y x :
  In y fl -> x < mem_start_brk s + 12 \/ mem_brk s - 4 <= x ->
  x < y + 4 \/ y + 12 <= x.
Proof.
  intros Hy Hx. destruct (rep_node y Hy) as (b & Hb & <- & _).
  pose proof (rep_block _ Hb). unfold b_end in *. lia.
Qed.

Lemma rep_fl_rep : fl_rep s fl.
Proof.
  destruct R. constructor; auto.
  - apply rep_spaced.
  - intros y Hy. apply rep_node_ok. exact Hy.
Qed.

Lemma rep_aligned b : In b bl -> b_addr b mod 8 = 4.
Proof.
  intros Hb. pose proof (hr_aligned _ _ _ R) as Hal.
  assert (H : (mem_start_brk s + 12) mod 8 = 4)
    by (Z.div_mod_to_equations; lia).
  destruct (chain_aligned _ _ _ H (hr_chain _ _ _ R)) as [Ha _].
  rewrite Forall_forall in Ha. apply Ha. exact Hb.
Qed.

Lemma rep_tagged b : In b bl -> tagged (mem s) b.
Proof.
  intros Hb. pose proof (hr_tags _ _ _ R) as H.
  rewrite Forall_forall in H. apply H. exact Hb.
Qed.
End Rep.

(** ** Frames *)

Lemma tagged_ext m m' b :
  tagged m b ->
  (forall x, b_addr b <= x < b_addr b + 4 \/ b_end b - 4 <= x < b_end b ->
             m' x = m x) ->
  tagged m' b.
Proof.
  intros H Hm.
  assert (E1 : rd m' (b_addr b) = rd m (b_addr b))
    by (apply rd_ext; intros x Hx; apply Hm; lia).
  assert (E2 : rd m' (b_end b - 4) = rd m (b_end b - 4))
    by (apply rd_ext; intros x Hx; apply Hm; lia).
  unfold tagged in *. rewrite E1, E2. exact H.
Qed.

Lemma tags_frame m m' l :
  Forall (tagged m) l ->
  (forall b, In b l ->
   forall x, b_addr b <= x < b_addr b + 4 \/ b_end b - 4 <= x < b_end b ->
             m' x = m x) ->
  Forall (tagged m') l.
Proof.
  rewrite !Forall_forall. intros H Hm b Hb.
  apply tagged_ext with m; [apply H; exact Hb|apply Hm; exact Hb].
Qed.

Lemma clean_app l1 l2 : clean (l1 ++ l2) <-> clean l1 /\ clean l2.
Proof. apply Forall_app. Qed.

(** Writes that stay inside a block in limbo and leave the size in its
    header do not disturb the representation. *)
Lemma rep_write_limbo s bl1 B bl2 fl m' :
  heap_rep s (bl1 ++ B :: bl2) fl -> b_status B = Limbo ->
  (forall x, x < b_addr B \/ b_end B <= x -> m' x = mem s x) ->
  rd m' (b_addr B) = b_size B \/ rd m' (b_addr B) = b_size B + 1 ->
  heap_rep (with_mem s m') (bl1 ++ B :: bl2) fl.
Proof.
  intros R SB Hm HB.
  assert (HBin : In B (bl1 ++ B :: bl2)) by (apply in_or_app; right; left; reflexivity).
  pose proof (rep_block _ _ _ R B HBin) as HBb.
  pose proof R as R'.
  destruct R' as [R1 R2 R3 R4 R5 R6 R7 R8 R9 R10 R11 R12 R13].
  constructor; proj_simpl; auto.
  - destruct R5 as [P1 P2]. split.
    + rewrite <- P1. apply rd_ext. intros x Hx. apply Hm. lia.
    + rewrite <- P2. apply rd_ext. intros x Hx. apply Hm. lia.
  - rewrite <- R7. apply rd_ext. intros x Hx. apply Hm. unfold b_end in *. lia.
  - rewrite Forall_forall in *. intros b Hb.
    destruct (chain_disjoint _ _ _ _ _ R6 Hb HBin) as [E|E].
    + subst b. unfold tagged. rewrite SB. exact HB.
    + apply tagged_ext with (mem s); [apply R8; exact Hb|].
      intros x Hx. apply Hm.
      pose proof (chain_in_size _ _ _ _ R6 Hb). unfold b_end in *. lia.
  - apply links_frame with (mem s); [exact R9|].
    intros y Hy x Hx. apply Hm.
    destruct (node_vs_block _ _ _ R B y HBin Hy) as [[_ E]|E];
      [congruence|unfold b_end in *; lia].
Qed.

(** ** The heap neighbours of a block *)

(** The block before [B] (or the prologue), as [free_coalesce] sees it
    through the footer word at [b_addr B - 4]. *)
Lemma prev_view s bl1 B bl2 fl :
  heap_rep s (bl1 ++ B :: bl2) fl -> clean bl1 ->
  exists psz pal,
    8 <= psz /\ psz mod 8 = 0 /\ (pal = 0 \/ pal = 1) /\
    mem_start_brk s + 4 <= b_addr B - psz /\
    rd (mem s) (b_addr B - 4) = psz + pal /\
    rd (mem s) (b_addr B - psz) = psz + pal /\
    (pal = 0 ->
     exists bl1', bl1 = bl1' ++ [mkBlock (b_addr B - psz) psz Free]).
Proof.
  intros R C1. pose proof (hr_chain _ _ _ R) as Hc.
  apply chain_split in Hc. destruct Hc as (Hc1 & _).
  destruct (snoc_cases bl1) as [->|(bl1' & pb & ->)].
  - cbn [chain] in Hc1. destruct (hr_prologue _ _ _ R) as [P1 P2].
    exists 8, 1. rewrite <- Hc1.
    replace (mem_start_brk s + 12 - 4) with (mem_start_brk s + 8) by lia.
    replace (mem_start_brk s + 12 - 8) with (mem_start_brk s + 4) by lia.
    repeat split; auto; try lia; intros E; discriminate E.
  - apply chain_app in Hc1. destruct Hc1 as (mid & Hc0 & Hc1).
    cbn [chain] in Hc1. destruct Hc1 as (E1 & Hs1 & Hs2 & E2).
    assert (Hin : In pb ((bl1' ++ [pb]) ++ B :: bl2)) by in_list.
    pose proof (rep_block _ _ _ R pb Hin) as Hpb.
    pose proof (rep_tagged _ _ _ R pb Hin) as Ht.
    apply clean_app in C1. destruct C1 as [_ C1].
    inversion C1 as [|? ? Hnl _]; subst.
    destruct pb as [pa psz pst]. unfold tagged, b_end in *.
    cbn [b_addr b_size b_status] in *.
    assert (Epa : b_addr B - psz = pa) by lia.
    assert (Ef : b_addr B - 4 = pa + psz - 4) by lia.
    destruct pst; [exists psz, 1|exists psz, 0|congruence];
      rewrite Epa, Ef; repeat split; try tauto; try lia.
    intros _. exists bl1'. reflexivity.
Qed.

(** The block after [B] (or the epilogue), as seen through the header word
    at [b_end B]. *)
Lemma next_view s bl1 B bl2 fl :
  heap_rep s (bl1 ++ B :: bl2) fl -> clean bl2 ->
  exists nsz nal,
    0 <= nsz /\ nsz mod 8 = 0 /\ (nal = 0 \/ nal = 1) /\
    b_end B + 4 <= mem_brk s /\ nsz + nal < two31 /\
    rd (mem s) (b_end B) = nsz + nal /\
    (nal = 0 -> exists bl2', bl2 = mkBlock (b_end B) nsz Free :: bl2') /\
    (nal = 1 -> next_allocated bl2).
Proof.
  intros R C2. pose proof (hr_chain _ _ _ R) as Hc.
  apply chain_split in Hc. destruct Hc as (_ & _ & _ & Hc2).
  pose proof (hr_max _ _ _ R) as Hmax. pose proof (hr_lo _ _ _ R) as Hlo.
  destruct bl2 as [|nb bl2'].
  - cbn [chain] in Hc2. exists 0, 1. rewrite Hc2.
    pose proof (hr_epilogue _ _ _ R).
    repeat split; auto; try lia; try (unfold two31; lia); intros E; discriminate E.
  - cbn [chain] in Hc2. destruct Hc2 as (E1 & Hs1 & Hs2 & Hc2).
    assert (Hin : In nb (bl1 ++ B :: nb :: bl2')) by in_list.
    pose proof (rep_block _ _ _ R nb Hin) as Hnb.
    pose proof (rep_tagged _ _ _ R nb Hin) as Ht.
    inversion C2 as [|? ? Hnl _]; subst.
    destruct nb as [na nsz nst]. unfold tagged, b_end in *.
    cbn [b_addr b_size b_status] in *. subst na.
    destruct nst; [exists nsz, 1|exists nsz, 0|congruence];
      repeat split; try tauto; try lia; cbn; auto; try (intros E; discriminate E).
    intros _. exists bl2'. reflexivity.
Qed.

(** ** Three ways to move from one representation to the next *)

Lemma in_mid {A} (x : A) l1 mid l2 :
  In x (l1 ++ mid ++ l2) <-> In x l1 \/ In x mid \/ In x l2.
Proof. rewrite !in_app_iff. tauto. Qed.

Lemma chain_fun a l e e' : chain a l e -> chain a l e' -> e = e'.
Proof.
  revert a. induction l as [|b l IH]; cbn [chain]; intros a H1 H2; [congruence|].
  destruct H1 as (_ & _ & _ & H1), H2 as (_ & _ & _ & H2). eauto.
Qed.

Lemma chain_mid a l1 old l2 e a' e' :
  chain a (l1 ++ old ++ l2) e -> old <> [] -> chain a' old e' ->
  chain a l1 a' /\ chain e' l2 e.
Proof.
  intros H Hne Ho. apply chain_app in H. destruct H as (x & C1 & C2).
  apply chain_app in C2. destruct C2 as (y & C2 & C3).
  destruct old as [|o old]; [congruence|].
  assert (x = a').
  { cbn [chain] in C2, Ho. destruct C2 as (E1 & _), Ho as (E2 & _). congruence. }
  subst x. rewrite (chain_fun _ _ _ _ Ho C2). auto.
Qed.

(** Re-tiling: the blocks [old] are replaced by blocks [mid] covering the
    same addresses and containing the same free blocks; the memory changes
    only inside these addresses and outside the link fields of those free
    blocks. *)
Lemma rep_retile s bl1 old mid bl2 fl a e m' :
  heap_rep s (bl1 ++ old ++ bl2) fl -> old <> [] ->
  chain a old e -> chain a mid e ->
  free_addrs mid = free_addrs old ->
  Forall (tagged m') mid ->
  (forall x, x < a \/ e <= x -> m' x = mem s x) ->
  (forall y, In y (free_addrs old) ->
   forall x, y + 4 <= x < y + 12 -> m' x = mem s x) ->
  heap_rep (with_mem s m') (bl1 ++ mid ++ bl2) fl.
Proof.
  intros R Hne Ho Hmid Hfa Ht Hout Hlk.
  pose proof R as R'.
  destruct R' as [R1 R2 R3 R4 R5 R6 R7 R8 R9 R10 R11 R12 R13].
  destruct (chain_mid _ _ _ _ _ _ _ R6 Hne Ho) as [C1 C3].
  pose proof (chain_le _ _ _ C1) as L1. pose proof (chain_le _ _ _ C3) as L3.
  pose proof (chain_le _ _ _ Ho) as L2.
  constructor; proj_simpl; auto.
  - destruct R5 as [P1 P2]. split.
    + rewrite <- P1. apply rd_ext. intros x Hx. apply Hout. lia.
    + rewrite <- P2. apply rd_ext. intros x Hx. apply Hout. lia.
  - apply chain_app. exists a. split; [exact C1|].
    apply chain_app. exists e. auto.
  - rewrite <- R7. apply rd_ext. intros x Hx. apply Hout. lia.
  - rewrite !Forall_app in *. destruct R8 as (T1 & _ & T3).
    split; [|split; [exact Ht|]].
    + apply tags_frame with (mem s); [exact T1|]. intros b Hb x Hx.
      apply Hout. pose proof (chain_in_bounds _ _ _ _ C1 Hb).
      pose proof (chain_in_size _ _ _ _ C1 Hb). unfold b_end in *. lia.
    + apply tags_frame with (mem s); [exact T3|]. intros b Hb x Hx.
      apply Hout. pose proof (chain_in_bounds _ _ _ _ C3 Hb).
      pose proof (chain_in_size _ _ _ _ C3 Hb). unfold b_end in *. lia.
  - apply links_frame with (mem s); [exact R9|]. intros y Hy x Hx.
    apply R13 in Hy. rewrite !free_addrs_app in Hy.
    apply in_mid in Hy. destruct Hy as [Hy|[Hy|Hy]].
    + apply Hout. pose proof (free_addrs_bounds _ _ _ _ C1 Hy). lia.
    + apply (Hlk y Hy). exact Hx.
    + apply Hout. pose proof (free_addrs_bounds _ _ _ _ C3 Hy). lia.
  - intros x. rewrite R13, !free_addrs_app, Hfa. reflexivity.
Qed.

Lemma tag_not_field a bl e b c x :
  chain a bl e -> In b bl -> In c bl ->
  b_addr b <= x < b_addr b + 4 \/ b_end b - 4 <= x < b_end b ->
  x < b_addr c + 4 \/ b_addr c + 12 <= x.
Proof.
  intros Hc Hb Hcc Hx.
  pose proof (chain_in_size _ _ _ _ Hc Hb).
  pose proof (chain_in_size _ _ _ _ Hc Hcc).
  destruct (chain_disjoint _ _ _ _ _ Hc Hb Hcc) as [E|E];
    [subst c|]; unfold b_end in *; lia.
Qed.

Lemma same_status_chain a l1 B B' l2 e :
  chain a (l1 ++ B :: l2) e -> b_addr B' = b_addr B -> b_size B' = b_size B ->
  chain a (l1 ++ B' :: l2) e.
Proof.
  intros H Ea Es. apply chain_split in H. destruct H as (H1 & H2 & H3 & H4).
  apply chain_join; rewrite ?Ea, ?Es; auto.
  unfold b_end in *. rewrite Ea, Es. exact H4.
Qed.

(** A block in limbo whose header and footer say "free" joins the free
    list. *)
Lemma rep_insert s s' bl1 bp sz bl2 fl fl' :
  heap_rep s (bl1 ++ mkBlock bp sz Limbo :: bl2) fl ->
  rd (mem s) bp = sz -> rd (mem s) (bp + sz - 4) = sz ->
  fl_rep s' fl' -> same_region s s' ->
  only_links (bp :: fl) (mem s) (mem s') ->
  (forall x, In x fl' <-> x = bp \/ In x fl) ->
  heap_rep s' (bl1 ++ mkBlock bp sz Free :: bl2) fl'.
Proof.
  intros R Hh Hf F (S1 & S2 & S3 & S4) Hol Hfl.
  pose proof R as R'.
  destruct R' as [R1 R2 R3 R4 R5 R6 R7 R8 R9 R10 R11 R12 R13].
  set (B := mkBlock bp sz Limbo) in *.
  assert (HB : In B (bl1 ++ B :: bl2)) by in_list.
  pose proof (rep_block _ _ _ R B HB) as HBb. unfold b_end in HBb.
  cbn [b_addr b_size B] in HBb.
  assert (Hsent : forall x, x < mem_start_brk s + 12 \/ mem_brk s - 4 <= x ->
                            mem s' x = mem s x).
  { intros x Hx. apply Hol. intros y [<-|Hy]; [lia|].
    apply (sentinel_not_link _ _ _ R); assumption. }
  assert (Htag : forall b, In b (bl1 ++ B :: bl2) ->
            forall x, b_addr b <= x < b_addr b + 4 \/ b_end b - 4 <= x < b_end b ->
            mem s' x = mem s x).
  { intros b Hb x Hx. apply Hol. intros y [<-|Hy].
    - apply (tag_not_field _ _ _ b B x R6 Hb HB Hx).
    - apply (tag_not_link _ _ _ R b y x Hb Hy Hx). }
  destruct F as [F1 F2 F3 F4 F5 F6].
  constructor; rewrite ?S1, ?S2, ?S3, ?S4; auto.
  - destruct R5 as [P1 P2]. split.
    + rewrite <- P1. apply rd_ext. intros x Hx. apply Hsent. lia.
    + rewrite <- P2. apply rd_ext. intros x Hx. apply Hsent. lia.
  - eapply same_status_chain; [exact R6|reflexivity|reflexivity].
  - rewrite <- R7. apply rd_ext. intros x Hx. apply Hsent. lia.
  - rewrite Forall_forall in *. intros b Hb.
    apply in_app_or in Hb. destruct Hb as [Hb|[<-|Hb]].
    + apply tagged_ext with (mem s); [apply R8; in_list|]. apply Htag. in_list.
    + unfold tagged, b_end. cbn [b_addr b_size b_status]. split.
      * rewrite <- Hh. apply rd_ext. intros x Hx. apply (Htag B HB).
        cbn [b_addr B]. lia.
      * replace (bp + sz - 4) with (bp + sz - 4) in * by lia.
        rewrite <- Hf at 2. apply rd_ext. intros x Hx. apply (Htag B HB).
        unfold b_end. cbn [b_addr b_size B]. lia.
    + apply tagged_ext with (mem s); [apply R8; in_list|]. apply Htag. in_list.
  - intros x. rewrite Hfl, R13, !free_addrs_app, !free_addrs_cons.
    cbn [is_free b_status B b_addr]. rewrite !in_app_iff. cbn [In].
    intuition (subst; auto).
Qed.

(** A free block taken off the free list is in limbo. *)
Lemma rep_remove s s' bl1 nb nsz bl2 l1 l2 :
  heap_rep s (bl1 ++ mkBlock nb nsz Free :: bl2) (l1 ++ nb :: l2) ->
  fl_rep s' (l1 ++ l2) -> same_region s s' ->
  only_links (l1 ++ nb :: l2) (mem s) (mem s') ->
  heap_rep s' (bl1 ++ mkBlock nb nsz Limbo :: bl2) (l1 ++ l2).
Proof.
  intros R F (S1 & S2 & S3 & S4) Hol.
  pose proof R as R'.
  destruct R' as [R1 R2 R3 R4 R5 R6 R7 R8 R9 R10 R11 R12 R13].
  set (N := mkBlock nb nsz Free) in *.
  assert (HN : In N (bl1 ++ N :: bl2)) by in_list.
  pose proof (rep_block _ _ _ R N HN) as HNb.
  assert (Hsent : forall x, x < mem_start_brk s + 12 \/ mem_brk s - 4 <= x ->
                            mem s' x = mem s x).
  { intros x Hx. apply Hol. intros y Hy.
    apply (sentinel_not_link _ _ _ R); assumption. }
  assert (Htag : forall b, In b (bl1 ++ N :: bl2) ->
            forall x, b_addr b <= x < b_addr b + 4 \/ b_end b - 4 <= x < b_end b ->
            mem s' x = mem s x).
  { intros b Hb x Hx. apply Hol. intros y Hy.
    apply (tag_not_link _ _ _ R b y x Hb Hy Hx). }
  destruct F as [F1 F2 F3 F4 F5 F6].
  constructor; rewrite ?S1, ?S2, ?S3, ?S4; auto.
  - destruct R5 as [P1 P2]. split.
    + rewrite <- P1. apply rd_ext. intros x Hx. apply Hsent. lia.
    + rewrite <- P2. apply rd_ext. intros x Hx. apply Hsent. lia.
  - eapply same_status_chain; [exact R6|reflexivity|reflexivity].
  - rewrite <- R7. apply rd_ext. intros x Hx. apply Hsent. lia.
  - rewrite Forall_forall in *. intros b Hb.
    apply in_app_or in Hb. destruct Hb as [Hb|[<-|Hb]].
    + apply tagged_ext with (mem s); [apply R8; in_list|]. apply Htag. in_list.
    + pose proof (R8 N HN) as [TN _]. unfold tagged. cbn [b_addr b_size b_status N] in *.
      left. rewrite <- TN. apply rd_ext. intros x Hx. apply (Htag N HN).
      cbn [b_addr N]. lia.
    + apply tagged_ext with (mem s); [apply R8; in_list|]. apply Htag. in_list.
  - intros x. specialize (R13 x).
    rewrite !free_addrs_app, !free_addrs_cons in *.
    cbn [is_free b_status N b_addr app] in *. rewrite !in_app_iff in *.
    cbn [In] in *.
    apply chain_split in R6. destruct R6 as (C1 & _ & _ & C2).
    assert (Hx1 : In x (free_addrs bl1) -> x <> nb).
    { intros Hx E. pose proof (free_addrs_bounds _ _ _ _ C1 Hx).
      cbn [b_addr N] in *. lia. }
    assert (Hx2 : In x (free_addrs bl2) -> x <> nb).
    { intros Hx E. pose proof (free_addrs_bounds _ _ _ _ C2 Hx).
      unfold b_end in *. cbn [b_addr b_size N] in *. lia. }
    apply nodup_app_iff in R12. destruct R12 as (_ & N2 & N3).
    assert (Hx3 : In x l1 -> x <> nb).
    { intros Hx E. subst x. apply (N3 nb Hx). left. reflexivity. }
    assert (Hx4 : In x l2 -> x <> nb).
    { intros Hx E. subst x. inversion N2. contradiction. }
    split.
    + intros [Hx|Hx]; [specialize (Hx3 Hx)|specialize (Hx4 Hx)];
        destruct R13 as [R13 _]; destruct R13 as [H|[H|H]]; auto; congruence.
    + intros [Hx|Hx]; [specialize (Hx1 Hx)|specialize (Hx2 Hx)];
        destruct R13 as [_ R13]; destruct R13 as [H|[H|H]]; auto; congruence.
Qed.
(** * Heaps without neighbouring free blocks *)

Lemma no_ff_cons a l :
  no_ff (a :: l) <-> ~ (a = Free /\ hd Allocated l = Free) /\ no_ff l.
Proof. reflexivity. Qed.

Lemma no_ff_app_r l1 l2 : no_ff (l1 ++ l2) -> no_ff l2.
Proof.
  induction l1 as [|a l1 IH]; cbn [app no_ff]; [auto|]. intros [_ H]. auto.
Qed.

Lemma no_ff_app_l l1 l2 : no_ff (l1 ++ l2) -> no_ff l1.
Proof.
  induction l1 as [|a l1 IH]; cbn [app no_ff]; [auto|]. intros [H1 H2].
  split; [|auto]. intros [Ea Eh]. apply H1. split; [exact Ea|].
  destruct l1; [discriminate Eh|exact Eh].
Qed.

Lemma no_ff_snoc l a :
  no_ff (l ++ [a]) <-> no_ff l /\ ~ (last l Allocated = Free /\ a = Free).
Proof.
  induction l as [|b l IH]; cbn [app no_ff hd].
  - cbn [last]. intuition congruence.
  - rewrite IH. destruct l as [|c l]; cbn [app hd last no_ff].
    + intuition congruence.
    + change (last (c :: l) Allocated) with (last (c :: l) Allocated).
      tauto.
Qed.

Lemma no_ff_app l1 a l2 :
  no_ff (l1 ++ a :: l2) <-> no_ff (l1 ++ [a]) /\ no_ff (a :: l2).
Proof.
  induction l1 as [|b l1 IH]; cbn [app no_ff hd].
  - intuition congruence.
  - rewrite IH. destruct l1; cbn [app hd no_ff]; tauto.
Qed.

(** Replacing a stretch of the heap by one block. *)
Lemma no_ff_mid l1 mid l2 c :
  no_ff (l1 ++ mid ++ l2) ->
  (c = Free -> last l1 Allocated <> Free /\ hd Allocated l2 <> Free) ->
  no_ff (l1 ++ c :: l2).
Proof.
  intros H Hc. pose proof (no_ff_app_l _ _ H) as H1.
  pose proof (no_ff_app_r _ _ (no_ff_app_r _ _ H)) as H2.
  rewrite no_ff_app, no_ff_snoc, no_ff_cons. intuition.
Qed.

(** Inserting blocks that are not free. *)
Lemma no_ff_nonfree l1 mid l2 a mid' :
  no_ff (l1 ++ mid ++ l2) -> Forall (fun x => x <> Free) (a :: mid') ->
  no_ff (l1 ++ (a :: mid') ++ l2).
Proof.
  intros H Hm. pose proof (no_ff_app_l _ _ H) as H1.
  pose proof (no_ff_app_r _ _ (no_ff_app_r _ _ H)) as H2.
  inversion Hm as [|? ? Ha Hm']; subst. cbn [app].
  rewrite no_ff_app, no_ff_snoc. split; [tauto|].
  clear H H1 l1 mid Hm. revert a Ha.
  induction mid' as [|b m IH]; intros a Ha; cbn [app no_ff].
  - tauto.
  - inversion Hm' as [|? ? Hb Hm'']; subst. split; [tauto|].
    apply IH; assumption.
Qed.

Lemma no_ff_b_sound l : no_ff_b l = true -> no_ff l.
Proof.
  induction l as [|a l IH]; cbn [no_ff_b no_ff]; [auto|].
  rewrite andb_true_iff, negb_true_iff. intros [H1 H2]. split; [|auto].
  intros [-> E]. rewrite E in H1. discriminate H1.
Qed.

Lemma coalesced_b_sound bl : coalesced_b bl = true -> coalesced bl.
Proof. apply no_ff_b_sound. Qed.

Lemma prev_allocated_nil : prev_allocated [].
Proof. reflexivity. Qed.

Lemma last_map_snoc (l : list block) b d :
  last (map b_status (l ++ [b])) d = b_status b.
Proof. rewrite map_app. cbn [map]. apply last_last. Qed.

Lemma hd_next_allocated bl2 :
  next_allocated bl2 -> hd Allocated (map b_status bl2) <> Free.
Proof.
  destruct bl2 as [|b r]; cbn [next_allocated map hd]; [discriminate|].
  intros ->. discriminate.
Qed.

Lemma last_prev_allocated bl1 :
  prev_allocated bl1 -> last (map b_status bl1) Allocated <> Free.
Proof. unfold prev_allocated. intros ->. discriminate. Qed.

(** A footer with the allocated bit set before a block: the block before
    it, if any, is allocated. *)
Lemma prev_view_alloc s bl1 B bl2 fl psz :
  heap_rep s (bl1 ++ B :: bl2) fl -> clean bl1 ->
  rd (mem s) (b_addr B - 4) = psz + 1 -> psz mod 8 = 0 ->
  prev_allocated bl1.
Proof.
  intros R C1 Hw Hp8. pose proof (hr_chain _ _ _ R) as Hc.
  apply chain_split in Hc. destruct Hc as (Hc1 & _).
  destruct (snoc_cases bl1) as [->|(bl1' & pb & ->)]; [reflexivity|].
  unfold prev_allocated. rewrite last_map_snoc.
  apply chain_app in Hc1. destruct Hc1 as (mid & Hc0 & Hc1).
  cbn [chain] in Hc1. destruct Hc1 as (E1 & Hs1 & Hs2 & E2).
  assert (Hin : In pb ((bl1' ++ [pb]) ++ B :: bl2)) by in_list.
  pose proof (rep_tagged _ _ _ R pb Hin) as Ht.
  apply clean_app in C1. destruct C1 as [_ C1].
  inversion C1 as [|? ? Hnl _]; subst.
  destruct pb as [pa sz pst]. unfold tagged, b_end in *.
  cbn [b_addr b_size b_status] in *.
  destruct pst; [reflexivity| |congruence].
  destruct Ht as [_ Ht].
  replace (pa + sz - 4) with (b_addr B - 4) in Ht by lia.
  rewrite Hw in Ht. exfalso. Z.div_mod_to_equations. lia.
Qed.

Lemma no_ff_after_free l1 l2 :
  no_ff (l1 ++ Free :: l2) -> hd Allocated l2 <> Free.
Proof.
  intros H. apply no_ff_app_r in H. rewrite no_ff_cons in H. tauto.
Qed.

Lemma no_ff_before_free l1 l2 :
  no_ff (l1 ++ Free :: l2) -> last l1 Allocated <> Free.
Proof.
  intros H. rewrite no_ff_app in H. destruct H as [H _].
  rewrite no_ff_snoc in H. tauto.
Qed.

Lemma length_insert_fl size bp fl :
  length (insert_fl size bp fl) = S (length fl).
Proof.
  unfold insert_fl. destruct (size <? 1000); [reflexivity|].
  rewrite length_app. cbn [length]. lia.
Qed.

Ltac statuses :=
  unfold coalesced in *; rewrite ?map_app in *; cbn [map b_status] in *;
  rewrite <- ?app_assoc in *; cbn [app] in *.

(** ** [free_coalesce] *)

Lemma free_coalesce_unfold bp :
  free_coalesce bp =
  (size <- get_size bp ;;
   set_header bp size 0 ;;;
   set_footer bp size 0 ;;;
   pb <- get_prev bp ;; prev_alloc <- get_allocated pb ;;
   nb <- get_next bp ;; next_alloc <- get_allocated nb ;;
   coalesce_cases bp size prev_alloc next_alloc).
Proof. reflexivity. Qed.

(** Facts about a block in limbo. *)
Lemma limbo_node s bl1 bp sz bl2 fl :
  heap_rep s (bl1 ++ mkBlock bp sz Limbo :: bl2) fl ->
  node_ok s bp /\ ~ In bp fl /\ spaced (bp :: fl) /\
  (forall y, In y fl -> y + 16 <= bp \/ bp + sz <= y) /\
  16 <= sz /\ sz mod 8 = 0 /\ bp + sz <= mem_brk s - 4.
Proof.
  intros R. set (B := mkBlock bp sz Limbo) in *.
  assert (HB : In B (bl1 ++ B :: bl2)) by in_list.
  pose proof (rep_block _ _ _ R B HB) as HBb. pose proof (hr_lo _ _ _ R).
  unfold b_end in HBb. cbn [b_addr b_size B] in HBb.
  assert (Hy : forall y, In y fl -> y + 16 <= bp \/ bp + sz <= y).
  { intros y Hy. destruct (node_vs_block _ _ _ R B y HB Hy) as [[_ E]|E].
    - discriminate E.
    - exact E. }
  split; [unfold node_ok; lia|]. split; [|split; [|split; [exact Hy|lia]]].
  - intros Hi. apply Hy in Hi. lia.
  - intros x y [<-|Hx] [<-|Hy'].
    + left. reflexivity.
    + right. apply Hy in Hy'. lia.
    + right. apply Hy in Hx. lia.
    + apply (rep_spaced _ _ _ R); assumption.
Qed.

Lemma free_list_insert_spec T s fl size bp Q :
  fl_rep s fl -> ~ In bp fl -> spaced (bp :: fl) -> node_ok s bp ->
  (forall s', fl_rep s' (insert_fl size bp fl) ->
              only_links (bp :: fl) (mem s) (mem s') ->
              same_region s s' -> Q tt s') ->
  wp T (free_list_insert size bp) s Q.
Proof.
  intros F Hn Hs Hb HQ. unfold free_list_insert, insert_fl in *.
  destruct (size <? 1000).
  - apply free_list_prepend_spec with fl; assumption.
  - apply free_list_append_spec with fl; assumption.
Qed.

Lemma in_insert_fl size bp fl x :
  In x (insert_fl size bp fl) <-> x = bp \/ In x fl.
Proof.
  unfold insert_fl. destruct (size <? 1000).
  - cbn [In]. intuition (subst; auto).
  - rewrite in_app_iff. cbn [In]. intuition (subst; auto).
Qed.

Lemma frame_refl lo hi l m : frame lo hi l m m.
Proof. intros x _ _. reflexivity. Qed.

Lemma same_region_with_mem s m : same_region s (with_mem s m).
Proof. repeat split. Qed.

Lemma same_region_trans s1 s2 s3 :
  same_region s1 s2 -> same_region s2 s3 -> same_region s1 s3.
Proof.
  unfold same_region. intros (A1 & A2 & A3 & A4) (B1 & B2 & B3 & B4).
  repeat split; congruence.
Qed.

(** Both neighbours allocated. *)
Lemma coalesce_AA T s bl1 bp sz bl2 fl Q :
  heap_rep s (bl1 ++ mkBlock bp sz Limbo :: bl2) fl ->
  rd (mem s) bp = sz -> rd (mem s) (bp + sz - 4) = sz ->
  (forall s',
     heap_rep s' (bl1 ++ mkBlock bp sz Free :: bl2) (insert_fl sz bp fl) ->
     same_region s s' -> frame bp (bp + sz) fl (mem s) (mem s') ->
     Q bp s') ->
  wp T (coalesce_cases bp sz 1 1) s Q.
Proof.
  intros R Hh Hf HQ. unfold coalesce_cases. cbn [Z.eqb negb andb].
  destruct (limbo_node _ _ _ _ _ _ R) as (Hn & Hni & Hsp & Hy & Hsz & _).
  apply wp_bind. apply free_list_insert_spec with fl; auto.
  { apply (rep_fl_rep _ _ _ R). }
  intros s' F Hol Hsr. apply wp_ret. apply HQ; [|exact Hsr|].
  - eapply rep_insert; eauto. apply in_insert_fl.
  - intros x Hx HL. apply Hol. intros y [<-|Hy']; [lia|auto].
Qed.

Lemma in_remove_mid {A} (x : A) l1 y l2 :
  In x (l1 ++ l2) -> In x (l1 ++ y :: l2).
Proof.
  rewrite !in_app_iff. cbn [In]. tauto.
Qed.

Lemma small_sum a b : 0 <= a -> 0 <= b -> a + b < two31 -> to_int (a + b) = a + b.
Proof. intros. apply to_int_small. lia. Qed.

Ltac side :=
  first [ lia | assumption | rewrite Z.add_0_r; assumption
        | left; reflexivity | right; reflexivity
        | solve [unfold two31, two32 in *; lia]
        | solve [Z.div_mod_to_equations; lia] ].

(** Previous neighbour allocated, next neighbour free. *)
Lemma coalesce_AF T s bl1 bp sz nb nsz bl2 l1 l2 Q :
  heap_rep s (bl1 ++ mkBlock bp sz Limbo :: mkBlock nb nsz Free :: bl2)
           (l1 ++ nb :: l2) ->
  nb = bp + sz ->
  rd (mem s) bp = sz -> rd (mem s) (bp + sz - 4) = sz ->
  (forall s',
     heap_rep s' (bl1 ++ mkBlock bp (sz + nsz) Free :: bl2)
              (insert_fl sz bp (l1 ++ l2)) ->
     same_region s s' ->
     frame bp (nb + nsz) (l1 ++ nb :: l2) (mem s) (mem s') ->
     Q bp s') ->
  wp T (coalesce_cases bp sz 1 0) s Q.
Proof.
  intros R Enb Hh Hf HQ. unfold coalesce_cases. cbn [Z.eqb negb andb].
  set (fl := l1 ++ nb :: l2) in *.
  destruct (limbo_node _ _ _ _ _ _ R) as (Hn & Hni & Hsp & Hy & Hsz & Hsz8 & _).
  destruct Hn as (Hb1 & Hb2 & Hb3).
  assert (HN : In (mkBlock nb nsz Free)
                  (bl1 ++ mkBlock bp sz Limbo :: mkBlock nb nsz Free :: bl2)) by in_list.
  pose proof (rep_block _ _ _ R _ HN) as HNb. unfold b_end in HNb.
  cbn [b_addr b_size] in HNb. destruct HNb as (N1 & N2 & N3 & N4 & N5).
  pose proof (rep_tagged _ _ _ R _ HN) as [TN _]. cbn [b_addr b_size] in TN.
  (* get_next, free_list_remove *)
  apply wp_bind. eapply wp_get_next with (sz := sz) (al := 0); [side..|].
  rewrite <- Enb.
  apply wp_bind. apply free_list_remove_spec with l1 l2.
  { apply (rep_fl_rep _ _ _ R). }
  intros s1 F1 Hol1 Sr1.
  assert (R1 : heap_rep s1 (bl1 ++ mkBlock bp sz Limbo :: mkBlock nb nsz Limbo :: bl2)
                        (l1 ++ l2)).
  { replace (bl1 ++ mkBlock bp sz Limbo :: mkBlock nb nsz Limbo :: bl2)
      with ((bl1 ++ [mkBlock bp sz Limbo]) ++ mkBlock nb nsz Limbo :: bl2)
      by (rewrite <- app_assoc; reflexivity).
    eapply rep_remove; [|exact F1|exact Sr1|exact Hol1].
    rewrite <- app_assoc. exact R. }
  assert (Hkeep : forall x, bp <= x < bp + sz + 4 -> mem s1 x = mem s x).
  { intros x Hx. apply Hol1. intros y Hy'. unfold fl in Hy'.
    apply in_app_or in Hy'. destruct Hy' as [Hy'|[<-|Hy']].
    - assert (Hyf : In y fl) by (unfold fl; in_list). apply Hy in Hyf. lia.
    - lia.
    - assert (Hyf : In y fl) by (unfold fl; in_list).
      pose proof (Hy y Hyf).
      destruct (node_vs_block _ _ _ R _ y HN Hyf) as [[E _]|E];
        unfold b_end in *; cbn [b_addr b_size] in *; lia. }
  assert (Hh1 : rd (mem s1) bp = sz).
  { rewrite <- Hh. apply rd_ext. intros x Hx. apply Hkeep. lia. }
  assert (Hf1 : rd (mem s1) (bp + sz - 4) = sz).
  { rewrite <- Hf at 2. apply rd_ext. intros x Hx. apply Hkeep. lia. }
  assert (HN1 : rd (mem s1) nb = nsz).
  { rewrite <- TN. apply rd_ext. intros x Hx. apply Hkeep. lia. }
  (* free_list_insert *)
  destruct (limbo_node _ _ _ _ _ _ R1) as (Hn1 & Hni1 & Hsp1 & Hy1 & _).
  apply wp_bind. apply free_list_insert_spec with (l1 ++ l2); auto.
  intros s2 F2 Hol2 Sr2.
  assert (R2 : heap_rep s2 (bl1 ++ mkBlock bp sz Free :: mkBlock nb nsz Limbo :: bl2)
                        (insert_fl sz bp (l1 ++ l2))).
  { eapply rep_insert; eauto. apply in_insert_fl. }
  destruct Sr1 as (A1 & A2 & A3 & A4), Sr2 as (B1 & B2 & B3 & B4).
  assert (Hkeep2 : forall x, bp <= x < bp + 4 \/ nb <= x < nb + 4 -> mem s2 x = mem s1 x).
  { intros x Hx. apply Hol2. intros y [<-|Hy']; [lia|].
    assert (Hyf : In y fl) by (unfold fl; apply in_remove_mid; exact Hy').
    pose proof (Hy y Hyf).
    destruct (node_vs_block _ _ _ R _ y HN Hyf) as [[E _]|E];
      unfold b_end in *; cbn [b_addr b_size] in *; lia. }
  assert (Hh2 : rd (mem s2) bp = sz).
  { rewrite <- Hh1. apply rd_ext. intros x Hx. apply Hkeep2. lia. }
  assert (HN2 : rd (mem s2) nb = nsz).
  { rewrite <- HN1. apply rd_ext. intros x Hx. apply Hkeep2. lia. }
  (* sizes and the two writes *)
  apply wp_bind. eapply wp_get_next with (sz := sz) (al := 0); [side..|].
  rewrite <- Enb.
  apply wp_bind. eapply wp_get_size with (sz := nsz) (al := 0); [side..|].
  rewrite small_sum by lia.
  assert (Ht : (sz + nsz) mod two32 = sz + nsz).
  { apply Z.mod_small. unfold two31, two32 in *. lia. }
  apply wp_bind. apply wp_set_header; [side..|].
  apply wp_bind.
  eapply wp_set_footer with (cur := sz + nsz) (cal := 0); proj_simpl;
    [side|side|rewrite rd_wr_same, !Z.add_0_r; exact Ht|side..|].
  apply wp_ret. rewrite !Z.add_0_r.
  set (tot := sz + nsz) in *.
  set (m4 := wr (wr (mem s2) bp tot) (bp + tot - 4) tot).
  apply HQ.
  - change (with_mem (with_mem s2 (wr (mem s2) bp tot)) m4) with (with_mem s2 m4).
    change (bl1 ++ mkBlock bp tot Free :: bl2)
      with (bl1 ++ [mkBlock bp tot Free] ++ bl2).
    apply rep_retile with (old := [mkBlock bp sz Free; mkBlock nb nsz Limbo])
                          (a := bp) (e := bp + tot).
    + exact R2.
    + discriminate.
    + cbn [chain b_addr b_size]. unfold tot in *. repeat split; auto; lia.
    + cbn [chain b_addr b_size]. unfold tot in *. repeat split; auto; side.
    + reflexivity.
    + constructor; [|constructor]. unfold tagged, b_end, m4.
      cbn [b_addr b_size b_status]. split.
      * rewrite rd_wr_other by (unfold tot; lia). rewrite rd_wr_same. exact Ht.
      * rewrite rd_wr_same. exact Ht.
    + intros x Hx. unfold m4. rewrite !wr_other by (unfold tot in *; lia). reflexivity.
    + intros y [<-|[]] x Hx. unfold m4. cbn [b_addr] in Hx.
      rewrite !wr_other by (unfold tot in *; lia). reflexivity.
  - repeat split; proj_simpl; congruence.
  - intros x Hx HL. proj_simpl. fold m4. unfold m4.
    rewrite !wr_other by (unfold tot in *; lia).
    rewrite Hol2, Hol1; auto.
    intros y [<-|Hy']; [unfold tot in *; lia|].
    apply HL. apply in_remove_mid. exact Hy'.
Qed.

Lemma limbo_word m a sz :
  rd m a = sz \/ rd m a = sz + 1 ->
  exists al, (al = 0 \/ al = 1) /\ rd m a = sz + al.
Proof.
  intros [H|H]; [exists 0|exists 1]; rewrite H; split; auto; lia.
Qed.

(** Previous neighbour free, next neighbour allocated. *)
Lemma coalesce_FA T s bl1 pb psz bp sz bl2 fl Q :
  heap_rep s (bl1 ++ mkBlock pb psz Free :: mkBlock bp sz Limbo :: bl2) fl ->
  bp = pb + psz ->
  (forall s',
     heap_rep s' (bl1 ++ mkBlock pb (psz + sz) Free :: bl2) fl ->
     same_region s s' ->
     frame pb (bp + sz) fl (mem s) (mem s') ->
     rd (mem s') bp = rd (mem s) bp ->
     Q pb s') ->
  wp T (coalesce_cases bp sz 0 1) s Q.
Proof.
  intros R Ebp HQ. unfold coalesce_cases. cbn [Z.eqb negb andb].
  assert (HP : In (mkBlock pb psz Free)
      (bl1 ++ mkBlock pb psz Free :: mkBlock bp sz Limbo :: bl2)) by in_list.
  assert (HB : In (mkBlock bp sz Limbo)
      (bl1 ++ mkBlock pb psz Free :: mkBlock bp sz Limbo :: bl2)) by in_list.
  pose proof (rep_block _ _ _ R _ HP) as HPb.
  pose proof (rep_block _ _ _ R _ HB) as HBb.
  pose proof (rep_tagged _ _ _ R _ HP) as [TP1 TP2].
  unfold b_end in *. cbn [b_addr b_size] in *.
  pose proof (hr_lo _ _ _ R) as Hlo.
  replace (pb + psz - 4) with (bp - 4) in TP2 by lia.
  assert (Epb : bp - psz = pb) by lia.
  assert (Ht : (psz + sz) mod two32 = psz + sz).
  { apply Z.mod_small. unfold two31, two32 in *. lia. }
  apply wp_bind. eapply wp_get_prev with (sz := psz) (al := 0); [side..|].
  rewrite Epb.
  apply wp_bind. eapply wp_get_size with (sz := psz) (al := 0); [side..|].
  rewrite small_sum by lia. replace (sz + psz) with (psz + sz) by lia.
  apply wp_bind. eapply wp_get_prev with (sz := psz) (al := 0); [side..|].
  rewrite Epb.
  apply wp_bind. apply wp_set_header; [side..|].
  apply wp_bind. eapply wp_get_prev with (sz := psz) (al := 0); proj_simpl;
    [side|side|rewrite rd_wr_other by lia; side|side..|].
  rewrite Epb.
  apply wp_bind.
  eapply wp_set_footer with (cur := psz + sz) (cal := 0); proj_simpl;
    [side|side|rewrite rd_wr_same, !Z.add_0_r; exact Ht|side..|].
  eapply wp_get_prev with (sz := psz) (al := 0); proj_simpl;
    [side|side|rewrite !rd_wr_other by lia; side|side..|].
  rewrite Epb, !Z.add_0_r.
  set (tot := psz + sz) in *.
  set (m2 := wr (wr (mem s) pb tot) (pb + tot - 4) tot).
  apply HQ.
  - change (with_mem (with_mem s (wr (mem s) pb tot)) m2) with (with_mem s m2).
    change (bl1 ++ mkBlock pb tot Free :: bl2)
      with (bl1 ++ [mkBlock pb tot Free] ++ bl2).
    apply rep_retile with (old := [mkBlock pb psz Free; mkBlock bp sz Limbo])
                          (a := pb) (e := pb + tot).
    + exact R.
    + discriminate.
    + cbn [chain b_addr b_size]. unfold tot in *. repeat split; auto; lia.
    + cbn [chain b_addr b_size]. unfold tot in *. repeat split; auto; side.
    + reflexivity.
    + constructor; [|constructor]. unfold tagged, b_end, m2.
      cbn [b_addr b_size b_status]. split.
      * rewrite rd_wr_other by (unfold tot; lia). rewrite rd_wr_same. exact Ht.
      * rewrite rd_wr_same. exact Ht.
    + intros x Hx. unfold m2. rewrite !wr_other by (unfold tot in *; lia). reflexivity.
    + intros y [<-|[]] x Hx. unfold m2. cbn [b_addr] in Hx.
      rewrite !wr_other by (unfold tot in *; lia). reflexivity.
  - repeat split.
  - intros x Hx HL. proj_simpl. fold m2. unfold m2.
    rewrite !wr_other by (unfold tot in *; lia). reflexivity.
  - subst m2. proj_simpl. rewrite !rd_wr_other by (unfold tot in *; lia).
    reflexivity.
Qed.

(** Both neighbours free. *)
Lemma coalesce_FF T s bl1 pb psz bp sz nb nsz bl2 l1 l2 Q :
  heap_rep s (bl1 ++ mkBlock pb psz Free :: mkBlock bp sz Limbo
                  :: mkBlock nb nsz Free :: bl2) (l1 ++ nb :: l2) ->
  bp = pb + psz -> nb = bp + sz ->
  (forall s',
     heap_rep s' (bl1 ++ mkBlock pb (psz + sz + nsz) Free :: bl2) (l1 ++ l2) ->
     same_region s s' ->
     frame pb (nb + nsz) (l1 ++ nb :: l2) (mem s) (mem s') ->
     Q pb s') ->
  wp T (coalesce_cases bp sz 0 0) s Q.
Proof.
  intros R Ebp Enb HQ. unfold coalesce_cases. cbn [Z.eqb negb andb].
  set (fl := l1 ++ nb :: l2) in *.
  assert (HB0 : In (mkBlock bp sz Limbo)
      (bl1 ++ mkBlock pb psz Free :: mkBlock bp sz Limbo
           :: mkBlock nb nsz Free :: bl2)) by in_list.
  pose proof (rep_tagged _ _ _ R _ HB0) as TB0.
  apply limbo_word in TB0. destruct TB0 as (al0 & Hal0 & TB0).
  cbn [b_addr b_size] in TB0.
  pose proof (rep_block _ _ _ R _ HB0) as HBb0.
  unfold b_end in HBb0. cbn [b_addr b_size] in HBb0.
  pose proof (hr_lo _ _ _ R) as Hlo. pose proof (hr_max _ _ _ R) as Hmax.
  apply wp_bind. eapply wp_get_next with (sz := sz) (al := al0); [side..|].
  rewrite <- Enb.
  apply wp_bind. apply free_list_remove_spec with l1 l2.
  { apply (rep_fl_rep _ _ _ R). }
  intros s1 F1 Hol1 Sr1.
  assert (R1 : heap_rep s1 (bl1 ++ mkBlock pb psz Free :: mkBlock bp sz Limbo
                                :: mkBlock nb nsz Limbo :: bl2) (l1 ++ l2)).
  { replace (bl1 ++ mkBlock pb psz Free :: mkBlock bp sz Limbo
                 :: mkBlock nb nsz Limbo :: bl2)
      with ((bl1 ++ [mkBlock pb psz Free; mkBlock bp sz Limbo])
              ++ mkBlock nb nsz Limbo :: bl2)
      by (rewrite <- app_assoc; reflexivity).
    eapply rep_remove; [|exact F1|exact Sr1|exact Hol1].
    rewrite <- app_assoc. exact R. }
  assert (HP : In (mkBlock pb psz Free)
      (bl1 ++ mkBlock pb psz Free :: mkBlock bp sz Limbo
           :: mkBlock nb nsz Limbo :: bl2)) by in_list.
  assert (HB : In (mkBlock bp sz Limbo)
      (bl1 ++ mkBlock pb psz Free :: mkBlock bp sz Limbo
           :: mkBlock nb nsz Limbo :: bl2)) by in_list.
  assert (HN : In (mkBlock nb nsz Limbo)
      (bl1 ++ mkBlock pb psz Free :: mkBlock bp sz Limbo
           :: mkBlock nb nsz Limbo :: bl2)) by in_list.
  pose proof (rep_block _ _ _ R1 _ HP) as HPb.
  pose proof (rep_block _ _ _ R1 _ HB) as HBb.
  pose proof (rep_block _ _ _ R1 _ HN) as HNb.
  pose proof (rep_tagged _ _ _ R1 _ HP) as [TP1 TP2].
  pose proof (rep_tagged _ _ _ R1 _ HB) as TB.
  pose proof (rep_tagged _ _ _ R1 _ HN) as TN.
  apply limbo_word in TB, TN.
  destruct TB as (alb & Halb & TB), TN as (aln & Haln & TN).
  unfold b_end in *. cbn [b_addr b_size] in *.
  destruct Sr1 as (A1 & A2 & A3 & A4).
  replace (pb + psz - 4) with (bp - 4) in TP2 by lia.
  assert (Epb : bp - psz = pb) by lia.
  assert (Ht : (psz + sz + nsz) mod two32 = psz + sz + nsz).
  { apply Z.mod_small. unfold two31, two32 in *. lia. }
  apply wp_bind. eapply wp_get_next with (sz := sz) (al := alb); [side..|].
  rewrite <- Enb.
  apply wp_bind. eapply wp_get_size with (sz := nsz) (al := aln); [side..|].
  apply wp_bind. eapply wp_get_prev with (sz := psz) (al := 0); [side..|].
  rewrite Epb.
  apply wp_bind. eapply wp_get_size with (sz := psz) (al := 0); [side..|].
  rewrite (small_sum psz sz) by lia. rewrite small_sum by lia.
  apply wp_bind. eapply wp_get_prev with (sz := psz) (al := 0); [side..|].
  rewrite Epb.
  apply wp_bind. apply wp_set_header; [side..|].
  apply wp_bind. eapply wp_get_prev with (sz := psz) (al := 0); proj_simpl;
    [side|side|rewrite rd_wr_other by lia; side|side..|].
  rewrite Epb.
  apply wp_bind.
  eapply wp_set_footer with (cur := psz + sz + nsz) (cal := 0); proj_simpl;
    [side|side|rewrite rd_wr_same, !Z.add_0_r; exact Ht|side..|].
  eapply wp_get_prev with (sz := psz) (al := 0); proj_simpl;
    [side|side|rewrite !rd_wr_other by lia; side|side..|].
  rewrite Epb, !Z.add_0_r.
  set (tot := psz + sz + nsz) in *.
  set (m2 := wr (wr (mem s1) pb tot) (pb + tot - 4) tot).
  apply HQ.
  - change (with_mem (with_mem s1 (wr (mem s1) pb tot)) m2) with (with_mem s1 m2).
    change (bl1 ++ mkBlock pb tot Free :: bl2)
      with (bl1 ++ [mkBlock pb tot Free] ++ bl2).
    apply rep_retile with (old := [mkBlock pb psz Free; mkBlock bp sz Limbo;
                                   mkBlock nb nsz Limbo])
                          (a := pb) (e := pb + tot).
    + exact R1.
    + discriminate.
    + cbn [chain b_addr b_size]. unfold tot in *. repeat split; auto; lia.
    + cbn [chain b_addr b_size]. unfold tot in *. repeat split; auto; side.
    + reflexivity.
    + constructor; [|constructor]. unfold tagged, b_end, m2.
      cbn [b_addr b_size b_status]. split.
      * rewrite rd_wr_other by (unfold tot; lia). rewrite rd_wr_same. exact Ht.
      * rewrite rd_wr_same. exact Ht.
    + intros x Hx. unfold m2. rewrite !wr_other by (unfold tot in *; lia). reflexivity.
    + intros y [<-|[]] x Hx. unfold m2. cbn [b_addr] in Hx.
      rewrite !wr_other by (unfold tot in *; lia). reflexivity.
  - repeat split; proj_simpl; congruence.
  - intros x Hx HL. proj_simpl. fold m2. unfold m2.
    rewrite !wr_other by (unfold tot in *; lia).
    apply Hol1. exact HL.
Qed.

(** The first half of [free_coalesce]: the block is marked free and the
    allocated bits of its two neighbours are read. *)
Lemma free_coalesce_mark_full T s bl1 bp sz bl2 fl Q :
  heap_rep s (bl1 ++ mkBlock bp sz Limbo :: bl2) fl ->
  clean bl1 -> clean bl2 ->
  (forall s2 psz pal nsz nal,
     heap_rep s2 (bl1 ++ mkBlock bp sz Limbo :: bl2) fl ->
     same_region s s2 ->
     (forall x, x < bp \/ bp + sz <= x -> mem s2 x = mem s x) ->
     rd (mem s2) bp = sz -> rd (mem s2) (bp + sz - 4) = sz ->
     (pal = 1 /\ prev_allocated bl1) \/
     (pal = 0 /\ exists bl1', bl1 = bl1' ++ [mkBlock (bp - psz) psz Free]) ->
     (nal = 1 /\ next_allocated bl2) \/
     (nal = 0 /\ exists bl2', bl2 = mkBlock (bp + sz) nsz Free :: bl2') ->
     wp T (coalesce_cases bp sz pal nal) s2 Q) ->
  wp T (free_coalesce bp) s Q.
Proof.
  intros R C1 C2 HQ. rewrite free_coalesce_unfold.
  destruct (limbo_node _ _ _ _ _ _ R) as (Hn & Hni & Hsp & Hy & Hsz & Hsz8 & Hend).
  destruct Hn as (Hb1 & Hb2 & Hb3).
  assert (HB : In (mkBlock bp sz Limbo) (bl1 ++ mkBlock bp sz Limbo :: bl2)) by in_list.
  pose proof (rep_tagged _ _ _ R _ HB) as TB. apply limbo_word in TB.
  destruct TB as (al0 & Hal0 & TB). cbn [b_addr b_size] in TB.
  pose proof (hr_max _ _ _ R) as Hmax.
  assert (Ht : sz mod two32 = sz).
  { apply Z.mod_small. unfold two31, two32 in *. lia. }
  apply wp_bind. eapply wp_get_size with (sz := sz) (al := al0); [side..|].
  apply wp_bind. apply wp_set_header; [side..|].
  apply wp_bind.
  eapply wp_set_footer with (cur := sz) (cal := 0); proj_simpl;
    [side|side|rewrite rd_wr_same, !Z.add_0_r; exact Ht|side..|].
  rewrite !Z.add_0_r.
  set (m2 := wr (wr (mem s) bp sz) (bp + sz - 4) sz).
  change (with_mem (with_mem s (wr (mem s) bp sz)) m2) with (with_mem s m2).
  assert (Hh2 : rd m2 bp = sz).
  { unfold m2. rewrite rd_wr_other by lia. rewrite rd_wr_same. exact Ht. }
  assert (Hf2 : rd m2 (bp + sz - 4) = sz).
  { unfold m2. rewrite rd_wr_same. exact Ht. }
  assert (Hout : forall x, x < bp \/ bp + sz <= x -> m2 x = mem s x).
  { intros x Hx. unfold m2. rewrite !wr_other by lia. reflexivity. }
  assert (R2 : heap_rep (with_mem s m2) (bl1 ++ mkBlock bp sz Limbo :: bl2) fl).
  { change (bl1 ++ mkBlock bp sz Limbo :: bl2)
      with (bl1 ++ [mkBlock bp sz Limbo] ++ bl2).
    apply rep_retile with (old := [mkBlock bp sz Limbo]) (a := bp) (e := bp + sz).
    - exact R.
    - discriminate.
    - cbn [chain b_addr b_size]. auto.
    - cbn [chain b_addr b_size]. auto.
    - reflexivity.
    - constructor; [|constructor]. unfold tagged. cbn [b_addr b_size b_status].
      left. exact Hh2.
    - exact Hout.
    - intros y []. }
  destruct (prev_view _ _ _ _ _ R2 C1)
    as (psz & pal & P1 & P2 & P3 & P4 & P5 & P6 & P7).
  destruct (next_view _ _ _ _ _ R2 C2)
    as (nsz & nal & N1 & N2 & N3 & N4 & N5 & N6 & N7 & N8).
  unfold b_end in *. cbn [b_addr b_size] in *. proj_simpl.
  pose proof (hr_lo _ _ _ R) as Hlo.
  apply wp_bind. eapply wp_get_prev with (sz := psz) (al := pal); proj_simpl;
    [side..|].
  apply wp_bind. eapply wp_get_allocated with (sz := psz) (al := pal); proj_simpl;
    [side..|].
  apply wp_bind. eapply wp_get_next with (sz := sz) (al := 0); proj_simpl;
    [side..|].
  apply wp_bind. eapply wp_get_allocated with (sz := nsz) (al := nal); proj_simpl;
    [side..|].
  apply (HQ _ psz pal nsz nal); auto.
  - apply same_region_with_mem.
  - destruct P3 as [->| ->]; [right; split; auto|left; split; [reflexivity|]].
    apply (prev_view_alloc _ _ _ _ _ psz R2 C1); assumption.
  - destruct N3 as [->| ->]; [right; split; auto|left; split; auto].
Qed.

Lemma free_coalesce_mark T s bl1 bp sz bl2 fl Q :
  heap_rep s (bl1 ++ mkBlock bp sz Limbo :: bl2) fl ->
  clean bl1 -> clean bl2 ->
  (forall s2 psz pal nsz nal,
     heap_rep s2 (bl1 ++ mkBlock bp sz Limbo :: bl2) fl ->
     same_region s s2 ->
     (forall x, x < bp \/ bp + sz <= x -> mem s2 x = mem s x) ->
     rd (mem s2) bp = sz -> rd (mem s2) (bp + sz - 4) = sz ->
     pal = 1 \/
     (pal = 0 /\ exists bl1', bl1 = bl1' ++ [mkBlock (bp - psz) psz Free]) ->
     (nal = 1 /\ next_allocated bl2) \/
     (nal = 0 /\ exists bl2', bl2 = mkBlock (bp + sz) nsz Free :: bl2') ->
     wp T (coalesce_cases bp sz pal nal) s2 Q) ->
  wp T (free_coalesce bp) s Q.
Proof.
  intros R C1 C2 HQ. apply free_coalesce_mark_full with bl1 sz bl2 fl; auto.
  intros s2 psz pal nsz nal R2 Sr2 Hout Hh2 Hf2 HP HN.
  apply (HQ s2 psz pal nsz nal); auto. destruct HP as [[HP _]|HP]; auto.
Qed.

Lemma frame_payloads s bl fl lo hi m' b x :
  heap_rep s bl fl -> frame lo hi fl (mem s) m' ->
  In b bl -> b_status b = Allocated ->
  b_end b <= lo \/ hi <= b_addr b ->
  b_addr b <= x < b_end b -> m' x = mem s x.
Proof.
  intros R Hf Hb Sb Hd Hx. apply Hf; [lia|].
  intros y Hy. apply (allocated_not_link _ _ _ R b y x); assumption.
Qed.

Lemma clean_cons b l : clean (b :: l) <-> b_status b <> Limbo /\ clean l.
Proof.
  unfold clean. split.
  - intros H. inversion H; subst. auto.
  - intros [H1 H2]. constructor; assumption.
Qed.

(** Position of a block of [l1 ++ B :: l2] other than [B] relative to
    [B]. *)
Lemma chain_side a l1 B l2 e b :
  chain a (l1 ++ B :: l2) e -> In b (l1 ++ l2) ->
  (In b l1 /\ b_end b <= b_addr B) \/ (In b l2 /\ b_end B <= b_addr b).
Proof.
  intros Hc Hb. apply chain_split in Hc. destruct Hc as (C1 & _ & _ & C2).
  apply in_app_or in Hb. destruct Hb as [Hb|Hb]; [left|right]; split; auto.
  - apply (chain_in_bounds _ _ _ _ C1 Hb).
  - apply (chain_in_bounds _ _ _ _ C2 Hb).
Qed.

Lemma free_coalesce_full T (K : Prop) s bl1 bp sz bl2 fl Q :
  heap_rep s (bl1 ++ mkBlock bp sz Limbo :: bl2) fl ->
  clean bl1 -> clean bl2 ->
  (K -> coalesced (bl1 ++ mkBlock bp sz Limbo :: bl2)) ->
  (forall r s' bl' fl' rsz,
     heap_inv s' bl' fl' -> same_region s s' ->
     keeps_allocated (bl1 ++ bl2) bl' ->
     keeps_payloads (bl1 ++ bl2) (mem s) (mem s') ->
     (next_allocated bl2 -> rd (mem s') bp = sz) ->
     In (mkBlock r rsz Free) bl' -> r <= bp -> bp + sz <= r + rsz ->
     (forall b, In b bl' -> b = mkBlock r rsz Free \/ In b (bl1 ++ bl2)) ->
     (length fl' <= S (length fl))%nat ->
     (K -> coalesced bl') ->
     Q r s') ->
  wp T (free_coalesce bp) s Q.
Proof.
  intros R C1 C2 HK HQ.
  apply free_coalesce_mark_full with bl1 sz bl2 fl; auto.
  intros s2 psz pal nsz nal R2 Sr2 Hout Hh2 Hf2 HP HN.
  pose proof (hr_chain _ _ _ R2) as Hc.
  assert (Hside := fun b => chain_side _ _ _ _ _ b Hc).
  unfold b_end in Hside. cbn [b_addr b_size] in Hside.
  assert (Hin : forall b, In b (bl1 ++ bl2) ->
                In b (bl1 ++ mkBlock bp sz Limbo :: bl2)).
  { intros b Hb. apply in_remove_mid. exact Hb. }
  assert (Hpay : forall lo hi s',
            frame lo hi fl (mem s2) (mem s') -> lo <= bp -> bp + sz <= hi ->
            (forall b, In b (bl1 ++ bl2) -> b_status b = Allocated ->
                       b_end b <= lo \/ hi <= b_addr b) ->
            keeps_payloads (bl1 ++ bl2) (mem s) (mem s')).
  { intros lo hi s' Hfr Hlo Hhi Hd b Hb Sb x Hx.
    rewrite (frame_payloads _ _ _ _ _ _ b x R2 Hfr); auto; [|unfold b_end in *; lia].
    apply Hout. specialize (Hd b Hb Sb). unfold b_end in *. lia. }
  destruct HP as [(-> & Hpa)|(-> & bl1' & ->)],
           HN as [(-> & HNa)|(-> & bl2' & ->)].
  - (* both allocated *)
    apply coalesce_AA with bl1 bl2 fl; auto.
    intros s' R' Sr' Hfr.
    apply HQ with (bl' := bl1 ++ mkBlock bp sz Free :: bl2)
                  (fl' := insert_fl sz bp fl) (rsz := sz).
    + split; [exact R'|]. apply clean_app. split; [exact C1|].
      apply clean_cons. split; [discriminate|exact C2].
    + eapply same_region_trans; eassumption.
    + intros b Hb _. apply in_remove_mid. exact Hb.
    + apply (Hpay bp (bp + sz) s' Hfr); try lia.
      intros b Hb Sb. destruct (Hside b Hb) as [[_ H]|[_ H]]; unfold b_end; lia.
    + intros _. assert (Hi : In (mkBlock bp sz Free)
                               (bl1 ++ mkBlock bp sz Free :: bl2)) by in_list.
      apply (rep_tagged _ _ _ R' _ Hi).
    + in_list.
    + lia.
    + lia.
    + intros b Hb. apply in_app_or in Hb.
      destruct Hb as [Hb|[<-|Hb]]; [right; in_list|left; reflexivity|right; in_list].
    + rewrite length_insert_fl. lia.
    + intros k. specialize (HK k). statuses.
      apply no_ff_mid with (mid := [Limbo]); [exact HK|]. intros _.
      split; [apply last_prev_allocated; exact Hpa
             |apply hd_next_allocated; exact HNa].
  - (* next free *)
    assert (Hnb : In (bp + sz) fl).
    { apply (hr_free _ _ _ R2). rewrite free_addrs_app, !free_addrs_cons.
      cbn [is_free b_status b_addr]. in_list. }
    apply in_split in Hnb. destruct Hnb as (l1 & l2 & ->).
    apply clean_cons in C2. destruct C2 as [_ C2].
    eapply coalesce_AF with (nb := bp + sz) (nsz := nsz); eauto.
    intros s' R' Sr' Hfr.
    assert (HNb : In (mkBlock (bp + sz) nsz Free)
        (bl1 ++ mkBlock bp sz Limbo :: mkBlock (bp + sz) nsz Free :: bl2')) by in_list.
    pose proof (rep_block _ _ _ R2 _ HNb) as HNs. unfold b_end in HNs.
    cbn [b_addr b_size] in HNs.
    apply HQ with (bl' := bl1 ++ mkBlock bp (sz + nsz) Free :: bl2')
                  (fl' := insert_fl sz bp (l1 ++ l2)) (rsz := sz + nsz).
    + split; [exact R'|]. apply clean_app. split; [exact C1|].
      apply clean_cons. split; [discriminate|exact C2].
    + eapply same_region_trans; eassumption.
    + intros b Hb Sb. apply in_app_or in Hb. destruct Hb as [Hb|[<-|Hb]];
        [in_list|discriminate Sb|in_list].
    + apply (Hpay bp (bp + sz + nsz) s' Hfr); try lia.
      intros b Hb Sb. destruct (Hside b Hb) as [[_ H]|[Hb2 H]];
        unfold b_end in *; [lia|].
      destruct Hb2 as [<-|Hb2]; [discriminate Sb|].
      apply chain_split in Hc. destruct Hc as (_ & _ & _ & Hc).
      cbn [chain b_addr b_size] in Hc. destruct Hc as (_ & _ & _ & Hc).
      pose proof (chain_in_bounds _ _ _ _ Hc Hb2).
      unfold b_end in *. cbn [b_addr b_size] in *. lia.
    + cbn [next_allocated b_status]. discriminate.
    + in_list.
    + lia.
    + lia.
    + intros b Hb. apply in_app_or in Hb.
      destruct Hb as [Hb|[<-|Hb]]; [right; in_list|left; reflexivity|right; in_list].
    + rewrite length_insert_fl, !length_app. cbn [length]. lia.
    + intros k. specialize (HK k). statuses.
      apply no_ff_mid with (mid := [Limbo; Free]); [exact HK|]. intros _.
      split; [apply last_prev_allocated; exact Hpa|].
      apply (no_ff_after_free (map b_status bl1 ++ [Limbo])).
      rewrite <- app_assoc. exact HK.
  - (* previous free *)
    rewrite <- app_assoc in R2. cbn [app] in R2.
    assert (HPb : In (mkBlock (bp - psz) psz Free)
        (bl1' ++ mkBlock (bp - psz) psz Free :: mkBlock bp sz Limbo :: bl2)) by in_list.
    pose proof (rep_block _ _ _ R2 _ HPb) as HPs. unfold b_end in HPs.
    cbn [b_addr b_size] in HPs.
    apply clean_app in C1. destruct C1 as [C1 _].
    eapply coalesce_FA with (pb := bp - psz) (psz := psz); eauto; [lia|].
    intros s' R' Sr' Hfr Hhd.
    apply HQ with (bl' := bl1' ++ mkBlock (bp - psz) (psz + sz) Free :: bl2)
                  (fl' := fl) (rsz := psz + sz).
    + split; [exact R'|]. apply clean_app. split; [exact C1|].
      apply clean_cons. split; [discriminate|exact C2].
    + eapply same_region_trans; eassumption.
    + intros b Hb Sb. rewrite <- app_assoc in Hb. cbn [app] in Hb.
      apply in_app_or in Hb. destruct Hb as [Hb|[<-|Hb]];
        [in_list|discriminate Sb|in_list].
    + apply (Hpay (bp - psz) (bp + sz) s' Hfr); try lia.
      intros b Hb Sb. destruct (Hside b Hb) as [[Hb1 H]|[_ H]];
        unfold b_end in *; [|lia].
      apply in_app_or in Hb1. destruct Hb1 as [Hb1|[<-|[]]]; [|discriminate Sb].
      rewrite <- app_assoc in Hc. cbn [app] in Hc.
      apply chain_split in Hc. destruct Hc as (Hc & _).
      pose proof (chain_in_bounds _ _ _ _ Hc Hb1) as Hbb.
      cbn [b_addr] in Hbb. unfold b_end in Hbb. lia.
    + intros _. rewrite Hhd. exact Hh2.
    + in_list.
    + lia.
    + lia.
    + intros b Hb. apply in_app_or in Hb.
      destruct Hb as [Hb|[<-|Hb]]; [right; in_list|left; reflexivity|right; in_list].
    + lia.
    + intros k. specialize (HK k). statuses.
      apply no_ff_mid with (mid := [Free; Limbo]); [exact HK|]. intros _.
      split; [apply (no_ff_before_free _ _ HK)
             |apply hd_next_allocated; exact HNa].
  - (* both free *)
    rewrite <- app_assoc in R2. cbn [app] in R2.
    assert (Hnb : In (bp + sz) fl).
    { apply (hr_free _ _ _ R2). rewrite free_addrs_app, !free_addrs_cons.
      cbn [is_free b_status b_addr]. in_list. }
    apply in_split in Hnb. destruct Hnb as (l1 & l2 & ->).
    apply clean_cons in C2. destruct C2 as [_ C2].
    apply clean_app in C1. destruct C1 as [C1 _].
    assert (HPb : In (mkBlock (bp - psz) psz Free)
        (bl1' ++ mkBlock (bp - psz) psz Free :: mkBlock bp sz Limbo
              :: mkBlock (bp + sz) nsz Free :: bl2')) by in_list.
    pose proof (rep_block _ _ _ R2 _ HPb) as HPs. unfold b_end in HPs.
    cbn [b_addr b_size] in HPs.
    assert (HNb : In (mkBlock (bp + sz) nsz Free)
        (bl1' ++ mkBlock (bp - psz) psz Free :: mkBlock bp sz Limbo
              :: mkBlock (bp + sz) nsz Free :: bl2')) by in_list.
    pose proof (rep_block _ _ _ R2 _ HNb) as HNs. unfold b_end in HNs.
    cbn [b_addr b_size] in HNs.
    eapply coalesce_FF with (pb := bp - psz) (psz := psz) (nb := bp + sz)
                            (nsz := nsz); eauto; [lia|].
    intros s' R' Sr' Hfr.
    apply HQ with (bl' := bl1' ++ mkBlock (bp - psz) (psz + sz + nsz) Free :: bl2')
                  (fl' := l1 ++ l2) (rsz := psz + sz + nsz).
    + split; [exact R'|]. apply clean_app. split; [exact C1|].
      apply clean_cons. split; [discriminate|exact C2].
    + eapply same_region_trans; eassumption.
    + intros b Hb Sb. rewrite <- app_assoc in Hb. cbn [app] in Hb.
      apply in_app_or in Hb. destruct Hb as [Hb|[<-|[<-|Hb]]];
        [in_list|discriminate Sb|discriminate Sb|in_list].
    + apply (Hpay (bp - psz) (bp + sz + nsz) s' Hfr); try lia.
      intros b Hb Sb. destruct (Hside b Hb) as [[Hb1 H]|[Hb2 H]];
        unfold b_end in *.
      * apply in_app_or in Hb1. destruct Hb1 as [Hb1|[<-|[]]]; [|discriminate Sb].
        rewrite <- app_assoc in Hc. cbn [app] in Hc.
        apply chain_split in Hc. destruct Hc as (Hc & _).
        pose proof (chain_in_bounds _ _ _ _ Hc Hb1) as Hbb.
        cbn [b_addr] in Hbb. unfold b_end in Hbb. lia.
      * destruct Hb2 as [<-|Hb2]; [discriminate Sb|].
        apply chain_split in Hc. destruct Hc as (_ & _ & _ & Hc).
        cbn [chain b_addr b_size] in Hc. destruct Hc as (_ & _ & _ & Hc).
        unfold b_end in Hc. cbn [b_addr b_size] in Hc.
        pose proof (chain_in_bounds _ _ _ _ Hc Hb2).
      unfold b_end in *. cbn [b_addr b_size] in *. lia.
    + cbn [next_allocated b_status]. discriminate.
    + in_list.
    + lia.
    + lia.
    + intros b Hb. apply in_app_or in Hb.
      destruct Hb as [Hb|[<-|Hb]]; [right; in_list|left; reflexivity|right; in_list].
    + rewrite !length_app. cbn [length]. lia.
    + intros k. specialize (HK k). statuses.
      apply no_ff_mid with (mid := [Free; Limbo; Free]); [exact HK|]. intros _.
      split; [apply (no_ff_before_free _ _ HK)|].
      apply (no_ff_after_free (map b_status bl1' ++ [Free; Limbo])).
      rewrite <- app_assoc. exact HK.
Qed.

Lemma free_coalesce_spec T s bl1 bp sz bl2 fl Q :
  heap_rep s (bl1 ++ mkBlock bp sz Limbo :: bl2) fl ->
  clean bl1 -> clean bl2 ->
  (forall r s' bl' fl',
     heap_inv s' bl' fl' -> same_region s s' ->
     keeps_allocated (bl1 ++ bl2) bl' ->
     keeps_payloads (bl1 ++ bl2) (mem s) (mem s') ->
     (next_allocated bl2 -> rd (mem s') bp = sz) ->
     Q r s') ->
  wp T (free_coalesce bp) s Q.
Proof.
  intros R C1 C2 HQ.
  apply free_coalesce_full with (K := False) (bl1 := bl1) (sz := sz)
                                (bl2 := bl2) (fl := fl); auto.
  - intros [].
  - intros r s' bl' fl' rsz I' Sr Ka Kp Hn _ _ _ _ _ _.
    apply (HQ r s' bl' fl'); assumption.
Qed.

(** ** Soundness of the heap checker *)

Lemma chain_b_sound a bl e : chain_b a bl e = true -> chain a bl e.
Proof.
  revert a. induction bl as [|b r IH]; intros a; cbn [chain_b chain].
  - apply Z.eqb_eq.
  - rewrite !andb_true_iff. intros [[[H1 H2] H3] H4].
    apply Z.eqb_eq in H1, H3. apply Z.leb_le in H2. auto.
Qed.

Lemma tagged_b_sound m b : tagged_b m b = true -> tagged m b.
Proof.
  unfold tagged_b, tagged. destruct (b_status b);
    rewrite ?andb_true_iff, ?orb_true_iff, !Z.eqb_eq; auto.
Qed.

Lemma links_b_sound m p l n : links_b m p l n = true -> links m p l n.
Proof.
  revert p. induction l as [|x r IH]; intros p; cbn [links_b links]; [auto|].
  rewrite !andb_true_iff, !Z.eqb_eq. intros [[H1 H2] H3]. auto.
Qed.

Lemma mem_b_sound x l : mem_b x l = true <-> In x l.
Proof.
  unfold mem_b. rewrite existsb_exists. split.
  - intros (y & Hy & E). apply Z.eqb_eq in E. subst. exact Hy.
  - intros H. exists x. split; [exact H|apply Z.eqb_refl].
Qed.

Lemma nodup_b_sound l : nodup_b l = true -> NoDup l.
Proof.
  induction l as [|x r IH]; cbn [nodup_b]; [constructor|].
  rewrite andb_true_iff, negb_true_iff. intros [H1 H2].
  constructor; [|auto]. intros Hi. apply mem_b_sound in Hi. congruence.
Qed.

Lemma check_rep_sound s bl fl : check_rep s bl fl = true -> heap_rep s bl fl.
Proof.
  unfold check_rep. rewrite !andb_true_iff.
  intros [[[[[[[[[[[[[[[H1 H2] H3] H4] H5] H6] H7] H8] H9] H10] H11] H12] H13] H14] H15] H16].
  apply Z.ltb_lt in H1. apply Z.eqb_eq in H2, H5, H6, H7, H9, H12, H13.
  apply Z.leb_le in H3, H4.
  rewrite forallb_forall in H10, H15, H16.
  constructor; auto.
  - apply chain_b_sound. exact H8.
  - apply Forall_forall. intros b Hb. apply tagged_b_sound. auto.
  - apply links_b_sound. exact H11.
  - apply nodup_b_sound. exact H14.
  - intros x. split; intros Hx.
    + apply mem_b_sound. auto.
    + apply mem_b_sound. auto.
Qed.

Lemma clean_b_sound bl : clean_b bl = true -> clean bl.
Proof.
  unfold clean_b, clean. rewrite forallb_forall, Forall_forall.
  intros H b Hb E. specialize (H b Hb). rewrite E in H. discriminate H.
Qed.

Lemma check_inv_sound s bl fl :
  check_rep s bl fl && clean_b bl = true -> heap_inv s bl fl.
Proof.
  rewrite andb_true_iff. intros [H1 H2]. split.
  - apply check_rep_sound. exact H1.
  - apply clean_b_sound. exact H2.
Qed.

(** An allocated block can be seen as a block in limbo. *)
Lemma rep_limbo s bl1 bp sz st bl2 fl :
  heap_rep s (bl1 ++ mkBlock bp sz st :: bl2) fl -> st <> Free ->
  heap_rep s (bl1 ++ mkBlock bp sz Limbo :: bl2) fl.
Proof.
  intros R Hst.
  assert (HB : In (mkBlock bp sz st) (bl1 ++ mkBlock bp sz st :: bl2)) by in_list.
  pose proof (rep_tagged _ _ _ R _ HB) as TB.
  pose proof (hr_chain _ _ _ R) as Hc. apply chain_split in Hc.
  destruct Hc as (_ & Hs1 & Hs2 & _). cbn [b_size] in *.
  destruct s as [m lo brk mx hb hd tl].
  change (bl1 ++ mkBlock bp sz Limbo :: bl2)
    with (bl1 ++ [mkBlock bp sz Limbo] ++ bl2).
  change (mkState m lo brk mx hb hd tl)
    with (with_mem (mkState m lo brk mx hb hd tl) m).
  apply rep_retile with (old := [mkBlock bp sz st]) (a := bp) (e := bp + sz).
  - exact R.
  - discriminate.
  - cbn [chain b_addr b_size]. auto.
  - cbn [chain b_addr b_size]. auto.
  - destruct st; [reflexivity|congruence|reflexivity].
  - constructor; [|constructor]. unfold tagged in *.
    cbn [b_addr b_size b_status mem] in *.
    destruct st; [right; tauto|congruence|exact TB].
  - reflexivity.
  - reflexivity.
Qed.


(** ** [find_fit] *)

Section FindFit.
Variables (s : state) (bl : list block) (fl : list Z).
Hypothesis R : heap_rep s bl fl.

Lemma node_word y :
  In y fl ->
  mem_start_brk s <= y /\ y + 12 <= mem_brk s /\ 0 < y /\
  rd (mem s) y mod 8 = 0 /\ 16 <= rd (mem s) y < two31 /\
  In (mkBlock y (rd (mem s) y) Free) bl.
Proof.
  intros Hy. destruct (rep_node _ _ _ R y Hy) as (b & Hb & <- & Fb).
  pose proof (rep_block _ _ _ R b Hb) as H.
  pose proof (rep_tagged _ _ _ R b Hb) as Tb. unfold tagged in Tb.
  rewrite Fb in Tb. destruct Tb as [Tb _]. rewrite Tb.
  pose proof (hr_lo _ _ _ R). unfold b_end in *.
  repeat split; try lia.
  destruct b as [a sz st]. cbn [b_addr b_size b_status] in *. subst st.
  exact Hb.
Qed.

Lemma wp_node_size T y Q :
  In y fl -> Q (rd (mem s) y) s -> wp T (get_size y) s Q.
Proof.
  intros Hy HQ. destruct (node_word y Hy) as (H1 & H2 & H3 & H4 & H5 & _).
  eapply wp_get_size with (sz := rd (mem s) y) (al := 0); [side..|exact HQ].
Qed.

Lemma find_fit_from_head_spec (T : Prop) size l1 l2 fuel :
  fl = l1 ++ l2 -> T \/ (length l2 < fuel)%nat ->
  wp T (find_fit_from_head fuel size (hd 0 l2)) s
     (fun r s' => r = scan_fit size (sized s l2) /\ s' = s).
Proof.
  revert l1 fuel. induction l2 as [|x r IH]; intros l1 fuel E Hf.
  - destruct fuel as [|fuel]; [destruct Hf as [Hf|Hf]; [exact Hf|cbn in Hf; lia]|].
    cbn. auto.
  - destruct fuel as [|fuel]; [destruct Hf as [Hf|Hf]; [exact Hf|cbn in Hf; lia]|].
    cbn [length] in Hf. cbn [hd find_fit_from_head sized map scan_fit].
    assert (Hx : In x fl) by (rewrite E; in_list).
    destruct (node_word x Hx) as (X1 & X2 & X3 & _).
    replace (x =? 0) with false by (symmetry; apply Z.eqb_neq; lia).
    pose proof (hr_links _ _ _ R) as Hl. rewrite E in Hl.
    apply links_app in Hl. destruct Hl as (_ & Hl). cbn [links] in Hl.
    destruct Hl as (_ & Hn & _).
    apply wp_bind. apply wp_node_size; [exact Hx|].
    destruct (rd (mem s) x >=? size) eqn:Efit.
    + apply wp_bind. apply wp_load_ptr; [lia..|]. rewrite Hn.
      destruct r as [|y r'].
      * cbn [hd Z.eqb negb]. apply wp_ret. auto.
      * cbn [hd map].
        assert (Hy : In y fl) by (rewrite E; in_list).
        destruct (node_word y Hy) as (Y1 & Y2 & Y3 & _).
        replace (y =? 0) with false by (symmetry; apply Z.eqb_neq; lia).
        cbn [negb]. apply wp_bind. apply wp_load_ptr; [lia..|]. rewrite Hn.
        cbn [hd]. apply wp_bind. apply wp_node_size; [exact Hy|].
        destruct ((rd (mem s) y <? rd (mem s) x) && (rd (mem s) y >=? size)).
        -- apply wp_load_ptr; [lia..|]. rewrite Hn. cbn [hd]. auto.
        -- apply wp_ret. auto.
    + apply wp_bind. apply wp_load_ptr; [lia..|]. rewrite Hn.
      apply (IH (l1 ++ [x]) fuel); [rewrite <- app_assoc; exact E|].
    destruct Hf as [Hf|Hf]; [left; exact Hf|right; lia].
Qed.

Lemma find_fit_from_tail_spec (T : Prop) size l1 l2 fuel :
  fl = l1 ++ l2 -> T \/ (length l1 < fuel)%nat ->
  wp T (find_fit_from_tail fuel size (last l1 0)) s
     (fun r s' => r = scan_fit size (rev (sized s l1)) /\ s' = s).
Proof.
  revert l2 fuel. induction l1 as [|x l IH] using rev_ind; intros l2 fuel E Hf.
  - destruct fuel as [|fuel]; [destruct Hf as [Hf|Hf]; [exact Hf|cbn in Hf; lia]|].
    cbn. auto.
  - rewrite length_app in Hf. cbn [length] in Hf.
    destruct fuel as [|fuel]; [destruct Hf as [Hf|Hf]; [exact Hf|lia]|].
    rewrite last_last. unfold sized. rewrite map_app, rev_app_distr.
    cbn [map rev app find_fit_from_tail scan_fit].
    fold (sized s l).
    assert (Hx : In x fl) by (rewrite E; in_list).
    destruct (node_word x Hx) as (X1 & X2 & X3 & _).
    replace (x =? 0) with false by (symmetry; apply Z.eqb_neq; lia).
    pose proof (hr_links _ _ _ R) as Hl. rewrite E, <- app_assoc in Hl.
    apply links_app in Hl. destruct Hl as (_ & Hl). cbn [app links] in Hl.
    destruct Hl as (Hp & _).
    apply wp_bind. apply wp_node_size; [exact Hx|].
    destruct (rd (mem s) x >=? size) eqn:Efit.
    + apply wp_bind. apply wp_load_ptr; [lia..|]. rewrite Hp.
      destruct (snoc_cases l) as [->|(l' & y & ->)].
      * cbn [last Z.eqb negb rev sized map]. apply wp_ret. auto.
      * rewrite last_last. unfold sized. rewrite map_app, rev_app_distr.
        cbn [map rev app].
        assert (Hy : In y fl) by (rewrite E; in_list).
        destruct (node_word y Hy) as (Y1 & Y2 & Y3 & _).
        replace (y =? 0) with false by (symmetry; apply Z.eqb_neq; lia).
        cbn [negb]. apply wp_bind. apply wp_load_ptr; [lia..|]. rewrite Hp.
        rewrite last_last. apply wp_bind. apply wp_node_size; [exact Hy|].
        destruct ((rd (mem s) y <? rd (mem s) x) && (rd (mem s) y >=? size)).
        -- apply wp_load_ptr; [lia..|]. rewrite Hp, last_last. auto.
        -- apply wp_ret. auto.
    + apply wp_bind. apply wp_load_ptr; [lia..|]. rewrite Hp.
      apply (IH (x :: l2) fuel); [rewrite <- app_assoc in E; exact E|].
    destruct Hf as [Hf|Hf]; [left; exact Hf|right; lia].
Qed.

Lemma find_fit_spec (T : Prop) size fuel :
  T \/ (length fl < fuel)%nat ->
  wp T (find_fit fuel size) s
     (fun r s' =>
        r = scan_fit size (if size >? 270 then rev (sized s fl)
                           else sized s fl) /\ s' = s).
Proof.
  intros Hf. unfold find_fit. destruct (size >? 270).
  - apply wp_bind. apply wp_get_tail. rewrite (hr_tail _ _ _ R).
    apply (find_fit_from_tail_spec T size fl []); [rewrite app_nil_r; reflexivity|exact Hf].
  - apply wp_bind. apply wp_get_head. rewrite (hr_head _ _ _ R).
    apply (find_fit_from_head_spec T size [] fl); [reflexivity|exact Hf].
Qed.
End FindFit.

(** What the search returns. *)
Lemma scan_fit_none size l :
  Forall (fun p => fst p <> 0) l ->
  (scan_fit size l = 0 <-> Forall (fun p => snd p < size) l).
Proof.
  induction l as [|[x sx] r IH]; intros Hnz; cbn [scan_fit].
  - split; [constructor|reflexivity].
  - inversion Hnz as [|? ? Hx Hr]; subst. cbn [fst] in Hx.
    destruct (sx >=? size) eqn:E.
    + apply Z.geb_le in E. split.
      * intros H. exfalso. destruct r as [|[y sy] r']; [contradiction|].
        inversion Hr as [|? ? Hy _]; subst. cbn [fst] in Hy.
        destruct ((sy <? sx) && (sy >=? size)); contradiction.
      * intros H. inversion H; subst. cbn [snd] in *. lia.
    + assert (sx < size) by (rewrite Z.geb_leb in E; apply Z.leb_gt in E; lia).
      rewrite (IH Hr). split.
      * intros H'. constructor; assumption.
      * intros H'. inversion H'; assumption.
Qed.

Lemma scan_fit_some size l :
  scan_fit size l <> 0 ->
  exists sz, In (scan_fit size l, sz) l /\ size <= sz.
Proof.
  induction l as [|[x sx] r IH]; cbn [scan_fit]; [congruence|].
  destruct (sx >=? size) eqn:E.
  - apply Z.geb_le in E. destruct r as [|[y sy] r'].
    + intros _. exists sx. split; [left; reflexivity|exact E].
    + destruct ((sy <? sx) && (sy >=? size)) eqn:E2; intros _.
      * apply andb_true_iff in E2. destruct E2 as [_ E2]. apply Z.geb_le in E2.
        exists sy. split; [right; left; reflexivity|exact E2].
      * exists sx. split; [left; reflexivity|exact E].
  - intros H. destruct (IH H) as (sz & Hi & Hs). exists sz. split; [right; exact Hi|exact Hs].
Qed.

(** A block found by the search is a free block that is large enough. *)
Lemma scan_result s bl fl size r :
  heap_rep s bl fl ->
  r = scan_fit size (if size >? 270 then rev (sized s fl) else sized s fl) ->
  r <> 0 ->
  In r fl /\ In (mkBlock r (rd (mem s) r) Free) bl /\ size <= rd (mem s) r.
Proof.
  intros R Hr Hne.
  set (L := if size >? 270 then rev (sized s fl) else sized s fl) in *.
  assert (HL : forall p, In p L <-> In p (sized s fl)).
  { intros p. unfold L. destruct (size >? 270); [|reflexivity].
    symmetry. apply in_rev. }
  rewrite Hr in Hne. destruct (scan_fit_some size L Hne) as (sz & Hi & Hs).
  rewrite <- Hr in Hi. apply HL in Hi. unfold sized in Hi.
  apply in_map_iff in Hi. destruct Hi as (y & Ey & Hy).
  injection Ey as -> <-. split; [exact Hy|].
  destruct (node_word s bl fl R r Hy) as (_ & _ & _ & _ & _ & Hb). auto.
Qed.

(** ** Growing the region *)

Lemma evolves_refl s bl : evolves s bl s bl.
Proof.
  split; [reflexivity|]. split.
  - intros b Hb _. exact Hb.
  - intros b _ _ x _. reflexivity.
Qed.

Lemma evolves_trans s1 bl1 s2 bl2 s3 bl3 :
  evolves s1 bl1 s2 bl2 -> evolves s2 bl2 s3 bl3 -> evolves s1 bl1 s3 bl3.
Proof.
  intros (A1 & A2 & A3) (B1 & B2 & B3). split; [congruence|]. split.
  - intros b Hb Sb. apply B2; auto.
  - intros b Hb Sb x Hx. rewrite (B3 b); auto.
    apply (A3 b); auto.
Qed.

Lemma keeps_payloads_sub l l' m m' :
  keeps_payloads l m m' -> incl l' l -> keeps_payloads l' m m'.
Proof. intros H Hi b Hb. apply H. apply Hi. exact Hb. Qed.

Lemma keeps_allocated_sub l l' bl' :
  keeps_allocated l bl' -> incl l' l -> keeps_allocated l' bl'.
Proof. intros H Hi b Hb. apply H. apply Hi. exact Hb. Qed.

(** The state in which [extend_heap] calls [free_coalesce]: the old
    epilogue has become the header of a new block in limbo. *)
Lemma rep_grow s bl fl size m' :
  heap_rep s bl fl -> 16 <= size -> size mod 8 = 0 ->
  mem_brk s + size <= mem_max_addr s ->
  (forall x, x < mem_brk s - 4 -> m' x = mem s x) ->
  rd m' (mem_brk s - 4) = size ->
  rd m' (mem_brk s + size - 4) = 1 ->
  heap_rep (with_mem (with_brk s (mem_brk s + size)) m')
           (bl ++ [mkBlock (mem_brk s - 4) size Limbo]) fl.
Proof.
  intros R Hs Hs8 Hmax Hout Hh He.
  pose proof R as R'.
  destruct R' as [R1 R2 R3 R4 R5 R6 R7 R8 R9 R10 R11 R12 R13].
  pose proof (chain_le _ _ _ R6) as Hle.
  constructor; proj_simpl; auto.
  - lia.
  - destruct R5 as [P1 P2]. split.
    + rewrite <- P1. apply rd_ext. intros x Hx. apply Hout. lia.
    + rewrite <- P2. apply rd_ext. intros x Hx. apply Hout. lia.
  - apply chain_app. exists (mem_brk s - 4). split; [exact R6|].
    cbn [chain b_addr b_size]. repeat split; auto. lia.
  - apply Forall_app. split.
    + apply tags_frame with (mem s); [exact R8|]. intros b Hb x Hx.
      apply Hout. pose proof (rep_block _ _ _ R b Hb). unfold b_end in *. lia.
    + constructor; [|constructor]. unfold tagged. cbn [b_addr b_size b_status].
      left. exact Hh.
  - apply links_frame with (mem s); [exact R9|]. intros y Hy x Hx.
    apply Hout. destruct (rep_node _ _ _ R y Hy) as (b & Hb & <- & _).
    pose proof (rep_block _ _ _ R b Hb). unfold b_end in *. lia.
  - intros x. rewrite R13, free_addrs_app, free_addrs_cons.
    cbn [is_free b_status free_addrs filter map app]. rewrite app_nil_r.
    reflexivity.
Qed.

Lemma extend_heap_full T (K : Prop) s bl fl size Q :
  heap_inv s bl fl -> 16 <= size -> size mod 8 = 0 ->
  (K -> coalesced bl) ->
  (mem_max_addr s < mem_brk s + size -> Q 0 s) ->
  (mem_brk s + size <= mem_max_addr s ->
   forall r s' bl' fl' rsz,
     heap_inv s' bl' fl' -> evolves s bl s' bl' ->
     heap_blocks s' = heap_blocks s ->
     mem_brk s' = mem_brk s + size -> mem_max_addr s' = mem_max_addr s ->
     In (mkBlock r rsz Free) bl' -> size <= rsz ->
     r + rsz = mem_brk s' - 4 ->
     (forall b, In b bl' -> b = mkBlock r rsz Free \/ In b bl) ->
     (length fl' <= S (length fl))%nat ->
     (K -> coalesced bl') -> Q r s') ->
  wp T (extend_heap size) s Q.
Proof.
  intros [R C] Hs Hs8 HK HQ0 HQ. unfold extend_heap.
  pose proof (hr_lo _ _ _ R) as Hlo. pose proof (hr_max _ _ _ R) as Hmax.
  pose proof (chain_le _ _ _ (hr_chain _ _ _ R)) as Hle.
  apply wp_bind. apply wp_mem_sbrk.
  - intros Hno. cbn [Z.eqb]. apply wp_ret. apply HQ0. lia.
  - intros _ Hfit. specialize (HQ Hfit).
    replace (mem_brk s =? -1) with false by (symmetry; apply Z.eqb_neq; lia).
    assert (Ht : size mod two32 = size).
    { apply Z.mod_small. unfold two31, two32 in *. lia. }
    apply wp_bind. apply wp_set_header; proj_simpl; [side..|].
    apply wp_bind.
    eapply wp_set_footer with (cur := size) (cal := 0); proj_simpl;
      [side|side|rewrite rd_wr_same, !Z.add_0_r; exact Ht|side..|].
    apply wp_bind.
    eapply wp_get_next with (sz := size) (al := 0); proj_simpl;
      [side|side|rewrite rd_wr_other by lia; rewrite rd_wr_same, !Z.add_0_r; exact Ht
      |side..|].
    apply wp_bind. apply wp_set_header; proj_simpl; [side..|].
    rewrite !Z.add_0_r. cbn [Z.add].
    set (m3 := wr (wr (wr (mem s) (mem_brk s - 4) size)
                      (mem_brk s - 4 + size - 4) size)
                  (mem_brk s - 4 + size) 1).
    match goal with |- wp _ _ ?st _ =>
      change st with (with_mem (with_brk s (mem_brk s + size)) m3) end.
    assert (R3 : heap_rep (with_mem (with_brk s (mem_brk s + size)) m3)
                          (bl ++ [mkBlock (mem_brk s - 4) size Limbo]) fl).
    { apply rep_grow; auto.
      - intros x Hx. unfold m3. rewrite !wr_other by lia. reflexivity.
      - unfold m3. rewrite !rd_wr_other by lia. rewrite rd_wr_same. exact Ht.
      - unfold m3. replace (mem_brk s + size - 4) with (mem_brk s - 4 + size) by lia.
        rewrite rd_wr_same. reflexivity. }
    apply free_coalesce_full with (K := K) (bl1 := bl) (sz := size)
                                  (bl2 := []) (fl := fl);
      auto; [constructor| |].
    { intros k. specialize (HK k). statuses.
      apply no_ff_nonfree with (mid := []) (l2 := []) (a := Limbo) (mid' := []).
      - rewrite !app_nil_r. exact HK.
      - constructor; [discriminate|constructor]. }
    intros r s' bl' fl' rsz I' Sr Ka Kp _ Hr Hr1 Hr2 Hold Hlen HK'.
    rewrite app_nil_r in *.
    destruct Sr as (S1 & S2 & S3 & S4). proj_simpl.
    assert (Hend : r + rsz = mem_brk s' - 4).
    { destruct I' as [R' _]. pose proof (rep_block _ _ _ R' _ Hr) as Hb.
      unfold b_end in Hb. cbn [b_addr b_size] in Hb. lia. }
    apply HQ with bl' fl' rsz; auto; [|lia].
    split; [exact S1|]. split; [exact Ka|].
    intros b Hb Sb x Hx. rewrite (Kp b Hb Sb x Hx). proj_simpl.
    unfold m3. pose proof (rep_block _ _ _ R b Hb). unfold b_end in *.
    rewrite !wr_other by lia. reflexivity.
Qed.

Lemma extend_heap_spec T s bl fl size Q :
  heap_inv s bl fl -> 16 <= size -> size mod 8 = 0 ->
  (forall r s' bl' fl',
     heap_inv s' bl' fl' -> evolves s bl s' bl' ->
     heap_blocks s' = heap_blocks s -> Q r s') ->
  wp T (extend_heap size) s Q.
Proof.
  intros I0 Hs Hs8 HQ.
  apply extend_heap_full with (K := False) (bl := bl) (fl := fl); auto.
  - intros [].
  - intros _. apply HQ with bl fl; [exact I0|apply evolves_refl|reflexivity].
  - intros _ r s' bl' fl' rsz I' Ev Hb _ _ _ _ _ _ _ _.
    apply HQ with bl' fl'; assumption.
Qed.

(** ** [place] *)

Ltac bounds := proj_simpl; unfold b_end in *; cbn [b_addr b_size] in *; side.

Ltac word :=
  proj_simpl; rdwr;
  rewrite ?Z.mod_small by (unfold two31, two32 in *; lia);
  first [reflexivity | lia | assumption | rewrite Z.add_0_r; assumption].

Ltac wp_size sz' al' :=
  apply wp_bind; eapply wp_get_size with (sz := sz') (al := al');
  [bounds | bounds | word | bounds ..|].
Ltac wp_next sz' al' :=
  apply wp_bind; eapply wp_get_next with (sz := sz') (al := al');
  [bounds | bounds | word | bounds ..|].
Ltac wp_hdr :=
  apply wp_bind; apply wp_set_header; [bounds ..|].
Ltac wp_ftr cur' cal' :=
  apply wp_bind; eapply wp_set_footer with (cur := cur') (cal := cal');
  [bounds | bounds | word | bounds ..|].

Lemma only_links_payloads s bl fl m' :
  heap_rep s bl fl -> only_links fl (mem s) m' ->
  keeps_payloads bl (mem s) m'.
Proof.
  intros R Hol b Hb Sb x Hx. apply Hol. intros y Hy.
  apply (allocated_not_link _ _ _ R b y x); auto. unfold b_end in *. lia.
Qed.

Lemma clean_split bl1 b bl2 :
  clean (bl1 ++ b :: bl2) -> clean bl1 /\ b_status b <> Limbo /\ clean bl2.
Proof.
  intros H. apply clean_app in H. destruct H as [H1 H2].
  apply clean_cons in H2. tauto.
Qed.

(** Allocated blocks of [l1 ++ F :: l2], with [F] free, are in [l1] or
    [l2] and lie outside [F]. *)
Lemma allocated_outside a l1 F l2 e b :
  chain a (l1 ++ F :: l2) e -> b_status F <> Allocated ->
  In b (l1 ++ F :: l2) -> b_status b = Allocated ->
  In b (l1 ++ l2) /\ (b_end b <= b_addr F \/ b_end F <= b_addr b).
Proof.
  intros Hc HF Hb Sb. apply in_app_or in Hb. destruct Hb as [Hb|[<-|Hb]].
  - split; [in_list|]. left. apply chain_split in Hc. destruct Hc as (Hc & _).
    apply (chain_in_bounds _ _ _ _ Hc Hb).
  - congruence.
  - split; [in_list|]. right. apply chain_split in Hc.
    destruct Hc as (_ & _ & _ & Hc). apply (chain_in_bounds _ _ _ _ Hc Hb).
Qed.

Lemma place_full T (K : Prop) s bl fl bp bsz size Q :
  heap_inv s bl fl -> In (mkBlock bp bsz Free) bl ->
  16 <= size -> size mod 8 = 0 -> size <= bsz ->
  (K -> coalesced bl) ->
  (forall r s' bl' fl' rsz,
     heap_inv s' bl' fl' -> same_region s s' -> evolves s bl s' bl' ->
     In (mkBlock r rsz Allocated) bl' -> size <= rsz ->
     bp <= r -> r + rsz <= bp + bsz -> placed bp bsz size r rsz ->
     (forall b, In b bl' -> b_status b = Allocated ->
                b = mkBlock r rsz Allocated \/ In b bl) ->
     (K -> coalesced bl') -> Q r s') ->
  wp T (place bp size) s Q.
Proof.
  intros [R C] HF Hs Hs8 Hfit HK HQ. unfold place.
  pose proof (rep_block _ _ _ R _ HF) as HFb.
  pose proof (rep_tagged _ _ _ R _ HF) as [TF _].
  pose proof (hr_lo _ _ _ R) as Hlo. pose proof (hr_max _ _ _ R) as Hmax.
  unfold b_end in *. cbn [b_addr b_size] in *.
  destruct HFb as (Fb1 & Fb2 & Fb3 & Fb4 & Fb5).
  assert (Hbfl : In bp fl).
  { apply (hr_free _ _ _ R). apply in_free_addrs. exists (mkBlock bp bsz Free). auto. }
  apply in_split in HF. destruct HF as (bl1 & bl2 & ->).
  apply in_split in Hbfl. destruct Hbfl as (l1 & l2 & ->).
  apply clean_split in C. destruct C as (C1 & _ & C2).
  pose proof (hr_chain _ _ _ R) as Hc.
  wp_size bsz 0.
  rewrite to_int_small by (unfold two31 in *; lia).
  apply wp_bind. apply free_list_remove_spec with l1 l2.
  { apply (rep_fl_rep _ _ _ R). }
  intros s1 F1 Hol1 Sr1.
  pose proof (rep_remove _ _ _ _ _ _ _ _ R F1 Sr1 Hol1) as R1.
  pose proof (only_links_payloads _ _ _ _ R Hol1) as Kp1.
  assert (HB1 : In (mkBlock bp bsz Limbo) (bl1 ++ mkBlock bp bsz Limbo :: bl2)) by in_list.
  pose proof (rep_tagged _ _ _ R1 _ HB1) as TB1. apply limbo_word in TB1.
  destruct TB1 as (al1 & Hal1 & TB1). cbn [b_addr b_size] in TB1.
  destruct Sr1 as (A1 & A2 & A3 & A4).
  assert (Sr1 : same_region s s1) by (repeat split; assumption).
  assert (Hkeep : forall b, In b (bl1 ++ mkBlock bp bsz Free :: bl2) ->
            b_status b = Allocated ->
            In b (bl1 ++ bl2) /\ (b_end b <= bp \/ bp + bsz <= b_addr b)).
  { intros b Hb Sb.
    apply (allocated_outside _ _ _ _ _ _ Hc); auto. discriminate. }
  destruct (bsz - size <=? 8) eqn:Esmall.
  - (* the whole block is used *)
    wp_size bsz al1. wp_hdr. wp_size bsz 1. wp_ftr bsz 1.
    apply wp_ret.
    set (m3 := wr (wr (mem s1) bp (bsz + 1)) (bp + bsz - 4) (bsz + 1)).
    match goal with |- Q _ ?st => change st with (with_mem s1 m3) end.
    assert (Ht : (bsz + 1) mod two32 = bsz + 1).
    { apply Z.mod_small. unfold two31, two32 in *. lia. }
    assert (R3 : heap_rep (with_mem s1 m3)
                   (bl1 ++ [mkBlock bp bsz Allocated] ++ bl2) (l1 ++ l2)).
    { apply rep_retile with (old := [mkBlock bp bsz Limbo]) (a := bp) (e := bp + bsz).
      - exact R1.
      - discriminate.
      - cbn [chain b_addr b_size]. auto.
      - cbn [chain b_addr b_size]. auto.
      - reflexivity.
      - constructor; [|constructor]. unfold tagged, b_end, m3.
        cbn [b_addr b_size b_status]. split.
        + rewrite rd_wr_other by lia. rewrite rd_wr_same. exact Ht.
        + rewrite rd_wr_same. exact Ht.
      - intros x Hx. unfold m3. rewrite !wr_other by lia. reflexivity.
      - intros y []. }
    apply HQ with (bl' := bl1 ++ [mkBlock bp bsz Allocated] ++ bl2)
                  (fl' := l1 ++ l2) (rsz := bsz); try lia.
    + split; [exact R3|]. apply clean_app. split; [exact C1|].
      apply clean_cons. split; [discriminate|exact C2].
    + eapply same_region_trans; [exact Sr1|apply same_region_with_mem].
    + split; [proj_simpl; exact A1|]. split.
      * intros b Hb Sb. destruct (Hkeep b Hb Sb) as [Hi _].
        apply in_app_or in Hi. destruct Hi; in_list.
      * intros b Hb Sb x Hx. destruct (Hkeep b Hb Sb) as [_ Hd].
        proj_simpl. unfold m3. unfold b_end in *.
        rewrite !wr_other by lia. apply (Kp1 b Hb Sb x Hx).
    + in_list.
    + unfold placed. rewrite Esmall. auto.
    + intros b Hb _. apply in_app_or in Hb.
      destruct Hb as [Hb|[<-|Hb]]; [right; in_list|left; reflexivity|right; in_list].
    + intros k. specialize (HK k). statuses.
      apply (no_ff_nonfree _ [Free] _ Allocated []); [exact HK|].
      constructor; [discriminate|constructor].
  - apply Z.leb_gt in Esmall.
    assert (Hn16 : 16 <= bsz - size).
    { assert ((bsz - size) mod 8 = 0) by (Z.div_mod_to_equations; lia).
      Z.div_mod_to_equations. lia. }
    assert (Hn8 : (bsz - size) mod 8 = 0) by (Z.div_mod_to_equations; lia).
    set (nsz := bsz - size) in *.
    destruct (size >? 25) eqn:Eback.
    + (* allocated part at the end *)
      wp_hdr. wp_ftr nsz 0. wp_next nsz 0. wp_hdr. wp_next nsz 0.
      wp_ftr size 1. rewrite !Z.add_0_r.
      set (m5 := wr (wr (wr (wr (mem s1) bp nsz) (bp + nsz - 4) nsz)
                        (bp + nsz) (size + 1))
                    (bp + nsz + size - 4) (size + 1)).
      match goal with |- wp _ _ ?st _ => change st with (with_mem s1 m5) end.
      assert (Ht1 : nsz mod two32 = nsz).
      { apply Z.mod_small. unfold two31, two32, nsz in *. lia. }
      assert (Ht2 : (size + 1) mod two32 = size + 1).
      { apply Z.mod_small. unfold two31, two32 in *. lia. }
      assert (R5 : heap_rep (with_mem s1 m5)
                     (bl1 ++ [mkBlock bp nsz Limbo;
                              mkBlock (bp + nsz) size Allocated] ++ bl2)
                     (l1 ++ l2)).
      { apply rep_retile with (old := [mkBlock bp bsz Limbo]) (a := bp) (e := bp + bsz).
        - exact R1.
        - discriminate.
        - cbn [chain b_addr b_size]. auto.
        - cbn [chain b_addr b_size]. unfold nsz in *. repeat split; auto; lia.
        - reflexivity.
        - constructor; [|constructor; [|constructor]]; unfold tagged, b_end, m5;
            cbn [b_addr b_size b_status].
          + left. rewrite !rd_wr_other by lia. rewrite rd_wr_same. exact Ht1.
          + split.
            * rewrite rd_wr_other by lia. rewrite rd_wr_same. exact Ht2.
            * rewrite rd_wr_same. exact Ht2.
        - intros x Hx. unfold m5. rewrite !wr_other by (unfold nsz in *; lia).
          reflexivity.
        - intros y []. }
      apply wp_bind.
      apply free_coalesce_full
        with (K := K) (bl1 := bl1) (sz := nsz)
             (bl2 := mkBlock (bp + nsz) size Allocated :: bl2) (fl := l1 ++ l2);
        auto.
      { apply clean_cons. split; [discriminate|exact C2]. }
      { intros k. specialize (HK k). statuses.
        apply (no_ff_nonfree _ [Free] _ Limbo [Allocated]); [exact HK|].
        repeat constructor; discriminate. }
      intros r s6 bl' fl' rsz6 I6 Sr6 Ka6 Kp6 Hhd Hr6 _ _ Hold6 _ HK6.
      specialize (Hhd eq_refl).
      destruct Sr6 as (B1 & B2 & B3 & B4). proj_simpl.
      eapply wp_get_next with (sz := nsz) (al := 0);
        [lia|lia|rewrite Z.add_0_r; exact Hhd|bounds..|].
      apply HQ with (bl' := bl') (fl' := fl') (rsz := size);
        try (unfold nsz; lia); auto.
      * repeat split; congruence.
      * split; [congruence|]. split.
        -- intros b Hb Sb. destruct (Hkeep b Hb Sb) as [Hi _].
           apply Ka6; [|exact Sb]. apply in_app_or in Hi. destruct Hi; in_list.
        -- intros b Hb Sb x Hx. destruct (Hkeep b Hb Sb) as [Hi Hd].
           rewrite (Kp6 b); auto; [|apply in_app_or in Hi; destruct Hi; in_list].
           proj_simpl. unfold m5. unfold b_end in *.
           rewrite !wr_other by (unfold nsz in *; lia). apply (Kp1 b Hb Sb x Hx).
      * apply Ka6; [in_list|reflexivity].
      * unfold placed.
        replace (bsz - size <=? 8) with false
          by (symmetry; apply Z.leb_gt; exact Esmall).
        rewrite Eback. unfold nsz. auto.
      * intros b Hb Sb. destruct (Hold6 b Hb) as [E|Hi].
        -- subst b. discriminate Sb.
        -- apply in_app_or in Hi.
           destruct Hi as [Hi|[<-|Hi]]; [right; in_list|left; reflexivity|right; in_list].
    + (* allocated part at the start *)
      wp_hdr. wp_ftr size 1. wp_next size 1. wp_hdr. wp_next size 1.
      wp_ftr nsz 0. wp_next size 1. rewrite !Z.add_0_r.
      set (m5 := wr (wr (wr (wr (mem s1) bp (size + 1)) (bp + size - 4) (size + 1))
                        (bp + size) nsz)
                    (bp + size + nsz - 4) nsz).
      match goal with |- wp _ _ ?st _ => change st with (with_mem s1 m5) end.
      assert (Ht1 : nsz mod two32 = nsz).
      { apply Z.mod_small. unfold two31, two32, nsz in *. lia. }
      assert (Ht2 : (size + 1) mod two32 = size + 1).
      { apply Z.mod_small. unfold two31, two32 in *. lia. }
      assert (R5 : heap_rep (with_mem s1 m5)
                     (bl1 ++ [mkBlock bp size Allocated;
                              mkBlock (bp + size) nsz Limbo] ++ bl2)
                     (l1 ++ l2)).
      { apply rep_retile with (old := [mkBlock bp bsz Limbo]) (a := bp) (e := bp + bsz).
        - exact R1.
        - discriminate.
        - cbn [chain b_addr b_size]. auto.
        - cbn [chain b_addr b_size]. unfold nsz in *. repeat split; auto; lia.
        - reflexivity.
        - constructor; [|constructor; [|constructor]]; unfold tagged, b_end, m5;
            cbn [b_addr b_size b_status].
          + split.
            * rewrite !rd_wr_other by lia. rewrite rd_wr_same. exact Ht2.
            * rewrite !rd_wr_other by lia. rewrite rd_wr_same. exact Ht2.
          + left. rewrite rd_wr_other by lia. rewrite rd_wr_same. exact Ht1.
        - intros x Hx. unfold m5. rewrite !wr_other by (unfold nsz in *; lia).
          reflexivity.
        - intros y []. }
      apply wp_bind.
      apply free_coalesce_full
        with (K := K) (bl1 := bl1 ++ [mkBlock bp size Allocated]) (sz := nsz)
             (bl2 := bl2) (fl := l1 ++ l2); auto.
      { rewrite <- app_assoc. exact R5. }
      { apply clean_app. split; [exact C1|].
        apply clean_cons. split; [discriminate|constructor]. }
      { intros k. specialize (HK k). statuses.
        apply (no_ff_nonfree _ [Free] _ Allocated [Limbo]); [exact HK|].
        repeat constructor; discriminate. }
      intros r s6 bl' fl' rsz6 I6 Sr6 Ka6 Kp6 _ Hr6 _ _ Hold6 _ HK6.
      destruct Sr6 as (B1 & B2 & B3 & B4). proj_simpl.
      apply wp_ret.
      apply HQ with (bl' := bl') (fl' := fl') (rsz := size);
        try (unfold nsz; lia); auto.
      * repeat split; congruence.
      * split; [congruence|]. split.
        -- intros b Hb Sb. destruct (Hkeep b Hb Sb) as [Hi _].
           apply Ka6; [|exact Sb]. apply in_app_or in Hi. destruct Hi; in_list.
        -- intros b Hb Sb x Hx. destruct (Hkeep b Hb Sb) as [Hi Hd].
           rewrite (Kp6 b); auto; [|apply in_app_or in Hi; destruct Hi; in_list].
           proj_simpl. unfold m5. unfold b_end in *.
           rewrite !wr_other by (unfold nsz in *; lia). apply (Kp1 b Hb Sb x Hx).
      * apply Ka6; [in_list|reflexivity].
      * unfold placed.
        replace (bsz - size <=? 8) with false
          by (symmetry; apply Z.leb_gt; exact Esmall).
        rewrite Eback. auto.
      * intros b Hb Sb. destruct (Hold6 b Hb) as [E|Hi].
        -- subst b. discriminate Sb.
        -- apply in_app_or in Hi. destruct Hi as [Hi|Hi]; [|right; in_list].
           apply in_app_or in Hi.
           destruct Hi as [Hi|[<-|[]]]; [right; in_list|left; reflexivity].
Qed.

Lemma place_spec T s bl fl bp bsz size Q :
  heap_inv s bl fl -> In (mkBlock bp bsz Free) bl ->
  16 <= size -> size mod 8 = 0 -> size <= bsz ->
  (forall r s' bl' fl' rsz,
     heap_inv s' bl' fl' -> same_region s s' -> evolves s bl s' bl' ->
     In (mkBlock r rsz Allocated) bl' -> size <= rsz ->
     bp <= r -> r + rsz <= bp + bsz -> Q r s') ->
  wp T (place bp size) s Q.
Proof.
  intros I0 HF Hs Hs8 Hfit HQ.
  apply place_full with (K := False) (bl := bl) (fl := fl) (bsz := bsz); auto.
  - intros [].
  - intros r s' bl' fl' rsz I' Sr Ev Hr Hsz Hlo Hhi _ _ _.
    apply HQ with bl' fl' rsz; assumption.
Qed.

(** ** [mm_malloc] *)

Lemma required_block_size_ok n :
  0 <= n <= two31 - 16 ->
  let r := required_block_size (to_int n) in
  n + 8 <= r /\ r <= n + 15 /\ r mod 8 = 0 /\ 16 <= r + 8.
Proof.
  intros Hn. unfold required_block_size.
  rewrite (to_int_small n) by (unfold two31 in *; lia).
  rewrite (to_int_small (n + 8)) by (unfold two31 in *; lia).
  rewrite (to_int_small (n + 8 + 7)) by (unfold two31 in *; lia).
  assert (Hq : Z.quot (n + 8 + 7) 8 = (n + 8 + 7) / 8)
    by (apply Z.quot_div_nonneg; lia).
  rewrite Hq.
  assert (0 <= (n + 8 + 7) / 8 * 8 <= n + 15).
  { Z.div_mod_to_equations. lia. }
  rewrite to_int_small by (unfold two31 in *; lia).
  cbv zeta. Z.div_mod_to_equations. lia.
Qed.

Lemma alloc_post_trans s bl s1 bl1 r q s' :
  evolves s bl s1 bl1 -> heap_blocks s1 = heap_blocks s ->
  alloc_post s1 bl1 r q s' -> alloc_post s bl r q s'.
Proof.
  intros Ev Hb (bl' & fl' & qsz & I & Ev' & Hb' & Hq & Hr & Hfresh).
  exists bl', fl', qsz. split; [exact I|]. split; [|split; [congruence|]].
  - eapply evolves_trans; eassumption.
  - split; [exact Hq|]. split; [exact Hr|].
    intros b Hin Sb. apply Hfresh; [|exact Sb].
    destruct Ev as (_ & Ka & _). apply Ka; assumption.
Qed.

(** The code shared by the two places where [mm_malloc] has found a fit:
    search again, place, return the payload address. *)
Lemma fit_and_place_spec fuel s bl fl r :
  heap_inv s bl fl -> 16 <= r -> r mod 8 = 0 ->
  scan_fit r (if r >? 270 then rev (sized s fl) else sized s fl) <> 0 ->
  wp True (b1 <- find_fit fuel r ;; p <- place b1 r ;;
           ret (get_payload_addr p)) s (alloc_post s bl r).
Proof.
  intros [R C] Hr Hr8 Hne.
  apply wp_bind. eapply wp_mono; [apply (find_fit_spec s bl fl R True); left; exact I|].
  intros b1 s1 [Eb ->]. cbv beta.
  destruct (scan_result s bl fl r b1 R Eb) as (Hfl & Hb & Hsz);
    [rewrite Eb; exact Hne|].
  pose proof (hr_chain _ _ _ R) as Hc.
  apply wp_bind.
  apply place_spec with (bl := bl) (fl := fl) (bsz := rd (mem s) b1); auto.
  { split; assumption. }
  intros p s' bl' fl' rsz I' Sr Ev Hp Hrs Hlo Hhi. apply wp_ret.
  unfold get_payload_addr. exists bl', fl', rsz.
  replace (p + 4 - 4) with p by lia.
  destruct Sr as (S1 & S2 & S3 & S4).
  split; [exact I'|]. split; [exact Ev|]. split; [exact S4|].
  split; [exact Hp|]. split; [exact Hrs|].
  intros b Hin Sb E.
  destruct (chain_disjoint _ _ _ _ _ Hc Hin Hb) as [E'|E'].
  - subst b. discriminate Sb.
  - pose proof (chain_in_size _ _ _ _ Hc Hin).
    destruct I' as [R' _]. pose proof (rep_block _ _ _ R' _ Hp) as Hpb.
    unfold b_end in *. cbn [b_addr b_size] in *. lia.
Qed.

Lemma malloc_grow_spec fit_fuel r fuel :
  16 <= r -> r mod 8 = 0 ->
  forall s bl fl, heap_inv s bl fl ->
  wp True (malloc_grow fuel fit_fuel r) s (alloc_post s bl r).
Proof.
  intros Hr Hr8. induction fuel as [|fuel IH]; intros s bl fl I0; [exact I|].
  cbn [malloc_grow].
  apply wp_bind. apply extend_heap_spec with bl fl; auto.
  intros r0 s1 bl1 fl1 I1 Ev1 Hb1.
  apply wp_bind.
  eapply wp_mono;
    [apply (find_fit_spec s1 bl1 fl1 (proj1 I1) True); left; exact I|].
  intros b s1' [Eb ->]. cbv beta.
  destruct (b =? 0) eqn:Ez; cbn [negb].
  - eapply wp_mono; [apply (IH s1 bl1 fl1 I1)|].
    intros q s' Hpost. eapply alloc_post_trans; eassumption.
  - apply Z.eqb_neq in Ez.
    eapply wp_mono; [apply (fit_and_place_spec fit_fuel s1 bl1 fl1 r I1 Hr Hr8)|].
    + rewrite <- Eb. exact Ez.
    + intros q s' Hpost. eapply alloc_post_trans; eassumption.
Qed.

Lemma mm_malloc_spec fuel s bl fl n :
  heap_inv s bl fl -> 0 < n <= two31 - 16 ->
  wp True (mm_malloc fuel n) s
     (alloc_post s bl (required_block_size (to_int n))).
Proof.
  intros I0 Hn. unfold mm_malloc.
  replace (n =? 0) with false by (symmetry; apply Z.eqb_neq; lia).
  destruct (required_block_size_ok n ltac:(lia)) as (H1 & H2 & H3 & H4).
  set (r := required_block_size (to_int n)) in *.
  assert (Hr : 16 <= r) by (clearbody r; Z.div_mod_to_equations; lia).
  apply wp_bind.
  eapply wp_mono;
    [apply (find_fit_spec s bl fl (proj1 I0) True); left; exact I|].
  intros b s1 [Eb ->]. cbv beta.
  destruct (b =? 0) eqn:Ez; cbn [negb].
  - apply wp_bind.
    eapply wp_mono;
      [apply (find_fit_spec s bl fl (proj1 I0) True); left; exact I|].
    intros b2 s1 [Eb2 ->]. cbv beta. rewrite Eb2, <- Eb, Ez.
    apply (malloc_grow_spec fuel r fuel Hr H3 s bl fl I0).
  - apply Z.eqb_neq in Ez.
    apply (fit_and_place_spec fuel s bl fl r I0 Hr H3).
    rewrite <- Eb. exact Ez.
Qed.
(** * [mm_malloc]: termination and growth *)

Lemma wp_weaken {A} (T : Prop) (c : M A) s Q : T -> wp True c s Q -> wp T c s Q.
Proof. unfold wp. destruct (c s) as [[a s']| |]; auto. Qed.

Lemma scan_fit_has_fit s bl fl size :
  heap_rep s bl fl ->
  (scan_fit size (if size >? 270 then rev (sized s fl) else sized s fl) <> 0
   <-> has_fit bl size).
Proof.
  intros R.
  set (L := if size >? 270 then rev (sized s fl) else sized s fl).
  assert (HL : forall p, In p L <-> In p (sized s fl)).
  { intros p. unfold L. destruct (size >? 270); [|reflexivity].
    symmetry. apply in_rev. }
  assert (Hnz : Forall (fun p => fst p <> 0) L).
  { apply Forall_forall. intros p Hp. apply HL in Hp. unfold sized in Hp.
    apply in_map_iff in Hp. destruct Hp as (y & <- & Hy). cbn [fst].
    pose proof (node_word s bl fl R y Hy). lia. }
  split.
  - intros Hne. destruct (scan_fit_some size L Hne) as (sz & Hi & Hs).
    apply HL in Hi. unfold sized in Hi. apply in_map_iff in Hi.
    destruct Hi as (y & Ey & Hy). injection Ey as Ey <-.
    destruct (node_word s bl fl R y Hy) as (_ & _ & _ & _ & _ & Hb).
    exists (mkBlock y (rd (mem s) y) Free). auto.
  - intros (b & Hb & Fb & Hs) Hz.
    rewrite (scan_fit_none size L Hnz), Forall_forall in Hz.
    assert (Hy : In (b_addr b) fl).
    { apply (hr_free _ _ _ R). apply in_free_addrs. exists b. auto. }
    assert (Hp : In (b_addr b, rd (mem s) (b_addr b)) L).
    { apply HL. unfold sized. apply in_map_iff. exists (b_addr b). auto. }
    specialize (Hz _ Hp). cbn [snd] in Hz.
    pose proof (rep_tagged _ _ _ R b Hb) as Tb. unfold tagged in Tb.
    rewrite Fb in Tb. destruct Tb as [Tb _]. lia.
Qed.

Lemma fit_and_place_full T (K : Prop) fuel s bl fl r Q :
  heap_inv s bl fl -> 16 <= r -> r mod 8 = 0 ->
  has_fit bl r -> (K -> coalesced bl) ->
  T \/ (length fl < fuel)%nat ->
  (forall q s' bl' fl' qsz,
     heap_inv s' bl' fl' -> same_region s s' -> evolves s bl s' bl' ->
     In (mkBlock (q - 4) qsz Allocated) bl' -> r <= qsz ->
     (forall b, In b bl -> b_status b = Allocated -> b_addr b <> q - 4) ->
     (forall b, In b bl' -> b_status b = Allocated ->
                b = mkBlock (q - 4) qsz Allocated \/ In b bl) ->
     (K -> coalesced bl') -> Q q s') ->
  wp T (b1 <- find_fit fuel r ;; p <- place b1 r ;;
        ret (get_payload_addr p)) s Q.
Proof.
  intros [R C] Hr Hr8 Hfit HK Hfuel HQ.
  apply (scan_fit_has_fit s bl fl r R) in Hfit.
  apply wp_bind.
  eapply wp_mono; [apply (find_fit_spec s bl fl R T r fuel Hfuel)|].
  intros b1 s1 [Eb ->]. cbv beta.
  destruct (scan_result s bl fl r b1 R Eb) as (Hfl & Hb & Hsz);
    [rewrite Eb; exact Hfit|].
  pose proof (hr_chain _ _ _ R) as Hc.
  apply wp_bind.
  apply place_full with (K := K) (bl := bl) (fl := fl) (bsz := rd (mem s) b1);
    auto.
  { split; assumption. }
  intros p s' bl' fl' rsz I' Sr Ev Hp Hrs Hlo Hhi _ Hnew HK'. apply wp_ret.
  unfold get_payload_addr.
  apply HQ with bl' fl' rsz; auto;
    replace (p + 4 - 4) with p by lia; auto.
  intros b Hin Sb E.
  destruct (chain_disjoint _ _ _ _ _ Hc Hin Hb) as [E'|E'].
  - subst b. discriminate Sb.
  - pose proof (chain_in_size _ _ _ _ Hc Hin).
    destruct I' as [R' _]. pose proof (rep_block _ _ _ R' _ Hp) as Hpb.
    unfold b_end in *. cbn [b_addr b_size] in *. lia.
Qed.

Lemma malloc_grow_full T (K : Prop) fit_fuel r fuel :
  16 <= r -> r mod 8 = 0 ->
  forall s bl fl Q,
  heap_inv s bl fl -> ~ has_fit bl r -> (K -> coalesced bl) ->
  T \/ (mem_brk s + r <= mem_max_addr s /\
        (S (length fl) < fit_fuel)%nat /\ fuel <> O) ->
  (forall q s' bl' fl' qsz,
     heap_inv s' bl' fl' -> evolves s bl s' bl' ->
     heap_blocks s' = heap_blocks s ->
     mem_brk s' = mem_brk s + r -> mem_max_addr s' = mem_max_addr s ->
     In (mkBlock (q - 4) qsz Allocated) bl' -> r <= qsz ->
     (forall b, In b bl -> b_status b = Allocated -> b_addr b <> q - 4) ->
     (forall b, In b bl' -> b_status b = Allocated ->
                b = mkBlock (q - 4) qsz Allocated \/ In b bl) ->
     (K -> coalesced bl') -> Q q s') ->
  wp T (malloc_grow fuel fit_fuel r) s Q.
Proof.
  intros Hr Hr8. induction fuel as [|fuel IH]; intros s bl fl Q I0 Hnf HK Hc HQ.
  - destruct Hc as [t|(_ & _ & Hf)]; [exact t|contradiction].
  - cbn [malloc_grow]. pose proof I0 as [R0 _].
    apply wp_bind. apply extend_heap_full with (K := K) (bl := bl) (fl := fl); auto.
    + intros Hno.
      assert (t : T) by (destruct Hc as [t|(Hroom & _)]; [exact t|lia]).
      apply wp_bind.
      eapply wp_mono; [apply (find_fit_spec s bl fl R0 T r fit_fuel); left; exact t|].
      intros b s1 [Eb ->]. cbv beta.
      assert (Ez : b = 0).
      { destruct (Z.eq_dec b 0) as [E|E]; [exact E|]. exfalso. apply Hnf.
        apply (scan_fit_has_fit s bl fl r R0). rewrite <- Eb. exact E. }
      rewrite Ez. cbn [Z.eqb negb].
      apply (IH s bl fl Q I0 Hnf HK); [left; exact t|exact HQ].
    + intros Hroom r0 s1 bl1 fl1 rsz I1 Ev1 Hb1 Hbrk1 Hmax1 HF1 Hsz1 _ Hold1
             Hlen1 HK1.
      pose proof I1 as [R1 _].
      assert (Hfit1 : has_fit bl1 r).
      { exists (mkBlock r0 rsz Free). auto. }
      assert (Hfuel1 : T \/ (length fl1 < fit_fuel)%nat).
      { destruct Hc as [t|(_ & Hl & _)]; [left; exact t|right; lia]. }
      apply wp_bind.
      eapply wp_mono; [apply (find_fit_spec s1 bl1 fl1 R1 T r fit_fuel Hfuel1)|].
      intros b s1' [Eb ->]. cbv beta.
      assert (Ez : b <> 0).
      { rewrite Eb. apply (scan_fit_has_fit s1 bl1 fl1 r R1). exact Hfit1. }
      apply Z.eqb_neq in Ez. rewrite Ez. cbn [negb].
      apply fit_and_place_full with (K := K) (bl := bl1) (fl := fl1); auto.
      intros q s' bl' fl' qsz I' Sr' Ev' HQ' Hq' Hfresh' Hnew' HK'.
      destruct Sr' as (S1 & S2 & S3 & S4).
      apply HQ with bl' fl' qsz; auto; try congruence.
      * eapply evolves_trans; eassumption.
      * intros x Hx Sx. apply Hfresh'; [|exact Sx].
        destruct Ev1 as (_ & Ka & _). apply Ka; assumption.
      * intros x Hx Sx. destruct (Hnew' x Hx Sx) as [E|Hi]; [left; exact E|].
        destruct (Hold1 x Hi) as [E|Hi']; [|right; exact Hi'].
        subst x. discriminate Sx.
Qed.

Lemma mm_malloc_full T (K : Prop) fuel s bl fl n Q :
  heap_inv s bl fl -> 0 < n <= two31 - 16 -> (K -> coalesced bl) ->
  let r := required_block_size (to_int n) in
  T \/ ((S (length fl) < fuel)%nat /\
        (has_fit bl r \/ mem_brk s + r <= mem_max_addr s)) ->
  (forall q s' bl' fl' qsz,
     heap_inv s' bl' fl' -> evolves s bl s' bl' ->
     heap_blocks s' = heap_blocks s -> mem_max_addr s' = mem_max_addr s ->
     (has_fit bl r -> mem_brk s' = mem_brk s) ->
     (~ has_fit bl r -> mem_brk s' = mem_brk s + r) ->
     In (mkBlock (q - 4) qsz Allocated) bl' -> r <= qsz ->
     (forall b, In b bl -> b_status b = Allocated -> b_addr b <> q - 4) ->
     (forall b, In b bl' -> b_status b = Allocated ->
                b = mkBlock (q - 4) qsz Allocated \/ In b bl) ->
     (K -> coalesced bl') -> Q q s') ->
  wp T (mm_malloc fuel n) s Q.
Proof.
  intros I0 Hn HK r Hc HQ. unfold mm_malloc.
  replace (n =? 0) with false by (symmetry; apply Z.eqb_neq; lia).
  destruct (required_block_size_ok n ltac:(lia)) as (H1 & H2 & H3 & H4).
  fold r in H1, H2, H3, H4 |- *.
  assert (Hr : 16 <= r) by (clearbody r; Z.div_mod_to_equations; lia).
  clearbody r. pose proof I0 as [R0 _].
  assert (Hfuel : T \/ (length fl < fuel)%nat).
  { destruct Hc as [t|(Hl & _)]; [left; exact t|right; lia]. }
  apply wp_bind.
  eapply wp_mono; [apply (find_fit_spec s bl fl R0 T r fuel Hfuel)|].
  intros b s1 [Eb ->]. cbv beta.
  destruct (b =? 0) eqn:Ez; cbn [negb].
  - apply Z.eqb_eq in Ez.
    assert (Hnf : ~ has_fit bl r).
    { intros Hf. apply (scan_fit_has_fit s bl fl r R0) in Hf.
      apply Hf. rewrite <- Eb. exact Ez. }
    apply wp_bind.
    eapply wp_mono; [apply (find_fit_spec s bl fl R0 T r fuel Hfuel)|].
    intros b2 s1 [Eb2 ->]. cbv beta. rewrite Eb2, <- Eb, Ez. cbn [Z.eqb].
    apply (malloc_grow_full T K fuel r fuel Hr H3 s bl fl Q I0 Hnf HK).
    + destruct Hc as [t|(Hl & [Hf|Hroom])]; [left; exact t|contradiction|].
      right. split; [exact Hroom|]. split; [exact Hl|]. lia.
    + intros q s' bl' fl' qsz I' Ev' Hb' Hbrk' Hmax' HQ' Hq' Hfresh' Hnew' HK'.
      apply HQ with bl' fl' qsz; auto. intros Hf. contradiction.
  - apply Z.eqb_neq in Ez.
    assert (Hf : has_fit bl r).
    { apply (scan_fit_has_fit s bl fl r R0). rewrite <- Eb. exact Ez. }
    apply fit_and_place_full with (K := K) (bl := bl) (fl := fl); auto.
    intros q s' bl' fl' qsz I' Sr' Ev' HQ' Hq' Hfresh' Hnew' HK'.
    destruct Sr' as (S1 & S2 & S3 & S4).
    apply HQ with bl' fl' qsz; auto. intros Hnf. contradiction.
Qed.

(** ** [mm_free] in full *)

Lemma mm_free_full T (K : Prop) s bl1 p sz bl2 fl Q :
  heap_inv s (bl1 ++ mkBlock (p - 4) sz Allocated :: bl2) fl ->
  (K -> coalesced (bl1 ++ mkBlock (p - 4) sz Allocated :: bl2)) ->
  (forall s' bl' fl' r rsz,
     heap_inv s' bl' fl' -> same_region s s' ->
     keeps_allocated (bl1 ++ bl2) bl' ->
     keeps_payloads (bl1 ++ bl2) (mem s) (mem s') ->
     In (mkBlock r rsz Free) bl' -> r <= p - 4 -> p - 4 + sz <= r + rsz ->
     (forall b, In b bl' -> b = mkBlock r rsz Free \/ In b (bl1 ++ bl2)) ->
     (length fl' <= S (length fl))%nat ->
     (K -> coalesced bl') -> Q tt s') ->
  wp T (mm_free p) s Q.
Proof.
  intros [R C] HK HQ. unfold mm_free.
  apply clean_split in C. destruct C as (C1 & _ & C2).
  apply rep_limbo in R; [|discriminate].
  apply wp_bind.
  apply free_coalesce_full with (K := K) (bl1 := bl1) (sz := sz) (bl2 := bl2)
                                (fl := fl); auto.
  { intros k. specialize (HK k). statuses.
    apply (no_ff_nonfree _ [Allocated] _ Limbo []); [exact HK|].
    repeat constructor; discriminate. }
  intros r s' bl' fl' rsz I' Sr Ka Kp _ Hr Hr1 Hr2 Hold Hlen HK'.
  apply wp_ret. eapply HQ; eauto.
Qed.
(** * [mm_free] and [mm_realloc] on a well-formed heap *)


(** ** [mm_free] *)

Lemma mm_free_spec T s bl1 p sz bl2 fl Q :
  heap_inv s (bl1 ++ mkBlock (p - 4) sz Allocated :: bl2) fl ->
  (forall s' bl' fl',
     heap_inv s' bl' fl' -> same_region s s' ->
     keeps_allocated (bl1 ++ bl2) bl' ->
     keeps_payloads (bl1 ++ bl2) (mem s) (mem s') -> Q tt s') ->
  wp T (mm_free p) s Q.
Proof.
  intros [R C] HQ. unfold mm_free.
  apply clean_split in C. destruct C as (C1 & _ & C2).
  apply rep_limbo in R; [|discriminate].
  apply wp_bind.
  apply free_coalesce_spec with (bl1 := bl1) (sz := sz) (bl2 := bl2) (fl := fl);
    auto.
  intros r s' bl' fl' I' Sr Ka Kp _. apply wp_ret. eapply HQ; eauto.
Qed.

(** ** [mm_realloc] *)

Lemma to_uint_small' z : 0 <= z < two31 -> to_uint z = z.
Proof. intros H. apply to_uint_small. unfold two31, two32 in *. lia. Qed.

Ltac wp_alloc sz' al' :=
  apply wp_bind; eapply wp_get_allocated with (sz := sz') (al := al');
  [bounds | bounds | word | bounds ..|].

Lemma wp_memcpy T s dst src k Q :
  0 < k -> mem_start_brk s <= dst -> dst + k <= mem_brk s ->
  mem_start_brk s <= src -> src + k <= mem_brk s ->
  Q tt (with_mem s (copy_bytes (mem s) dst src k)) ->
  wp T (memcpy dst src k) s Q.
Proof.
  intros Hk H1 H2 H3 H4 HQ. unfold wp, memcpy.
  replace (k =? 0) with false by (symmetry; apply Z.eqb_neq; lia).
  replace (mem_start_brk s <=? dst) with true by (symmetry; apply Z.leb_le; lia).
  replace (dst + k <=? mem_brk s) with true by (symmetry; apply Z.leb_le; lia).
  replace (mem_start_brk s <=? src) with true by (symmetry; apply Z.leb_le; lia).
  replace (src + k <=? mem_brk s) with true by (symmetry; apply Z.leb_le; lia).
  exact HQ.
Qed.

Lemma copy_bytes_in m dst src k x :
  dst <= x < dst + k -> copy_bytes m dst src k x = m (src + (x - dst)).
Proof.
  intros H. unfold copy_bytes.
  replace (dst <=? x) with true by (symmetry; apply Z.leb_le; lia).
  replace (x <? dst + k) with true by (symmetry; apply Z.ltb_lt; lia).
  reflexivity.
Qed.

Lemma copy_bytes_out m dst src k x :
  x < dst \/ dst + k <= x -> copy_bytes m dst src k x = m x.
Proof.
  intros H. unfold copy_bytes.
  destruct (dst <=? x) eqn:E1; [|reflexivity].
  destruct (x <? dst + k) eqn:E2; [|reflexivity].
  apply Z.leb_le in E1. apply Z.ltb_lt in E2. lia.
Qed.

(** Writing inside the payload of an allocated block leaves the heap well
    formed. *)
Lemma rep_payload_write s bl fl q qsz m' :
  heap_rep s bl fl -> In (mkBlock q qsz Allocated) bl ->
  (forall x, x < q + 4 \/ q + qsz - 4 <= x -> m' x = mem s x) ->
  heap_rep (with_mem s m') bl fl.
Proof.
  intros R HQ Hm.
  pose proof (rep_tagged _ _ _ R _ HQ) as TQ.
  pose proof (rep_block _ _ _ R _ HQ) as HQb.
  unfold b_end in HQb. cbn [b_addr b_size] in HQb.
  apply in_split in HQ. destruct HQ as (bla & blb & ->).
  apply rep_retile with (old := [mkBlock q qsz Allocated])
                        (mid := [mkBlock q qsz Allocated])
                        (a := q) (e := q + qsz).
  - exact R.
  - discriminate.
  - cbn [chain b_addr b_size]. repeat split; lia.
  - cbn [chain b_addr b_size]. repeat split; lia.
  - reflexivity.
  - constructor; [|constructor]. apply tagged_ext with (mem s); [exact TQ|].
    unfold b_end. cbn [b_addr b_size]. intros x Hx. apply Hm. lia.
  - intros x Hx. apply Hm. lia.
  - intros y [].
Qed.

Lemma in_not_mid {A} (x : A) l1 y l2 :
  In x (l1 ++ y :: l2) -> x <> y -> In x (l1 ++ l2).
Proof.
  rewrite !in_app_iff. cbn [In]. intros [H|[H|H]] Hn; auto.
  subst. contradiction.
Qed.

(** The allocate, copy and free path of [mm_realloc]. *)
Lemma realloc_copy_full T (K : Prop) fuel s bl1 p sz bl2 fl n :
  heap_inv s (bl1 ++ mkBlock (p - 4) sz Allocated :: bl2) fl ->
  0 < n <= two31 - 16 ->
  (K -> coalesced (bl1 ++ mkBlock (p - 4) sz Allocated :: bl2)) ->
  T \/ ((S (length fl) < fuel)%nat /\
        (has_fit (bl1 ++ mkBlock (p - 4) sz Allocated :: bl2)
                 (required_block_size (to_int n)) \/
         mem_brk s + required_block_size (to_int n) <= mem_max_addr s)) ->
  wp T (new_ptr <- mm_malloc fuel n ;;
        os <- get_size (p - 4) ;;
        memcpy new_ptr p (MIN n (to_uint (to_uint os - 8))) ;;;
        mm_free p ;;;
        ret new_ptr) s
     (fun q s' =>
        exists bl' fl' qsz,
          heap_inv s' bl' fl' /\
          In (mkBlock (q - 4) qsz Allocated) bl' /\ n + 8 <= qsz /\
          (forall i, 0 <= i < Z.min (sz - 8) n ->
                     mem s' (q + i) = mem s (p + i)) /\
          mem_start_brk s' = mem_start_brk s /\
          keeps_allocated (bl1 ++ bl2) bl' /\
          keeps_payloads (bl1 ++ bl2) (mem s) (mem s') /\
          (q <> p /\
           (forall b, In b (bl1 ++ bl2) -> b_status b = Allocated ->
                      b_addr b <> q - 4)) /\
          (forall b, In b bl' -> b_status b = Allocated ->
                     b = mkBlock (q - 4) qsz Allocated \/ In b (bl1 ++ bl2)) /\
          (K -> coalesced bl')).
Proof.
  intros I0 Hn HK Hcond. pose proof I0 as [R C].
  destruct (required_block_size_ok n ltac:(lia)) as (Hr1 & Hr2 & Hr8 & _).
  remember (p - 4) as hp eqn:Ehp.
  assert (HP : In (mkBlock hp sz Allocated)
                  (bl1 ++ mkBlock hp sz Allocated :: bl2)) by in_list.
  pose proof (rep_block _ _ _ R _ HP) as HPb.
  pose proof (hr_chain _ _ _ R) as Hc.
  unfold b_end in HPb. cbn [b_addr b_size] in HPb.
  destruct HPb as (P1 & P2 & P3 & P4 & P5).
  assert (Hkeep : forall b, In b (bl1 ++ bl2) ->
            In b (bl1 ++ mkBlock hp sz Allocated :: bl2) /\
            (b_end b <= hp \/ hp + sz <= b_addr b)).
  { intros b Hb. split; [apply in_remove_mid; exact Hb|].
    destruct (chain_side _ _ _ _ _ _ Hc Hb) as [[_ H]|[_ H]];
      unfold b_end in *; cbn [b_addr b_size] in *; lia. }
  apply wp_bind.
  apply mm_malloc_full
    with (K := K) (bl := bl1 ++ mkBlock hp sz Allocated :: bl2) (fl := fl);
    [exact I0|exact Hn|exact HK|exact Hcond|].
  intros q s1 bl' fl' qsz I1 Ev1 Hb1 _ _ _ HQ1 Hq1 Hne1 Hnew1 HK1.
  destruct Ev1 as (A1 & Ka1 & Kp1). destruct I1 as [R1 C1].
  pose proof (Ka1 _ HP eq_refl) as HP1.
  pose proof (rep_block _ _ _ R1 _ HP1) as HPb1.
  pose proof (rep_block _ _ _ R1 _ HQ1) as HQb1.
  pose proof (rep_tagged _ _ _ R1 _ HP1) as [TP1 _].
  pose proof (hr_lo _ _ _ R1) as Hlo1. pose proof (hr_max _ _ _ R1) as Hmax1.
  pose proof (hr_chain _ _ _ R1) as Hc1.
  unfold b_end in HPb1, HQb1. cbn [b_addr b_size] in HPb1, HQb1, TP1.
  destruct HPb1 as (P1' & P2' & _). destruct HQb1 as (Q1 & Q2 & Q3 & Q4 & Q5).
  pose proof (Hne1 _ HP eq_refl) as HnP. cbn [b_addr] in HnP.
  wp_size sz 1.
  rewrite (to_uint_small' sz) by lia. rewrite (to_uint_small' (sz - 8)) by lia.
  remember (MIN n (sz - 8)) as k eqn:Ek.
  assert (Hk : 0 < k /\ k <= n /\ k <= sz - 8 /\ Z.min (sz - 8) n = k).
  { subst k. unfold MIN. destruct (n >? sz - 8) eqn:E.
    - apply Z.gtb_lt in E. lia.
    - assert (n <= sz - 8) by (destruct (Z.gtb_spec n (sz - 8)); [discriminate|lia]).
      lia. }
  destruct Hk as (Hk0 & Hk1 & Hk2 & Hk3).
  apply wp_bind. apply wp_memcpy; try lia.
  set (m2 := copy_bytes (mem s1) q p k).
  assert (R2 : heap_rep (with_mem s1 m2) bl' fl').
  { apply rep_payload_write with (q := q - 4) (qsz := qsz); auto.
    intros x Hx. apply copy_bytes_out. lia. }
  apply in_split in HP1. destruct HP1 as (blx & bly & E').
  assert (HQx : In (mkBlock (q - 4) qsz Allocated) (blx ++ bly)).
  { apply in_not_mid with (y := mkBlock hp sz Allocated).
    - rewrite <- E'. exact HQ1.
    - intros E. inversion E. lia. }
  apply wp_bind.
  apply mm_free_full with (K := K) (bl1 := blx) (sz := sz) (bl2 := bly)
                          (fl := fl').
  { rewrite <- Ehp, <- E'. split; [exact R2|exact C1]. }
  { rewrite <- Ehp, <- E'. exact HK1. }
  intros s3 bl3 fl3 r3 rsz3 I3 Sr3 Ka3 Kp3 _ _ _ Hold3 _ HK3.
  destruct Sr3 as (B1 & B2 & B3 & B4). proj_simpl.
  apply wp_ret. exists bl3, fl3, qsz.
  split; [exact I3|]. split; [apply Ka3; [exact HQx|reflexivity]|].
  split; [lia|]. split; [|split; [congruence|]].
  - rewrite Hk3. intros i Hi.
    rewrite (Kp3 _ HQx eq_refl) by (unfold b_end; cbn [b_addr b_size]; lia).
    unfold m2. rewrite copy_bytes_in by lia.
    replace (p + (q + i - q)) with (p + i) by lia.
    apply (Kp1 _ HP eq_refl). unfold b_end. cbn [b_addr b_size]. lia.
  - assert (Hb : forall b, In b (bl1 ++ bl2) -> b_status b = Allocated ->
              In b (blx ++ bly) /\
              (b_end b <= q - 4 \/ q - 4 + qsz <= b_addr b) /\
              In b (bl1 ++ mkBlock hp sz Allocated :: bl2)).
    { intros b Hb Sb. destruct (Hkeep b Hb) as [Hi Hd].
      pose proof (Ka1 _ Hi Sb) as Hi1.
      assert (16 <= b_size b) by (apply (rep_block _ _ _ R _ Hi)).
      split; [|split; [|exact Hi]].
      - apply in_not_mid with (y := mkBlock hp sz Allocated).
        + rewrite <- E'. exact Hi1.
        + intros E. subst b. unfold b_end in Hd. cbn [b_addr b_size] in *. lia.
      - destruct (chain_disjoint _ _ _ _ _ Hc1 Hi1 HQ1) as [E|E].
        + exfalso. apply (Hne1 b Hi Sb). subst b. reflexivity.
        + unfold b_end in *. cbn [b_addr b_size] in *. lia. }
    split; [|split; [|split; [|split; [|exact HK3]]]].
    + intros b Hi Sb. destruct (Hb b Hi Sb) as (Hx & _ & _).
      apply Ka3; assumption.
    + intros b Hi Sb x Hx. destruct (Hb b Hi Sb) as (Hbx & Hd & Hbl).
      rewrite (Kp3 b Hbx Sb x Hx).
      unfold m2. rewrite copy_bytes_out by (unfold b_end in *; lia).
      apply (Kp1 b Hbl Sb x Hx).
    + split; [lia|]. intros b Hi Sb.
      apply (Hne1 b (in_remove_mid _ _ _ _ Hi) Sb).
    + intros b Hi Sb. destruct (Hold3 b Hi) as [E|Hi3].
      { subst b. discriminate Sb. }
      assert (Hi1 : In b bl') by (rewrite E'; apply in_remove_mid; exact Hi3).
      destruct (Hnew1 b Hi1 Sb) as [E|Ho]; [left; exact E|]. right.
      apply in_not_mid with (y := mkBlock hp sz Allocated); [exact Ho|].
      intros E. subst b. rewrite E' in Hc1.
      destruct (chain_side _ _ _ _ _ _ Hc1 Hi3) as [[_ H]|[_ H]];
        unfold b_end in H; cbn [b_addr b_size] in H; lia.
Qed.

Lemma realloc_copy_spec fuel s bl1 p sz bl2 fl n :
  heap_inv s (bl1 ++ mkBlock (p - 4) sz Allocated :: bl2) fl ->
  0 < n <= two31 - 16 ->
  wp True (new_ptr <- mm_malloc fuel n ;;
           os <- get_size (p - 4) ;;
           memcpy new_ptr p (MIN n (to_uint (to_uint os - 8))) ;;;
           mm_free p ;;;
           ret new_ptr) s (realloc_post s bl1 p sz bl2 n).
Proof.
  intros I0 Hn.
  eapply wp_mono;
    [apply realloc_copy_full with (K := False) (fl := fl);
     [exact I0|exact Hn|intros []|left; exact I]|].
  intros q s' (bl' & fl' & qsz & H1 & H2 & H3 & H4 & H5 & H6 & H7 & _).
  exists bl', fl', qsz. auto 10.
Qed.

Lemma mm_realloc_full T (K : Prop) fuel s bl1 p sz bl2 fl n :
  heap_inv s (bl1 ++ mkBlock (p - 4) sz Allocated :: bl2) fl ->
  0 < n <= two31 - 16 ->
  (K -> coalesced (bl1 ++ mkBlock (p - 4) sz Allocated :: bl2)) ->
  T \/ resize_in_place sz bl2 (required_block_size (to_int n)) \/
  ((S (length fl) < fuel)%nat /\
   (has_fit (bl1 ++ mkBlock (p - 4) sz Allocated :: bl2)
            (required_block_size (to_int n)) \/
    mem_brk s + required_block_size (to_int n) <= mem_max_addr s)) ->
  wp T (mm_realloc fuel p n) s
     (realloc_full_post K s bl1 p sz bl2 n (required_block_size (to_int n))).
Proof.
  intros I0 Hn HK Hcond. pose proof I0 as [R C].
  apply clean_split in C. destruct C as (C1 & _ & C2).
  destruct (required_block_size_ok n ltac:(lia)) as (Hr1 & Hr2 & Hr8 & _).
  unfold mm_realloc. cbv zeta.
  remember (required_block_size (to_int n)) as r eqn:Er.
  remember (p - 4) as hp eqn:Ehp.
  assert (Hr16 : 16 <= r) by (Z.div_mod_to_equations; lia).
  rewrite (to_uint_small' r) by (unfold two31 in *; lia).
  rewrite (to_int_small r) by (unfold two31 in *; lia).
  assert (HP : In (mkBlock hp sz Allocated)
                  (bl1 ++ mkBlock hp sz Allocated :: bl2)) by in_list.
  pose proof (rep_block _ _ _ R _ HP) as HPb.
  pose proof (rep_tagged _ _ _ R _ HP) as [TP1 TP2].
  pose proof (hr_lo _ _ _ R) as Hlo. pose proof (hr_max _ _ _ R) as Hmax.
  pose proof (hr_chain _ _ _ R) as Hc.
  destruct (next_view _ _ _ _ _ R C2)
    as (nsz & nal & N1 & N2 & N3 & N4 & N5 & N6 & N7 & N8).
  unfold b_end in *. cbn [b_addr b_size] in *.
  destruct HPb as (P1 & P2 & P3 & P4 & P5).
  wp_size sz 1. rewrite (to_uint_small' sz) by lia.
  wp_size sz 1. wp_next sz 1. wp_size nsz nal.
  replace (hp =? 0) with false by (symmetry; apply Z.eqb_neq; lia).
  replace (n =? 0) with false by (symmetry; apply Z.eqb_neq; lia).
  assert (Hkeep : forall b, In b (bl1 ++ bl2) ->
            In b (bl1 ++ mkBlock hp sz Allocated :: bl2) /\
            (b_end b <= hp \/ hp + sz <= b_addr b)).
  { intros b Hb. split; [apply in_remove_mid; exact Hb|].
    destruct (chain_side _ _ _ _ _ _ Hc Hb) as [[_ H]|[_ H]];
      unfold b_end in *; cbn [b_addr b_size] in *; lia. }
  assert (Hfr : forall b, In b (bl1 ++ bl2) -> b_status b = Allocated ->
                b_addr b <> hp).
  { intros b Hb _. destruct (Hkeep b Hb) as [Hi Hd].
    assert (16 <= b_size b) by (apply (rep_block _ _ _ R _ Hi)).
    unfold b_end in Hd. lia. }
  destruct (sz <? r) eqn:Esmall.
  - apply Z.ltb_lt in Esmall.
    wp_next sz 1. wp_alloc nsz nal.
    destruct ((nal =? 0) && (to_uint (sz + nsz) >=? r)) eqn:Egrow.
    + (* grow in place *)
      apply andb_prop in Egrow. destruct Egrow as [En Eg].
      apply Z.eqb_eq in En. destruct (N7 En) as [bl2' Ebl2].
      subst nal. subst bl2. rewrite Z.add_0_r in N6.
      assert (HN : In (mkBlock (hp + sz) nsz Free)
                      (bl1 ++ mkBlock hp sz Allocated ::
                              mkBlock (hp + sz) nsz Free :: bl2')) by in_list.
      pose proof (rep_block _ _ _ R _ HN) as HNb.
      unfold b_end in HNb. cbn [b_addr b_size] in HNb.
      destruct HNb as (Q1 & Q2 & Q3 & Q4 & Q5).
      rewrite !(to_uint_small' (sz + nsz)) in * by lia.
      apply Z.geb_le in Eg.
      rewrite !(to_uint_small' (sz + nsz - r)) by lia.
      rewrite !(to_int_small (sz + nsz)) by (unfold two31 in *; lia).
      rewrite ?(to_int_small (sz + nsz - r)) by (unfold two31 in *; lia).
      assert (Hnfl : In (hp + sz) fl).
      { apply (hr_free _ _ _ R). apply in_free_addrs.
        exists (mkBlock (hp + sz) nsz Free). auto. }
      apply in_split in Hnfl. destruct Hnfl as (l1 & l2 & ->).
      wp_next sz 1.
      apply wp_bind. apply free_list_remove_spec with l1 l2.
      { apply (rep_fl_rep _ _ _ R). }
      intros s1 F1 Hol1 Sr1.
      pose proof (only_links_payloads _ _ _ _ R Hol1) as Kp1.
      assert (R1 : heap_rep s1 (bl1 ++ [mkBlock hp sz Allocated;
                                        mkBlock (hp + sz) nsz Limbo] ++ bl2')
                     (l1 ++ l2)).
      { change (bl1 ++ [mkBlock hp sz Allocated; mkBlock (hp + sz) nsz Limbo] ++ bl2')
          with (bl1 ++ [mkBlock hp sz Allocated] ++
                       mkBlock (hp + sz) nsz Limbo :: bl2').
        rewrite app_assoc.
        apply rep_remove with (s := s); auto.
        rewrite <- app_assoc. exact R. }
      destruct Sr1 as (A1 & A2 & A3 & A4).
      assert (Sr1 : same_region s s1) by (repeat split; assumption).
      assert (HP1 : In (mkBlock hp sz Allocated)
                       (bl1 ++ [mkBlock hp sz Allocated;
                                mkBlock (hp + sz) nsz Limbo] ++ bl2')) by in_list.
      pose proof (rep_tagged _ _ _ R1 _ HP1) as [TQ1 _].
      cbn [b_addr b_size] in TQ1.
      assert (Hkeep2 : forall b,
                In b (bl1 ++ mkBlock (hp + sz) nsz Free :: bl2') ->
                b_status b = Allocated ->
                In b (bl1 ++ bl2') /\
                (b_end b <= hp \/ hp + sz + nsz <= b_addr b)).
      { intros b Hb Sb. destruct (Hkeep b Hb) as [Hi Hd].
        destruct (chain_disjoint _ _ _ _ _ Hc Hi HN) as [E|E].
        - subst b. discriminate Sb.
        - unfold b_end in *. cbn [b_addr b_size] in *.
          assert (16 <= b_size b) by (apply (rep_block _ _ _ R _ Hi)).
          split; [|lia].
          apply in_app_or in Hb. destruct Hb as [Hb|[Hb|Hb]]; [in_list| |in_list].
          subst b. discriminate Sb. }
      apply wp_bind.
      destruct (sz + nsz - r <=? 250) eqn:Esplit.
      * (* the two blocks become one allocated block *)
        remember (sz + nsz) as tot eqn:Etot.
        assert (Ht8 : tot mod 8 = 0) by (Z.div_mod_to_equations; lia).
        wp_hdr.
        eapply wp_set_footer with (cur := tot) (cal := 1);
          [bounds | bounds | word | bounds ..|].
        set (m3 := wr (wr (mem s1) hp (tot + 1)) (hp + tot - 4) (tot + 1)).
        match goal with |- wp _ _ ?st _ => change st with (with_mem s1 m3) end.
        assert (Ht : (tot + 1) mod two32 = tot + 1).
        { apply Z.mod_small. unfold two31, two32 in *. lia. }
        assert (Hm3 : forall x, x < hp \/ hp + tot <= x \/
                                (hp + 4 <= x < hp + tot - 4) -> m3 x = mem s1 x).
        { intros x Hx. unfold m3. rewrite !wr_other by lia. reflexivity. }
        assert (R3 : heap_rep (with_mem s1 m3)
                       (bl1 ++ [mkBlock hp tot Allocated] ++ bl2') (l1 ++ l2)).
        { apply rep_retile
            with (old := [mkBlock hp sz Allocated; mkBlock (hp + sz) nsz Limbo])
                 (a := hp) (e := hp + tot).
          - exact R1.
          - discriminate.
          - cbn [chain b_addr b_size]. repeat split; auto; lia.
          - cbn [chain b_addr b_size]. repeat split; auto; lia.
          - reflexivity.
          - constructor; [|constructor]. unfold tagged, b_end, m3.
            cbn [b_addr b_size b_status]. split.
            + rewrite rd_wr_other by lia. rewrite rd_wr_same. exact Ht.
            + rewrite rd_wr_same. exact Ht.
          - intros x Hx. apply Hm3. lia.
          - intros y []. }
        apply wp_ret.
        unfold get_payload_addr.
        exists (bl1 ++ [mkBlock hp tot Allocated] ++ bl2'), (l1 ++ l2), tot.
        replace (hp + 4 - 4) with hp by lia. replace (hp + 4) with p by lia.
        split.
        { split; [exact R3|]. apply clean_app. split; [exact C1|].
          apply clean_cons. split; [discriminate|].
          inversion C2; assumption. }
        split; [in_list|]. split; [lia|].
        split; [|split; [proj_simpl; exact A1|split; [|split]]].
        -- intros i Hi. proj_simpl. rewrite Hm3 by lia.
           apply (Kp1 _ HP eq_refl). unfold b_end. cbn [b_addr b_size]. lia.
        -- intros b Hb Sb. destruct (Hkeep2 b Hb Sb) as [Hi _].
           apply in_app_or in Hi. destruct Hi; in_list.
        -- intros b Hb Sb x Hx. destruct (Hkeep2 b Hb Sb) as [_ Hd].
           destruct (Hkeep b Hb) as [Hi _].
           proj_simpl. rewrite Hm3 by (unfold b_end in *; lia).
           apply (Kp1 b Hi Sb x Hx).
        -- split; [intros _; split; [reflexivity|proj_simpl; exact A2]|].
           split; [split; [intros Hn'; exfalso; apply Hn'; right;
                           exists (hp + sz), nsz, bl2'; split; [reflexivity|lia]
                          |exact Hfr]|].
           split.
           ++ intros b Hb _. apply in_app_or in Hb.
              destruct Hb as [Hb|[<-|Hb]];
                [right; in_list|left; reflexivity|right; in_list].
           ++ intros k. specialize (HK k). statuses.
              apply (no_ff_nonfree _ [Allocated; Free] _ Allocated []);
                [exact HK|]. repeat constructor; discriminate.
      * (* the surplus becomes a free block *)
        apply Z.leb_gt in Esplit.
        assert (Hs8 : (sz + nsz - r) mod 8 = 0) by (Z.div_mod_to_equations; lia).
        remember (sz + nsz - r) as ssz eqn:Essz.
        wp_hdr. wp_ftr r 1. wp_next r 1. wp_hdr. wp_next r 1. wp_ftr ssz 0.
        wp_next r 1. rewrite !Z.add_0_r.
        set (m5 := wr (wr (wr (wr (mem s1) hp (r + 1)) (hp + r - 4) (r + 1))
                          (hp + r) ssz)
                      (hp + r + ssz - 4) ssz).
        match goal with |- wp _ _ ?st _ => change st with (with_mem s1 m5) end.
        assert (Ht1 : ssz mod two32 = ssz).
        { apply Z.mod_small. unfold two31, two32 in *. lia. }
        assert (Ht2 : (r + 1) mod two32 = r + 1).
        { apply Z.mod_small. unfold two31, two32 in *. lia. }
        assert (Hm5 : forall x, x < hp \/ hp + sz + nsz <= x \/
                                (hp + 4 <= x < hp + r - 4) -> m5 x = mem s1 x).
        { intros x Hx. unfold m5. rewrite !wr_other by lia. reflexivity. }
        assert (R5 : heap_rep (with_mem s1 m5)
                       (bl1 ++ [mkBlock hp r Allocated;
                                mkBlock (hp + r) ssz Limbo] ++ bl2') (l1 ++ l2)).
        { apply rep_retile
            with (old := [mkBlock hp sz Allocated; mkBlock (hp + sz) nsz Limbo])
                 (a := hp) (e := hp + sz + nsz).
          - exact R1.
          - discriminate.
          - cbn [chain b_addr b_size]. repeat split; auto; lia.
          - cbn [chain b_addr b_size]. repeat split; auto; lia.
          - reflexivity.
          - constructor; [|constructor; [|constructor]]; unfold tagged, b_end, m5;
              cbn [b_addr b_size b_status].
            + split.
              * rewrite !rd_wr_other by lia. rewrite rd_wr_same. exact Ht2.
              * rewrite !rd_wr_other by lia. rewrite rd_wr_same. exact Ht2.
            + left. rewrite rd_wr_other by lia. rewrite rd_wr_same. exact Ht1.
          - intros x Hx. apply Hm5. lia.
          - intros y []. }
        apply wp_bind.
        apply free_coalesce_full
          with (K := K) (bl1 := bl1 ++ [mkBlock hp r Allocated]) (sz := ssz)
               (bl2 := bl2') (fl := l1 ++ l2); auto.
        { rewrite <- app_assoc. exact R5. }
        { apply clean_app. split; [exact C1|].
          apply clean_cons. split; [discriminate|constructor]. }
        { inversion C2; assumption. }
        { intros k. specialize (HK k). statuses.
          apply (no_ff_nonfree _ [Allocated; Free] _ Allocated [Limbo]);
            [exact HK|]. repeat constructor; discriminate. }
        intros r0 s6 bl' fl' rsz6 I6 Sr6 Ka6 Kp6 _ _ _ _ Hold6 _ HK6.
        destruct Sr6 as (B1 & B2 & B3 & B4). proj_simpl.
        apply wp_ret. apply wp_ret.
        unfold get_payload_addr. exists bl', fl', r.
        replace (hp + 4 - 4) with hp by lia. replace (hp + 4) with p by lia.
        assert (HA : In (mkBlock hp r Allocated)
                        ((bl1 ++ [mkBlock hp r Allocated]) ++ bl2')) by in_list.
        split; [exact I6|]. split; [apply Ka6; [exact HA|reflexivity]|].
        split; [lia|]. split; [|split; [congruence|split; [|split]]].
        -- intros i Hi. rewrite (Kp6 _ HA eq_refl);
             [|unfold b_end; cbn [b_addr b_size]; lia].
           rewrite Hm5 by lia.
           apply (Kp1 _ HP eq_refl). unfold b_end. cbn [b_addr b_size]. lia.
        -- intros b Hb Sb. destruct (Hkeep2 b Hb Sb) as [Hi _].
           apply Ka6; [|exact Sb].
           apply in_app_or in Hi. destruct Hi; in_list.
        -- intros b Hb Sb x Hx. destruct (Hkeep2 b Hb Sb) as [Hi2 Hd].
           destruct (Hkeep b Hb) as [Hi _].
           rewrite (Kp6 b); auto; [|apply in_app_or in Hi2; destruct Hi2; in_list].
           rewrite Hm5 by (unfold b_end in *; lia).
           apply (Kp1 b Hi Sb x Hx).
        -- split; [intros _; split; [reflexivity|congruence]|].
           split; [split; [intros Hn'; exfalso; apply Hn'; right;
                           exists (hp + sz), nsz, bl2'; split; [reflexivity|lia]
                          |exact Hfr]|].
           split; [|exact HK6].
           intros b Hb Sb. destruct (Hold6 b Hb) as [E|Hi].
           { subst b. discriminate Sb. }
           apply in_app_or in Hi. destruct Hi as [Hi|Hi]; [|right; in_list].
           apply in_app_or in Hi.
           destruct Hi as [Hi|[<-|[]]]; [right; in_list|left; reflexivity].
    + (* allocate, copy, free *)
      assert (Hnip : ~ resize_in_place sz bl2 r).
      { intros [H|(nb & nsz' & bl2' & E & H)]; [lia|].
        destruct N3 as [En|En].
        - destruct (N7 En) as (bl2'' & E2). rewrite E in E2.
          injection E2 as _ -> _. subst nal bl2. rewrite Z.add_0_r in N6.
          assert (HN : In (mkBlock nb nsz Free)
                          (bl1 ++ mkBlock hp sz Allocated ::
                                  mkBlock nb nsz Free :: bl2')) by in_list.
          pose proof (rep_block _ _ _ R _ HN) as HNb.
          pose proof (chain_in_bounds _ _ _ _ Hc HN) as HNc.
          unfold b_end in HNb, HNc. cbn [b_addr b_size] in HNb, HNc.
          cbn [Z.eqb andb] in Egrow.
          apply chain_split in Hc. destruct Hc as (_ & _ & _ & Hc).
          cbn [chain b_addr b_size] in Hc. destruct Hc as (Enb & _).
          unfold b_end in Enb. cbn [b_addr b_size] in Enb.
          rewrite (to_uint_small' (sz + nsz)) in Egrow by lia.
          rewrite Z.geb_leb in Egrow. apply Z.leb_gt in Egrow. lia.
        - subst bl2. specialize (N8 En). discriminate N8. }
      subst hp. rewrite Er.
      eapply wp_mono;
        [apply realloc_copy_full with (K := K) (fl := fl);
         [exact I0|exact Hn|exact HK|]|].
      * rewrite <- Er. destruct Hcond as [t|[Hip|Hm]];
          [left; exact t|contradiction|right; exact Hm].
      * intros q s' (bl' & fl' & qsz & H1 & H2 & H3 & H4 & H5 & H6 & H7
                         & H8 & H9 & H10).
        exists bl', fl', qsz. rewrite <- Er.
        split; [exact H1|]. split; [exact H2|]. split; [exact H3|].
        split; [exact H4|]. split; [exact H5|]. split; [exact H6|].
        split; [exact H7|]. split; [intros Hip; contradiction|].
        split; [split; [intros _; exact (proj1 H8)|exact (proj2 H8)]|].
        split; [exact H9|exact H10].
  - apply Z.ltb_ge in Esmall.
    rewrite (to_uint_small' (sz - r)) by lia.
    destruct (sz - r >? 250) eqn:Esplit.
    + (* shrink and give the tail back *)
      apply Z.gtb_lt in Esplit.
      assert (Hs8 : (sz - r) mod 8 = 0) by (Z.div_mod_to_equations; lia).
      rewrite (to_int_small (sz - r)) by lia.
      remember (sz - r) as ssz eqn:Essz.
      apply wp_bind.
      wp_hdr. wp_ftr r 1. wp_next r 1. wp_hdr. wp_next r 1. wp_ftr ssz 0.
      wp_next r 1. rewrite !Z.add_0_r.
      set (m5 := wr (wr (wr (wr (mem s) hp (r + 1)) (hp + r - 4) (r + 1))
                        (hp + r) ssz)
                    (hp + r + ssz - 4) ssz).
      match goal with |- wp _ _ ?st _ => change st with (with_mem s m5) end.
      assert (Ht1 : ssz mod two32 = ssz).
      { apply Z.mod_small. unfold two31, two32 in *. lia. }
      assert (Ht2 : (r + 1) mod two32 = r + 1).
      { apply Z.mod_small. unfold two31, two32 in *. lia. }
      assert (Hm5 : forall x, x < hp \/ hp + sz <= x \/
                              (hp + 4 <= x < hp + r - 4) -> m5 x = mem s x).
      { intros x Hx. unfold m5. rewrite !wr_other by lia. reflexivity. }
      assert (R5 : heap_rep (with_mem s m5)
                     (bl1 ++ [mkBlock hp r Allocated;
                              mkBlock (hp + r) ssz Limbo] ++ bl2) fl).
      { apply rep_retile with (old := [mkBlock hp sz Allocated])
                              (a := hp) (e := hp + sz).
        - exact R.
        - discriminate.
        - cbn [chain b_addr b_size]. auto.
        - cbn [chain b_addr b_size]. repeat split; auto; lia.
        - reflexivity.
        - constructor; [|constructor; [|constructor]]; unfold tagged, b_end, m5;
            cbn [b_addr b_size b_status].
          + split.
            * rewrite !rd_wr_other by lia. rewrite rd_wr_same. exact Ht2.
            * rewrite !rd_wr_other by lia. rewrite rd_wr_same. exact Ht2.
          + left. rewrite rd_wr_other by lia. rewrite rd_wr_same. exact Ht1.
        - intros x Hx. apply Hm5. lia.
        - intros y []. }
      apply wp_bind.
      apply free_coalesce_full
        with (K := K) (bl1 := bl1 ++ [mkBlock hp r Allocated]) (sz := ssz)
             (bl2 := bl2) (fl := fl); auto.
      { rewrite <- app_assoc. exact R5. }
      { apply clean_app. split; [exact C1|].
        apply clean_cons. split; [discriminate|constructor]. }
      { intros k. specialize (HK k). statuses.
        apply (no_ff_nonfree _ [Allocated] _ Allocated [Limbo]);
          [exact HK|]. repeat constructor; discriminate. }
      intros r0 s6 bl' fl' rsz6 I6 Sr6 Ka6 Kp6 _ _ _ _ Hold6 _ HK6.
      destruct Sr6 as (B1 & B2 & B3 & B4). proj_simpl.
      apply wp_ret. apply wp_ret.
      unfold get_payload_addr. exists bl', fl', r.
      replace (hp + 4 - 4) with hp by lia. replace (hp + 4) with p by lia.
      assert (HA : In (mkBlock hp r Allocated)
                      ((bl1 ++ [mkBlock hp r Allocated]) ++ bl2)) by in_list.
      split; [exact I6|]. split; [apply Ka6; [exact HA|reflexivity]|].
      split; [lia|]. split; [|split; [exact B1|split; [|split]]].
      * intros i Hi. rewrite (Kp6 _ HA eq_refl);
          [|unfold b_end; cbn [b_addr b_size]; lia].
        apply Hm5. lia.
      * intros b Hb Sb. apply Ka6; [|exact Sb].
        apply in_app_or in Hb. destruct Hb; in_list.
      * intros b Hb Sb x Hx. destruct (Hkeep b Hb) as [_ Hd].
        rewrite (Kp6 b); auto; [|apply in_app_or in Hb; destruct Hb; in_list].
        apply Hm5. unfold b_end in *. lia.
      * split; [intros _; split; [reflexivity|exact B2]|].
        split; [split; [intros Hn'; exfalso; apply Hn'; left; lia|exact Hfr]|].
        split; [|exact HK6].
        intros b Hb Sb. destruct (Hold6 b Hb) as [E|Hi].
        { subst b. discriminate Sb. }
        apply in_app_or in Hi. destruct Hi as [Hi|Hi]; [|right; in_list].
        apply in_app_or in Hi.
        destruct Hi as [Hi|[<-|[]]]; [right; in_list|left; reflexivity].
    + (* keep the block as it is *)
      apply wp_bind. apply wp_ret. apply wp_ret.
      unfold get_payload_addr. exists (bl1 ++ mkBlock hp sz Allocated :: bl2), fl, sz.
      replace (hp + 4 - 4) with hp by lia. replace (hp + 4) with p by lia.
      split; [split; [exact R|]|].
      { apply clean_app. split; [exact C1|].
        apply clean_cons. split; [discriminate|exact C2]. }
      split; [exact HP|]. split; [lia|]. split; [reflexivity|].
      split; [reflexivity|]. split; [|split; [|split; [|split; [|split]]]].
      * intros b Hb _. apply in_remove_mid. exact Hb.
      * intros b Hb _ x _. reflexivity.
      * intros _. split; reflexivity.
      * split; [intros Hn'; exfalso; apply Hn'; left; lia|exact Hfr].
      * intros b Hb _. apply in_app_or in Hb.
        destruct Hb as [Hb|[<-|Hb]];
          [right; in_list|left; reflexivity|right; in_list].
      * exact HK.
Qed.

Lemma mm_realloc_spec fuel s bl1 p sz bl2 fl n :
  heap_inv s (bl1 ++ mkBlock (p - 4) sz Allocated :: bl2) fl ->
  0 < n <= two31 - 16 ->
  wp True (mm_realloc fuel p n) s (realloc_post s bl1 p sz bl2 n).
Proof.
  intros I0 Hn.
  eapply wp_mono;
    [apply mm_realloc_full with (K := False) (fl := fl);
     [exact I0|exact Hn|intros []|left; exact I]|].
  intros q s' (bl' & fl' & qsz & H1 & H2 & H3 & H4 & H5 & H6 & H7 & _).
  exists bl', fl', qsz. auto 10.
Qed.
(** * Support for the properties of the individual functions *)

Lemma run_ok {A} (c : M A) s (a : A) s' :
  wp False c s (fun r t => r = a /\ t = s') -> c s = Ok (a, s').
Proof.
  intros W. apply wp_ok in W. destruct W as (r & t & E & -> & ->). exact E.
Qed.

Lemma word_mod z : 0 <= z < two31 -> z mod two32 = z.
Proof. intros H. apply Z.mod_small. unfold two31, two32 in *. lia. Qed.

Lemma ok_state_after {A} (c : M A) s a :
  value_of c s = Some a -> c s = Ok (a, state_after c s).
Proof.
  unfold value_of, state_after. destruct (c s) as [[a' s']| |]; try discriminate.
  intros E. injection E as ->. reflexivity.
Qed.

Lemma chain_not_both a l1 B l2 e :
  chain a (l1 ++ B :: l2) e -> ~ In B (l1 ++ l2).
Proof.
  intros Hc Hi.
  assert (HB : In B (l1 ++ B :: l2)) by in_list.
  pose proof (chain_in_size _ _ _ _ Hc HB) as Hs.
  destruct (chain_side _ _ _ _ _ _ Hc Hi) as [[_ H]|[_ H]];
    unfold b_end in H; lia.
Qed.

Lemma heap5_fl_rep : fl_rep heap5 [1084; 1036; 1132].
Proof.
  apply rep_fl_rep
    with (bl := [mkBlock 1012 24 Allocated; mkBlock 1036 24 Free;
                 mkBlock 1060 24 Allocated; mkBlock 1084 24 Free;
                 mkBlock 1108 24 Allocated; mkBlock 1132 80 Free]).
  apply check_rep_sound. vm_compute. reflexivity.
Qed.

Lemma heap5_spaced : spaced (1060 :: [1084; 1036; 1132]).
Proof.
  intros x y Hx Hy. cbn [In] in Hx, Hy.
  repeat match goal with H : _ \/ _ |- _ => destruct H end;
    subst; try contradiction; lia.
Qed.

Lemma heap5_node_ok : node_ok heap5 1060.
Proof. unfold node_ok. repeat split; vm_compute; congruence. Qed.

Lemma mm_init_room s :
  mem_brk s = mem_start_brk s -> 0 < mem_start_brk s ->
  mem_start_brk s mod 8 = 0 ->
  mem_start_brk s + 216 <= mem_max_addr s -> mem_max_addr s <= two31 ->
  wp False mm_init s (fun r s' =>
    r = 0 /\
    heap_inv s' [mkBlock (mem_start_brk s + 12) 200 Free]
             [mem_start_brk s + 12] /\
    mem_brk s' = mem_start_brk s + 216 /\
    mem_start_brk s' = mem_start_brk s /\ mem_max_addr s' = mem_max_addr s).
Proof.
  intros Hb Hlo Hal Hroom Hmax. unfold mm_init.
  do 4 wp_prim. apply wp_bind. apply wp_mem_sbrk; proj_simpl; [lia|].
  intros _ _.
  replace (mem_brk s =? -1) with false by (symmetry; apply Z.eqb_neq; lia).
  wp_run. unfold extend_heap. apply wp_bind. apply wp_mem_sbrk; proj_simpl;
    [lia|].
  intros _ _.
  replace (mem_brk s + 16 =? -1) with false
    by (symmetry; apply Z.eqb_neq; lia).
  wp_run. unfold free_coalesce. wp_run.
  unfold free_list_insert, free_list_prepend. wp_run.
  rewrite !Hb.
  split; [reflexivity|]. split; [|proj_simpl; lia].
  split; [|repeat constructor; discriminate].
  constructor; proj_simpl.
  - exact Hlo.
  - exact Hal.
  - lia.
  - reflexivity.
  - split; norm_addr; rdwr; reflexivity.
  - cbn [chain b_addr b_size]. repeat split; try lia; reflexivity.
  - norm_addr. rdwr. reflexivity.
  - constructor; [|constructor]. unfold tagged, b_end.
    cbn [b_status b_addr b_size]. norm_addr. split; rdwr; reflexivity.
  - cbn [links hd]. norm_addr.
    split; [rdwr; reflexivity|]. split; [rdwr; reflexivity|exact I].
  - reflexivity.
  - reflexivity.
  - repeat constructor. intros [].
  - intros x. cbn. tauto.
Qed.

Lemma mm_init_no_room s :
  mem_brk s = mem_start_brk s -> 0 < mem_start_brk s ->
  mem_start_brk s mod 8 = 0 ->
  mem_start_brk s + 16 <= mem_max_addr s ->
  mem_max_addr s < mem_start_brk s + 216 -> mem_max_addr s <= two31 ->
  wp False mm_init s (fun r s' =>
    r = 0 /\ heap_inv s' [] [] /\
    mem_brk s' = mem_start_brk s + 16 /\
    mem_start_brk s' = mem_start_brk s /\ mem_max_addr s' = mem_max_addr s).
Proof.
  intros Hb Hlo Hal Hroom Hno Hmax. unfold mm_init.
  do 4 wp_prim. apply wp_bind. apply wp_mem_sbrk; proj_simpl; [lia|].
  intros _ _.
  replace (mem_brk s =? -1) with false by (symmetry; apply Z.eqb_neq; lia).
  wp_run. unfold extend_heap. apply wp_bind. apply wp_mem_sbrk; proj_simpl;
    [|lia].
  intros _. wp_run. rewrite !Hb.
  split; [reflexivity|]. split; [|proj_simpl; lia].
  split; [|constructor].
  constructor; proj_simpl.
  - exact Hlo.
  - exact Hal.
  - lia.
  - reflexivity.
  - split; norm_addr; rdwr; reflexivity.
  - cbn [chain]. lia.
  - norm_addr. rdwr. reflexivity.
  - constructor.
  - exact I.
  - reflexivity.
  - reflexivity.
  - constructor.
  - intros x. cbn. tauto.
Qed.

(** * The invariant of the reachable states *)

Lemma in_remove_ptr p live e :
  In e (remove_ptr p live) <-> In e live /\ fst e <> p.
Proof.
  unfold remove_ptr. rewrite filter_In, negb_true_iff, Z.eqb_neq. tauto.
Qed.

Lemma in_fst_remove_ptr p live x :
  In x (map fst (remove_ptr p live)) <-> In x (map fst live) /\ x <> p.
Proof.
  rewrite !in_map_iff. split.
  - intros ((y & n) & E & Hi). cbn [fst] in E. subst y.
    apply in_remove_ptr in Hi. cbn [fst] in Hi. destruct Hi as [Hi Hx].
    split; [exists (x, n); auto|exact Hx].
  - intros (((y & n) & E & Hi) & Hx). cbn [fst] in E. subst y.
    exists (x, n). split; [reflexivity|]. apply in_remove_ptr. auto.
Qed.

Lemma nodup_remove_ptr p live :
  NoDup (map fst live) -> NoDup (map fst (remove_ptr p live)).
Proof.
  induction live as [|[x n] live IH]; cbn [remove_ptr filter map fst];
    [auto|].
  intros Hn. apply NoDup_cons_iff in Hn. destruct Hn as [Hx Hn].
  fold (remove_ptr p live). destruct (negb (x =? p)); [|auto].
  cbn [map fst]. constructor; [|auto].
  intros Hi. apply in_fst_remove_ptr in Hi. tauto.
Qed.

Lemma chain_addr_inj a l e b1 b2 :
  chain a l e -> In b1 l -> In b2 l -> b_addr b1 = b_addr b2 -> b1 = b2.
Proof.
  intros Hc H1 H2 E.
  destruct (chain_disjoint _ _ _ _ _ Hc H1 H2) as [E'|Hd]; [exact E'|].
  pose proof (chain_in_size _ _ _ _ Hc H1).
  pose proof (chain_in_size _ _ _ _ Hc H2).
  unfold b_end in Hd. lia.
Qed.

Lemma has_fit_dec bl r : has_fit bl r \/ ~ has_fit bl r.
Proof.
  induction bl as [|b bl IH].
  - right. intros (x & [] & _).
  - destruct IH as [(x & Hx & Hf)|Hn].
    + left. exists x. split; [right; exact Hx|exact Hf].
    + destruct (b_status b) eqn:Sb;
        try (right; intros (x & [<-|Hx] & Sx & Hr);
             [congruence|apply Hn; exists x; auto]).
      destruct (Z_le_gt_dec r (b_size b)) as [Hr|Hr].
      * left. exists b. split; [left; reflexivity|auto].
      * right. intros (x & [<-|Hx] & Sx & Hr');
          [lia|apply Hn; exists x; auto].
Qed.

(** The block of a live pointer, and the heap around it. *)
Lemma tracks_split bl live p n :
  tracks live bl -> In (p, n) live ->
  exists bl1 sz bl2,
    bl = bl1 ++ mkBlock (p - 4) sz Allocated :: bl2 /\ n + 8 <= sz.
Proof.
  intros [Hl _] Hp. destruct (Hl p n Hp) as (sz & Hb & Hsz).
  apply in_split in Hb. destruct Hb as (bl1 & bl2 & ->).
  exists bl1, sz, bl2. auto.
Qed.

(** The other live pointers have their blocks among the other blocks. *)
Lemma tracks_others bl1 p sz bl2 live p' n' :
  tracks live (bl1 ++ mkBlock (p - 4) sz Allocated :: bl2) ->
  In (p', n') live -> p' <> p ->
  exists sz', In (mkBlock (p' - 4) sz' Allocated) (bl1 ++ bl2) /\ n' + 8 <= sz'.
Proof.
  intros [Hl _] Hp Hne. destruct (Hl p' n' Hp) as (sz' & Hb & Hsz).
  exists sz'. split; [|exact Hsz].
  apply in_not_mid with (y := mkBlock (p - 4) sz Allocated); [exact Hb|].
  intros E. injection E as E _. lia.
Qed.

Lemma others_addr a bl1 B bl2 e b :
  chain a (bl1 ++ B :: bl2) e -> In b (bl1 ++ bl2) -> b_addr b <> b_addr B.
Proof.
  intros Hc Hi E.
  assert (HB : In B (bl1 ++ B :: bl2)) by in_list.
  apply (chain_not_both _ _ _ _ _ Hc).
  rewrite <- (chain_addr_inj _ _ _ b B Hc (in_remove_mid _ _ _ _ Hi) HB E).
  exact Hi.
Qed.

(** The live pointers after [mm_free p]. *)
Lemma tracks_free bl1 p sz bl2 live bl' a e r rsz :
  chain a (bl1 ++ mkBlock (p - 4) sz Allocated :: bl2) e ->
  tracks live (bl1 ++ mkBlock (p - 4) sz Allocated :: bl2) ->
  keeps_allocated (bl1 ++ bl2) bl' ->
  (forall b, In b bl' -> b = mkBlock r rsz Free \/ In b (bl1 ++ bl2)) ->
  tracks (remove_ptr p live) bl'.
Proof.
  intros Hc Tr Ka Hold. split; [|split].
  - intros p' n' Hp'. apply in_remove_ptr in Hp'. cbn [fst] in Hp'.
    destruct Hp' as [Hp' Hne].
    destruct (tracks_others _ _ _ _ _ _ _ Tr Hp' Hne) as (sz' & Hb & Hs).
    exists sz'. split; [apply Ka; [exact Hb|reflexivity]|exact Hs].
  - intros b Hb Sb. destruct (Hold b Hb) as [Eb|Ho].
    { subst b. discriminate Sb. }
    pose proof (others_addr _ _ _ _ _ _ Hc Ho) as Hne. cbn [b_addr] in Hne.
    apply in_fst_remove_ptr. split; [|lia].
    apply (proj1 (proj2 Tr)); [apply in_remove_mid; exact Ho|exact Sb].
  - apply nodup_remove_ptr. apply (proj2 (proj2 Tr)).
Qed.

(** The live pointers after [mm_malloc n] has returned [q]. *)
Lemma tracks_malloc bl live bl' q qsz n :
  tracks live bl -> keeps_allocated bl bl' ->
  In (mkBlock (q - 4) qsz Allocated) bl' -> n + 8 <= qsz ->
  (forall b, In b bl -> b_status b = Allocated -> b_addr b <> q - 4) ->
  (forall b, In b bl' -> b_status b = Allocated ->
             b = mkBlock (q - 4) qsz Allocated \/ In b bl) ->
  tracks ((q, n) :: live) bl' /\ ~ In q (map fst live).
Proof.
  intros (Hl & Ha & Hd) Ka HQ Hq Hfresh Hnew.
  assert (Hq' : ~ In q (map fst live)).
  { intros Hi. apply in_map_iff in Hi. destruct Hi as ((y & m) & E & Hi).
    cbn [fst] in E. subst y. destruct (Hl q m Hi) as (sz & Hb & _).
    apply (Hfresh _ Hb eq_refl). reflexivity. }
  split; [|exact Hq']. split; [|split].
  - intros p m [Ep|Hp].
    + injection Ep as <- <-. exists qsz. split; [exact HQ|lia].
    + destruct (Hl p m Hp) as (sz & Hb & Hsz). exists sz.
      split; [apply Ka; [exact Hb|reflexivity]|exact Hsz].
  - intros b Hb Sb. cbn [map fst]. destruct (Hnew b Hb Sb) as [Eb|Ho].
    + left. subst b. cbn [b_addr]. lia.
    + right. apply Ha; assumption.
  - cbn [map fst]. constructor; assumption.
Qed.

(** The live pointers after [mm_realloc p n] has returned [q]. *)
Lemma tracks_realloc bl1 p sz bl2 live bl' a e q qsz n :
  chain a (bl1 ++ mkBlock (p - 4) sz Allocated :: bl2) e ->
  tracks live (bl1 ++ mkBlock (p - 4) sz Allocated :: bl2) ->
  keeps_allocated (bl1 ++ bl2) bl' ->
  In (mkBlock (q - 4) qsz Allocated) bl' -> n + 8 <= qsz ->
  (forall b, In b (bl1 ++ bl2) -> b_status b = Allocated ->
             b_addr b <> q - 4) ->
  (forall b, In b bl' -> b_status b = Allocated ->
             b = mkBlock (q - 4) qsz Allocated \/ In b (bl1 ++ bl2)) ->
  tracks ((q, n) :: remove_ptr p live) bl' /\
  forall p' n', In (p', n') live -> p' <> p -> q <> p'.
Proof.
  intros Hc Tr Ka HQ Hq Hfresh Hnew.
  assert (Hq' : forall p' n', In (p', n') live -> p' <> p -> q <> p').
  { intros p' n' Hp' Hne E. subst p'.
    destruct (tracks_others _ _ _ _ _ _ _ Tr Hp' Hne) as (sz' & Hb & _).
    apply (Hfresh _ Hb eq_refl). reflexivity. }
  split; [|exact Hq']. split; [|split].
  - intros p' n' [Ep|Hp'].
    + injection Ep as <- <-. exists qsz. auto.
    + apply in_remove_ptr in Hp'. cbn [fst] in Hp'. destruct Hp' as [Hp' Hne].
      destruct (tracks_others _ _ _ _ _ _ _ Tr Hp' Hne) as (sz' & Hb & Hs).
      exists sz'. split; [apply Ka; [exact Hb|reflexivity]|exact Hs].
  - intros b Hb Sb. cbn [map fst]. destruct (Hnew b Hb Sb) as [Eb|Ho].
    + left. subst b. cbn [b_addr]. lia.
    + right. pose proof (others_addr _ _ _ _ _ _ Hc Ho) as Hne.
      cbn [b_addr] in Hne. apply in_fst_remove_ptr. split; [|lia].
      apply (proj1 (proj2 Tr)); [apply in_remove_mid; exact Ho|exact Sb].
  - cbn [map fst]. constructor; [|apply nodup_remove_ptr, (proj2 (proj2 Tr))].
    intros Hi. apply in_fst_remove_ptr in Hi. destruct Hi as [Hi Hne].
    apply in_map_iff in Hi. destruct Hi as ((y & m) & E & Hi).
    cbn [fst] in E. subst y. exact (Hq' q m Hi Hne eq_refl).
Qed.

(** A store of the caller inside a live payload keeps the heap. *)
Lemma store_live s bl fl live p n a v :
  heap_inv s bl fl -> tracks live bl -> In (p, n) live ->
  p <= a -> a + 4 <= p + n ->
  store a v s = Ok (tt, with_mem s (wr (mem s) a v)) /\
  heap_inv (with_mem s (wr (mem s) a v)) bl fl.
Proof.
  intros [R C] Tr Hp Ha1 Ha2.
  destruct (proj1 Tr p n Hp) as (sz & Hb & Hsz).
  pose proof (rep_block _ _ _ R _ Hb) as HBb.
  unfold b_end in HBb. cbn [b_addr b_size] in HBb.
  pose proof (hr_lo _ _ _ R). split.
  - unfold store. rewrite in_heap_true; [reflexivity|lia|lia].
  - split; [|exact C].
    apply rep_payload_write with (q := p - 4) (qsz := sz); auto.
    intros x Hx. apply wr_other. lia.
Qed.

(** Every reachable state is a well-formed heap without neighbouring free
    blocks whose allocated blocks are those of the live pointers. *)
Lemma reachable_inv s live :
  reachable s live ->
  exists bl fl, heap_inv s bl fl /\ coalesced bl /\ tracks live bl.
Proof.
  induction 1 as [s s' Hb Hlo Hal Hroom Hmax E
                 |s live fuel n q s' Hr IH Hn E
                 |s live p n s' Hr IH Hp E
                 |s live fuel p n0 n q s' Hr IH Hp Hn E
                 |s live p n a v s' Hr IH Hp Ha1 Ha2 E].
  - (* mm_init *)
    destruct (Z_le_gt_dec (mem_start_brk s + 216) (mem_max_addr s)) as [Hr|Hn].
    + pose proof (wp_partial _ _ _ _ _
                    (wp_total True _ _ _ (mm_init_room s Hb Hlo Hal Hr Hmax)) E)
        as (_ & I' & _).
      exists [mkBlock (mem_start_brk s + 12) 200 Free], [mem_start_brk s + 12].
      split; [exact I'|]. split; [apply coalesced_b_sound; reflexivity|].
      split; [|split].
      * intros p n [].
      * intros b [<-|[]] Sb. discriminate Sb.
      * constructor.
    + pose proof (wp_partial _ _ _ _ _
                    (wp_total True _ _ _
                       (mm_init_no_room s Hb Hlo Hal Hroom ltac:(lia) Hmax)) E)
        as (_ & I' & _).
      exists [], []. split; [exact I'|]. split; [exact I|].
      split; [|split].
      * intros p n [].
      * intros b [].
      * constructor.
  - (* mm_malloc *)
    destruct IH as (bl & fl & I0 & K0 & Tr).
    destruct (required_block_size_ok n ltac:(lia)) as (H1 & _).
    assert (W : wp True (mm_malloc fuel n) s (fun q s' =>
      exists bl' fl', heap_inv s' bl' fl' /\ coalesced bl' /\
                      tracks ((q, n) :: live) bl')).
    { apply mm_malloc_full with (K := True) (bl := bl) (fl := fl); auto.
      intros q0 s0 bl' fl' qsz I' Ev _ _ _ _ HQ Hq Hfresh Hnew HK.
      destruct Ev as (_ & Ka & _).
      exists bl', fl'. split; [exact I'|]. split; [exact (HK I)|].
      apply (tracks_malloc bl live bl' q0 qsz n); auto. lia. }
    exact (wp_partial _ _ _ _ _ W E).
  - (* mm_free *)
    destruct IH as (bl & fl & I0 & K0 & Tr).
    destruct (tracks_split _ _ _ _ Tr Hp) as (bl1 & sz & bl2 & -> & Hsz).
    pose proof (hr_chain _ _ _ (proj1 I0)) as Hc.
    assert (W : wp True (mm_free p) s (fun _ s' =>
      exists bl' fl', heap_inv s' bl' fl' /\ coalesced bl' /\
                      tracks (remove_ptr p live) bl')).
    { apply mm_free_full with (K := True) (bl1 := bl1) (sz := sz) (bl2 := bl2)
                              (fl := fl); auto.
      intros s0 bl' fl' r rsz I' _ Ka _ _ _ _ Hold _ HK.
      exists bl', fl'. split; [exact I'|]. split; [exact (HK I)|].
      exact (tracks_free _ _ _ _ _ _ _ _ _ _ Hc Tr Ka Hold). }
    exact (wp_partial _ _ _ _ _ W E).
  - (* mm_realloc *)
    destruct IH as (bl & fl & I0 & K0 & Tr).
    destruct (tracks_split _ _ _ _ Tr Hp) as (bl1 & sz & bl2 & -> & Hsz).
    pose proof (hr_chain _ _ _ (proj1 I0)) as Hc.
    assert (W : wp True (mm_realloc fuel p n) s
              (realloc_full_post True s bl1 p sz bl2 n
                 (required_block_size (to_int n)))).
    { apply mm_realloc_full with (fl := fl); auto. }
    destruct (wp_partial _ _ _ _ _ W E)
      as (bl' & fl' & qsz & I' & HQ & Hq & _ & _ & Ka & _ & _ & [_ Hfr]
          & Hnew & HK).
    exists bl', fl'. split; [exact I'|]. split; [exact (HK I)|].
    exact (proj1 (tracks_realloc _ _ _ _ _ _ _ _ _ _ _ Hc Tr Ka HQ Hq Hfr Hnew)).
  - (* a store of the caller *)
    destruct IH as (bl & fl & I0 & K0 & Tr).
    exists bl, fl. split; [|split; [exact K0|exact Tr]].
    destruct (store_live s bl fl live p n a v I0 Tr Hp Ha1 Ha2) as [E' I'].
    rewrite E' in E. injection E as <-. exact I'.
Qed.

(** The states used as examples are reachable. *)
Lemma heap0_reachable : reachable heap0 [].
Proof.
  unfold heap0.
  apply reach_init with (s := fresh zeros 1000 100000);
    [reflexivity|reflexivity|reflexivity
    |vm_compute; discriminate|vm_compute; discriminate|].
  apply ok_state_after. vm_compute. reflexivity.
Qed.

Lemma heap2_reachable : reachable heap2 [(1040, 16); (1016, 16)].
Proof.
  unfold heap2.
  apply reach_malloc with (s := state_after (mm_malloc 10 16) heap0)
                          (fuel := 10%nat); [|unfold two31; lia|].
  - apply reach_malloc with (s := heap0) (fuel := 10%nat);
      [exact heap0_reachable|unfold two31; lia|].
    apply ok_state_after. vm_compute. reflexivity.
  - apply ok_state_after. vm_compute. reflexivity.
Qed.

(** * Runs of the code on concrete regions *)

Example heap0_shape :
  value_of mm_init (fresh zeros 1000 100000) = Some 0 /\
  (mem_brk heap0, heap_blocks heap0, free_headp heap0, free_tailp heap0)
  = (1216, 1004, 1012, 1012) /\
  map (rd (mem heap0)) [1000; 1004; 1008; 1012; 1208; 1212]
  = [0; 9; 9; 200; 200; 1].
Proof. vm_compute. repeat split. Qed.

Example heap2_shape :
  value_of (mm_malloc 10 16) heap0 = Some 1016 /\
  value_of (mm_malloc 10 16) (state_after (mm_malloc 10 16) heap0)
  = Some 1040 /\
  map (rd (mem heap2)) [1012; 1032; 1036; 1056; 1060; 1208]
  = [25; 25; 25; 25; 152; 152] /\
  (free_headp heap2, free_tailp heap2) = (1060, 1060).
Proof. vm_compute. repeat split. Qed.

Example heap5_shape :
  (free_headp heap5, free_tailp heap5) = (1084, 1132) /\
  map (rd (mem heap5)) [1088; 1092; 1040; 1044; 1136; 1140]
  = [0; 1036; 1084; 1132; 1036; 0] /\
  value_of (check_heap 100) heap5 = Some true.
Proof. vm_compute. repeat split. Qed.

(** ** Exhausted provider *)

Lemma extend_heap_fails s r :
  mem_max_addr s < mem_brk s + r -> extend_heap r s = Ok (0, s).
Proof.
  intros H. unfold extend_heap, bind, mem_sbrk.
  replace (mem_max_addr s <? mem_brk s + r) with true
    by (symmetry; apply Z.ltb_lt; exact H).
  rewrite orb_true_r. reflexivity.
Qed.

Lemma malloc_grow_stuck s r fit_fuel :
  extend_heap r s = Ok (0, s) ->
  find_fit fit_fuel r s = Timeout \/ find_fit fit_fuel r s = Ok (0, s) ->
  forall fuel, malloc_grow fuel fit_fuel r s = Timeout.
Proof.
  intros Hext Hfit fuel. induction fuel as [|fuel IH]; [reflexivity|].
  cbn [malloc_grow]. unfold bind at 1. rewrite Hext.
  unfold bind at 1. destruct Hfit as [E|E]; rewrite E; [reflexivity|].
  cbn [Z.eqb negb]. exact IH.
Qed.

Lemma find_fit_exhausted fuel :
  find_fit fuel 1008 exhausted = Timeout \/
  find_fit fuel 1008 exhausted = Ok (0, exhausted).
Proof.
  destruct fuel as [|[|fuel]]; [left|left|right]; vm_compute; reflexivity.
Qed.

(** C1 (the code does not do this).  After [mm_init] on a provider that is
    then exhausted, [mm_malloc 1000] finds no fit, [extend_heap] fails and
    returns [NULL], and the [while (1)] loop tries again from the same
    state: whatever the fuel, the call runs out of it and never returns,
    neither a pointer nor [NULL]. *)
Theorem mm_malloc_exhausted_never_returns :
  forall fuel, mm_malloc fuel 1000 exhausted = Timeout.
Proof.
  intros fuel. unfold mm_malloc.
  change (1000 =? 0) with false. cbv iota.
  change (required_block_size (to_int 1000)) with 1008.
  assert (Hg : malloc_grow fuel fuel 1008 exhausted = Timeout).
  { apply malloc_grow_stuck.
    - apply extend_heap_fails. vm_compute. reflexivity.
    - apply find_fit_exhausted. }
  unfold bind at 1.
  destruct (find_fit_exhausted fuel) as [E|E]; rewrite E; [reflexivity|].
  cbn [Z.eqb negb]. unfold bind at 1. rewrite E.
  cbn [Z.eqb]. exact Hg.
Qed.

(** ** [mm_realloc] with a zero size *)

(** C2 (the code does not do this).  [mm_realloc p 0] passes the header
    address [p - 4] to [mm_free], which steps back four more bytes: it is
    the footer of the block before [p] that gets treated as a header.  On
    [heap2] with [p = 1040], [mm_free p] marks the block at 1036 free, merges
    it with the free block after it and makes it the head of the free list;
    [mm_realloc p 0] returns [NULL] but leaves that block allocated, leaves
    the free list alone and overwrites the footer of the block before. *)
Theorem mm_realloc_zero_is_not_free :
  let freed := state_after (mm_free 1040) heap2 in
  let resized := state_after (mm_realloc 10 1040 0) heap2 in
  value_of (mm_free 1040) heap2 = Some tt /\
  value_of (mm_realloc 10 1040 0) heap2 = Some 0 /\
  rd (mem freed) 1036 = 176 /\ rd (mem resized) 1036 = 25 /\
  free_headp freed = 1036 /\ free_headp resized = 1060 /\
  rd (mem freed) 1032 = 25 /\ rd (mem resized) 1032 = 48.
Proof. vm_compute. repeat split. Qed.

(** ** [mm_realloc] with a null pointer *)

Lemma mm_realloc_null_faults fuel n s :
  0 <= mem_start_brk s -> mm_realloc fuel 0 n s = Fault.
Proof.
  intros H.
  assert (E : get_size (0 - 4) s = Fault).
  { unfold get_size, bind, load_int, in_heap.
    replace (mem_start_brk s <=? 0 - 4) with false
      by (symmetry; apply Z.leb_gt; lia).
    reflexivity. }
  unfold mm_realloc. unfold bind at 1. rewrite E. reflexivity.
Qed.

(** C3 (the code does not do this).  [mm_realloc] reads the header at
    [ptr - 4] and the header of the block after it before any test, and its
    test for the null case compares [ptr - 4], not [ptr], with [NULL].  On
    [heap0], [mm_malloc 16] returns the payload 1016 while
    [mm_realloc NULL 16] faults on the read below the region. *)
Theorem mm_realloc_null_is_not_malloc :
  value_of (mm_malloc 10 16) heap0 = Some 1016 /\
  mm_realloc 10 0 16 heap0 = Fault /\
  (0 - 4 =? 0) = false.
Proof. vm_compute. repeat split. Qed.

(** ** Removing an interior node *)

(** C5 (the code does not do this).  On [heap5] the free list is
    [1084; 1036; 1132].  Removing the interior node 1036 relinks its two
    neighbours but leaves its own links as they were; the three other
    cases of [free_list_remove] do clear them. *)
Theorem free_list_remove_interior_keeps_links :
  let s := state_after (free_list_remove 1036) heap5 in
  value_of (free_list_remove 1036) heap5 = Some tt /\
  rd (mem heap5) (1036 + 4) = 1084 /\ rd (mem heap5) (1036 + 8) = 1132 /\
  rd (mem s) (1084 + 8) = 1132 /\ rd (mem s) (1132 + 4) = 1084 /\
  rd (mem s) (1036 + 4) = 1084 /\ rd (mem s) (1036 + 8) = 1132.
Proof. vm_compute. repeat split. Qed.

Example free_list_remove_other_cases_clear_links :
  let clears bp :=
    let s := state_after (free_list_remove bp) heap5 in
    (rd (mem s) (bp + 4), rd (mem s) (bp + 8)) in
  clears 1084 = (0, 0) /\ clears 1132 = (0, 0) /\
  (let s := state_after (free_list_remove 1012) heap0 in
   (rd (mem s) 1016, rd (mem s) 1020, free_headp s, free_tailp s))
  = (0, 0, 0, 0).
Proof. vm_compute. repeat split. Qed.

(** ** Header/footer agreement after [mm_realloc p 0] *)

(** C7 (the code does not do this).  On [heap2] every block reachable from
    the prologue has a footer equal to its header, and this still holds
    after [mm_free], after a further [mm_malloc] and after an in-place
    [mm_realloc].  After [mm_realloc 1040 0] (same defect as in C2: the
    header address is handed to [mm_free]) the first block has header
    [24 | 1] and footer [48 | 0]. *)
Theorem mm_realloc_zero_breaks_agreement :
  let resized := state_after (mm_realloc 10 1040 0) heap2 in
  value_of (check_heap 100) heap0 = Some true /\
  value_of (check_heap 100) heap2 = Some true /\
  value_of (check_heap 100) (state_after (mm_free 1040) heap2) = Some true /\
  value_of (check_heap 100) (state_after (mm_malloc 10 300) heap2)
  = Some true /\
  value_of (check_heap 100) (state_after (mm_realloc 10 1040 100) heap2)
  = Some true /\
  value_of (mm_realloc 10 1040 0) heap2 = Some 0 /\
  value_of (check_heap 100) resized = Some false /\
  rd (mem resized) 1012 = Z.lor 24 1 /\
  rd (mem resized) (1012 + 24 - 4) = Z.lor 48 0.
Proof. vm_compute. repeat split. Qed.

(** ** Result of [mm_init] *)

Lemma mm_init_wp s :
  0 <= mem_start_brk s <= mem_brk s ->
  wp False mm_init s
     (fun r _ => r = if mem_max_addr s <? mem_brk s + 16 then -1 else 0).
Proof.
  intros Hs. unfold mm_init.
  do 4 wp_prim. apply wp_bind. apply wp_mem_sbrk; proj_simpl.
  - intros H. replace (mem_max_addr s <? mem_brk s + 16) with true
      by (symmetry; apply Z.ltb_lt; lia).
    cbn. reflexivity.
  - intros _ H. replace (mem_max_addr s <? mem_brk s + 16) with false
      by (symmetry; apply Z.ltb_ge; lia).
    replace (mem_brk s =? -1) with false by (symmetry; apply Z.eqb_neq; lia).
    wp_run. unfold extend_heap. apply wp_bind. apply wp_mem_sbrk; proj_simpl.
    + intros _. wp_run. reflexivity.
    + intros _ H2.
      replace (mem_brk s + 16 =? -1) with false
        by (symmetry; apply Z.eqb_neq; lia).
      wp_run. unfold free_coalesce. wp_run.
      unfold free_list_insert, free_list_prepend. wp_run.
      reflexivity.
Qed.

(** C9.  On any provider whose region lies at non-negative addresses,
    [mm_init] returns, and its result is [-1] exactly when the provider
    cannot supply the first 16 bytes; otherwise it is [0], whether or not
    the provider can supply the 200 bytes of the first extension. *)
Theorem mm_init_result s :
  0 <= mem_start_brk s <= mem_brk s ->
  value_of mm_init s
  = Some (if mem_max_addr s <? mem_brk s + 16 then -1 else 0).
Proof.
  intros Hs. destruct (wp_ok _ _ _ (mm_init_wp s Hs)) as (r & s' & E & Hr).
  unfold value_of. rewrite E, Hr. reflexivity.
Qed.

(** A provider with 100 bytes: the 16-byte region is supplied, the 200-byte
    extension is refused, and [mm_init] returns 0. *)
Lemma mm_init_result_witness :
  0 <= 1000 <= 1000 /\
  mem_brk (fresh zeros 1000 100) + 16 + 200
  > mem_max_addr (fresh zeros 1000 100) /\
  value_of mm_init (fresh zeros 1000 100) = Some 0.
Proof.
  split; [lia|]. split; [reflexivity|].
  apply (mm_init_result (fresh zeros 1000 100)). simpl. lia.
Defined.

Example mm_init_fails_without_16_bytes :
  value_of mm_init (fresh zeros 1000 15) = Some (-1).
Proof. apply (mm_init_result (fresh zeros 1000 15)). simpl. lia. Qed.

(** * Claims on coalescing and on the fit search *)

(** C4, as the code has it.  When [free_coalesce] runs on a block that is
    not on the free list, whose previous heap neighbour is allocated (or is
    the prologue) and whose next heap neighbour [nb] is free, it returns
    the block itself; [nb] is off the free list; the header and the footer
    of the block both hold the combined size with the allocated bit clear;
    and the block is at the head of the free list if its own size before
    the merge is below 1000 and at the tail otherwise. *)
Theorem free_coalesce_next_free s bl1 bp sz st nb nsz bl2 l1 l2 :
  heap_rep s (bl1 ++ mkBlock bp sz st :: mkBlock nb nsz Free :: bl2)
           (l1 ++ nb :: l2) ->
  st <> Free -> clean bl1 -> clean bl2 ->
  (forall bl1' pb, bl1 = bl1' ++ [pb] -> b_status pb = Allocated) ->
  exists s',
    free_coalesce bp s = Ok (bp, s') /\
    heap_rep s' (bl1 ++ mkBlock bp (sz + nsz) Free :: bl2)
             (insert_fl sz bp (l1 ++ l2)) /\
    ~ In nb (insert_fl sz bp (l1 ++ l2)) /\
    rd (mem s') bp = sz + nsz /\ rd (mem s') (bp + (sz + nsz) - 4) = sz + nsz /\
    (if sz <? 1000 then free_headp s' = bp else free_tailp s' = bp).
Proof.
  intros R Hst C1 C2 Hprev. apply rep_limbo in R; [|exact Hst].
  pose proof (hr_chain _ _ _ R) as Hc. apply chain_split in Hc.
  destruct Hc as (_ & _ & _ & Hc). cbn [chain] in Hc.
  destruct Hc as (Enb & _). unfold b_end in Enb. cbn [b_addr b_size] in Enb.
  pose proof (hr_nodup _ _ _ R) as Hnd.
  destruct (limbo_node _ _ _ _ _ _ R) as (_ & Hni & _ & _ & Hsz & _).
  assert (W : wp False (free_coalesce bp) s (fun r s' =>
            r = bp /\
            heap_rep s' (bl1 ++ mkBlock bp (sz + nsz) Free :: bl2)
                     (insert_fl sz bp (l1 ++ l2)))).
  { apply free_coalesce_mark
      with (bl1 := bl1) (sz := sz) (bl2 := mkBlock nb nsz Free :: bl2)
           (fl := l1 ++ nb :: l2); auto.
    { apply clean_cons. split; [discriminate|exact C2]. }
    intros s2 psz pal nsz' nal R2 Sr2 Hout Hh2 Hf2 HP HN.
    destruct HP as [->|(_ & bl1' & E)];
      [|specialize (Hprev _ _ E); discriminate Hprev].
    destruct HN as [(_ & HNa)|(-> & bl2' & E)]; [discriminate HNa|].
    injection E as _ <- <-.
    eapply coalesce_AF; eauto. }
  apply wp_ok in W. destruct W as (r & s' & E & -> & R').
  exists s'. split; [exact E|]. split; [exact R'|].
  assert (Hi : In (mkBlock bp (sz + nsz) Free)
                  (bl1 ++ mkBlock bp (sz + nsz) Free :: bl2)) by in_list.
  pose proof (rep_tagged _ _ _ R' _ Hi) as [T1 T2].
  unfold b_end in T2. cbn [b_addr b_size] in *.
  split; [|split; [exact T1|split; [exact T2|]]].
  - rewrite in_insert_fl. intros [E'|Hi'].
    + lia.
    + apply NoDup_remove_2 in Hnd. contradiction.
  - pose proof (hr_head _ _ _ R') as Hh. pose proof (hr_tail _ _ _ R') as Htl.
    unfold insert_fl in *. destruct (sz <? 1000).
    + exact Hh.
    + rewrite last_last in Htl. exact Htl.
Qed.

Example heap_big_next_rep :
  check_rep heap_big_next heap_big_next_blocks [1012; 1084] = true.
Proof. vm_compute. reflexivity. Qed.

(** On [heap_big_next], coalescing the allocated block at 1060 (24 bytes,
    between an allocated block and the free block at 1084). *)
Lemma free_coalesce_next_free_witness :
  let s := heap_big_next in
  heap_rep s ([mkBlock 1012 24 Free; mkBlock 1036 24 Allocated]
                ++ mkBlock 1060 24 Allocated :: mkBlock 1084 2136 Free :: [])
           ([1012] ++ 1084 :: []) /\
  exists s',
    free_coalesce 1060 s = Ok (1060, s') /\
    heap_rep s' ([mkBlock 1012 24 Free; mkBlock 1036 24 Allocated]
                   ++ mkBlock 1060 (24 + 2136) Free :: [])
             (insert_fl 24 1060 ([1012] ++ [])) /\
    ~ In 1084 (insert_fl 24 1060 ([1012] ++ [])) /\
    rd (mem s') 1060 = 24 + 2136 /\
    rd (mem s') (1060 + (24 + 2136) - 4) = 24 + 2136 /\
    (if 24 <? 1000 then free_headp s' = 1060 else free_tailp s' = 1060).
Proof.
  assert (R : heap_rep heap_big_next
                ([mkBlock 1012 24 Free; mkBlock 1036 24 Allocated]
                   ++ mkBlock 1060 24 Allocated :: mkBlock 1084 2136 Free :: [])
                ([1012] ++ 1084 :: [])).
  { apply check_rep_sound. vm_compute. reflexivity. }
  split; [exact R|].
  apply (free_coalesce_next_free heap_big_next
           [mkBlock 1012 24 Free; mkBlock 1036 24 Allocated]
           1060 24 Allocated 1084 2136 [] [1012] [] R).
  - discriminate.
  - apply clean_b_sound. reflexivity.
  - apply clean_b_sound. reflexivity.
  - intros bl1' pb E.
    apply (app_inj_tail [mkBlock 1012 24 Free] bl1' (mkBlock 1036 24 Allocated) pb) in E.
    destruct E as [_ <-]. reflexivity.
Defined.

(** C4 as stated fails: on [heap_big_next] the block at 1060 has size 24,
    an allocated predecessor and a free successor of 2136 bytes.  After
    [free_coalesce] its header holds the combined size 2160, which is not
    below 1000, and yet the block is at the head of the free list and not
    at its tail: the test is made on the size before the merge. *)
Lemma free_coalesce_head_despite_combined_size :
  let s' := state_after (free_coalesce 1060) heap_big_next in
  value_of (free_coalesce 1060) heap_big_next = Some 1060 /\
  rd (mem heap_big_next) 1036 = 24 + 1 /\
  rd (mem heap_big_next) 1060 = 24 + 1 /\
  rd (mem heap_big_next) 1084 = 2136 /\
  rd (mem s') 1060 = 2160 /\ (2160 <? 1000) = false /\
  free_headp s' = 1060 /\ free_tailp s' = 1012 /\ free_tailp s' <> 1060.
Proof. vm_compute. repeat split; discriminate. Qed.

(** [find_fit] for every size, with the test of the code.  On a
    well-represented heap and with fuel for one step per node of the free
    list, [find_fit] returns without changing the state; its result is that
    of the list search run from the tail of the free list when [size > 270]
    and from its head otherwise; it is [NULL] exactly when every free block
    is smaller than [size]; and a block it returns is on the free list and
    has size at least [size]. *)
Theorem find_fit_search s bl fl size fuel :
  heap_rep s bl fl -> (length fl < fuel)%nat ->
  exists r,
    find_fit fuel size s = Ok (r, s) /\
    r = scan_fit size (if size >? 270 then rev (sized s fl) else sized s fl) /\
    (r = 0 <-> forall b, In b bl -> b_status b = Free -> b_size b < size) /\
    (r <> 0 ->
     In r fl /\ exists sz, In (mkBlock r sz Free) bl /\ size <= sz).
Proof.
  intros R Hf.
  destruct (wp_ok _ _ _ (find_fit_spec s bl fl R False size fuel (or_intror Hf)))
    as (r & s' & E & Hr & ->).
  exists r. split; [exact E|]. split; [exact Hr|].
  set (L := if size >? 270 then rev (sized s fl) else sized s fl) in *.
  assert (HL : forall p, In p L <-> In p (sized s fl)).
  { intros p. unfold L. destruct (size >? 270); [|reflexivity].
    symmetry. apply in_rev. }
  assert (Hnz : Forall (fun p => fst p <> 0) L).
  { apply Forall_forall. intros p Hp. apply HL in Hp. unfold sized in Hp.
    apply in_map_iff in Hp. destruct Hp as (y & <- & Hy). cbn [fst].
    pose proof (node_word s bl fl R y Hy). lia. }
  split.
  - rewrite Hr, (scan_fit_none size L Hnz), Forall_forall. split.
    + intros H b Hb Fb.
      assert (Hy : In (b_addr b) fl).
      { apply (hr_free _ _ _ R). apply in_free_addrs. exists b. auto. }
      assert (Hp : In (b_addr b, rd (mem s) (b_addr b)) L).
      { apply HL. unfold sized. apply in_map_iff. exists (b_addr b). auto. }
      specialize (H _ Hp). cbn [snd] in H.
      pose proof (rep_tagged _ _ _ R b Hb) as Tb. unfold tagged in Tb.
      rewrite Fb in Tb. destruct Tb as [Tb _]. lia.
    + intros H p Hp. apply HL in Hp. unfold sized in Hp.
      apply in_map_iff in Hp. destruct Hp as (y & <- & Hy). cbn [snd].
      destruct (node_word s bl fl R y Hy) as (_ & _ & _ & _ & _ & Hb).
      apply (H _ Hb). reflexivity.
  - intros Hne. rewrite Hr in Hne.
    destruct (scan_fit_some size L Hne) as (sz & Hi & Hs).
    rewrite <- Hr in Hi. apply HL in Hi. unfold sized in Hi.
    apply in_map_iff in Hi. destruct Hi as (y & Ey & Hy).
    injection Ey as -> <-. split; [exact Hy|].
    destruct (node_word s bl fl R r Hy) as (_ & _ & _ & _ & _ & Hb).
    exists (rd (mem s) r). auto.
Qed.

Example heap_fit_rep :
  check_rep heap_fit heap_fit_blocks [1524; 2108; 2724; 1012] = true.
Proof. vm_compute. reflexivity. Qed.

(** On [heap_fit], a request of 272 bytes is searched from the tail and
    gets the block at 2724. *)
Lemma find_fit_search_witness :
  heap_rep heap_fit heap_fit_blocks [1524; 2108; 2724; 1012] /\
  (length [1524; 2108; 2724; 1012] < 10)%nat /\
  exists r,
    find_fit 10 272 heap_fit = Ok (r, heap_fit) /\
    r = scan_fit 272
          (if 272 >? 270 then rev (sized heap_fit [1524; 2108; 2724; 1012])
           else sized heap_fit [1524; 2108; 2724; 1012]) /\
    (r = 0 <->
     forall b, In b heap_fit_blocks -> b_status b = Free -> b_size b < 272) /\
    (r <> 0 ->
     In r [1524; 2108; 2724; 1012] /\
     exists sz, In (mkBlock r sz Free) heap_fit_blocks /\ 272 <= sz).
Proof.
  assert (R : heap_rep heap_fit heap_fit_blocks [1524; 2108; 2724; 1012]).
  { apply check_rep_sound. vm_compute. reflexivity. }
  assert (L : (length [1524; 2108; 2724; 1012] < 10)%nat) by (simpl; lia).
  split; [exact R|]. split; [exact L|].
  apply (find_fit_search heap_fit heap_fit_blocks [1524; 2108; 2724; 1012]
           272 10 R L).
Defined.

(** The test of the code is [size > 270].  It differs from [size >= 270]
    at 270 only, which is no multiple of 8 and so no size that [mm_malloc]
    passes.  On [heap_fit] the search from the tail returns the block at
    2724 (this is what [find_fit] returns for 272), the search from the head
    returns the block at 1524, and [find_fit 270] returns the latter. *)
Lemma find_fit_270_searches_from_head :
  (270 >=? 270) = true /\
  value_of (find_fit_from_tail 10 270 (free_tailp heap_fit)) heap_fit
  = Some 2724 /\
  value_of (find_fit_from_head 10 270 (free_headp heap_fit)) heap_fit
  = Some 1524 /\
  value_of (find_fit 10 270) heap_fit = Some 1524 /\
  value_of (find_fit 10 272) heap_fit = Some 2724.
Proof. vm_compute. repeat split. Qed.

(** The size that [mm_malloc] passes to [find_fit] is a multiple of 8,
    whatever the request. *)
Lemma required_block_size_multiple_of_8 n : required_block_size n mod 8 = 0.
Proof.
  unfold required_block_size. cbv zeta.
  generalize (Z.quot (to_int (to_int (n + 8) + 7)) 8). intros k.
  unfold to_int, two32, two31.
  destruct (_ <? _); Z.div_mod_to_equations; lia.
Qed.

(** On the multiples of 8 the test [size > 270] of the code is the test
    [size >= 270]. *)
Lemma tail_test_multiple_of_8 size :
  size mod 8 = 0 -> (size >? 270) = (size >=? 270).
Proof.
  intros H8. destruct (size >? 270) eqn:E1; destruct (size >=? 270) eqn:E2;
    try reflexivity; exfalso.
  - apply Z.gtb_lt in E1. rewrite Z.geb_leb in E2. apply Z.leb_gt in E2. lia.
  - rewrite Z.geb_leb in E2. apply Z.leb_le in E2.
    assert (Hn : ~ 270 < size) by (rewrite <- Z.gtb_lt, E1; discriminate).
    Z.div_mod_to_equations. lia.
Qed.

(** C6.  [find_fit] is called with a required block size, a multiple of 8
    ([required_block_size_multiple_of_8]).  On a well-represented heap and
    with fuel for one step per node of the free list, [find_fit] then
    returns without changing the state; its result is that of the list
    search run from the tail of the free list when [size >= 270] and from
    its head otherwise; it is [NULL] exactly when every free block is
    smaller than [size]; and a block it returns is on the free list and has
    size at least [size]. *)
Theorem find_fit_required_size s bl fl size fuel :
  heap_rep s bl fl -> (length fl < fuel)%nat -> size mod 8 = 0 ->
  exists r,
    find_fit fuel size s = Ok (r, s) /\
    r = scan_fit size (if size >=? 270 then rev (sized s fl) else sized s fl) /\
    (r = 0 <-> forall b, In b bl -> b_status b = Free -> b_size b < size) /\
    (r <> 0 ->
     In r fl /\ exists sz, In (mkBlock r sz Free) bl /\ size <= sz).
Proof.
  intros R Hf H8.
  destruct (find_fit_search s bl fl size fuel R Hf) as (r & E & Hr & H0 & H1).
  exists r. split; [exact E|].
  split; [rewrite <- (tail_test_multiple_of_8 size H8); exact Hr|].
  split; [exact H0|exact H1].
Qed.

(** On [heap_fit], whose free list is [1524; 2108; 2724; 1012] with sizes
    272, 304, 280 and 200, a request of 272 bytes (the required size of a
    264-byte payload, and the least multiple of 8 that is at least 270) is
    searched from the tail and gets the block at 2724; from the head it
    would get the block at 1524. *)
Lemma find_fit_required_size_witness :
  heap_rep heap_fit heap_fit_blocks [1524; 2108; 2724; 1012] /\
  (length [1524; 2108; 2724; 1012] < 10)%nat /\
  required_block_size 264 = 272 /\ 272 mod 8 = 0 /\
  value_of (find_fit 10 272) heap_fit = Some 2724 /\
  scan_fit 272 (sized heap_fit [1524; 2108; 2724; 1012]) = 1524 /\
  exists r,
    find_fit 10 272 heap_fit = Ok (r, heap_fit) /\
    r = scan_fit 272
          (if 272 >=? 270 then rev (sized heap_fit [1524; 2108; 2724; 1012])
           else sized heap_fit [1524; 2108; 2724; 1012]) /\
    (r = 0 <->
     forall b, In b heap_fit_blocks -> b_status b = Free -> b_size b < 272) /\
    (r <> 0 ->
     In r [1524; 2108; 2724; 1012] /\
     exists sz, In (mkBlock r sz Free) heap_fit_blocks /\ 272 <= sz).
Proof.
  assert (R : heap_rep heap_fit heap_fit_blocks [1524; 2108; 2724; 1012]).
  { apply check_rep_sound. vm_compute. reflexivity. }
  assert (L : (length [1524; 2108; 2724; 1012] < 10)%nat) by (simpl; lia).
  split; [exact R|]. split; [exact L|].
  split; [vm_compute; reflexivity|]. split; [reflexivity|].
  split; [vm_compute; reflexivity|]. split; [vm_compute; reflexivity|].
  apply (find_fit_required_size heap_fit heap_fit_blocks
           [1524; 2108; 2724; 1012] 272 10 R L).
  reflexivity.
Defined.
(** * Claims on resizing and on alignment *)

(** X29.  Payload integrity of [mm_realloc] for the sizes that fit the
    [int] arithmetic of the code.  On a well-formed heap, for an allocated
    block of [sz] bytes with payload [p] (an old payload size of [sz - 8])
    and a new size [0 < n <= 2^31 - 16], if [mm_realloc p n] returns [q]
    then [q] is not [NULL] and the first [min (sz - 8) n] bytes at [q] are
    the bytes that were at [p] before the call.  The statement covers the
    in-place paths (grow, shrink, keep) and the allocate, copy and free
    path. *)
Theorem mm_realloc_keeps_payload fuel s bl1 p sz bl2 fl n q s' :
  heap_inv s (bl1 ++ mkBlock (p - 4) sz Allocated :: bl2) fl ->
  0 < n <= two31 - 16 ->
  mm_realloc fuel p n s = Ok (q, s') ->
  q <> 0 /\
  forall i, 0 <= i < Z.min (sz - 8) n -> mem s' (q + i) = mem s (p + i).
Proof.
  intros I0 Hn E.
  destruct (wp_partial _ _ _ _ _ (mm_realloc_spec fuel s bl1 p sz bl2 fl n I0 Hn) E)
    as (bl' & fl' & qsz & [R' _] & HQ & _ & Hbytes & _).
  split; [|exact Hbytes].
  pose proof (rep_block _ _ _ R' _ HQ) as (Hb & _).
  pose proof (hr_lo _ _ _ R'). cbn [b_addr] in Hb. lia.
Qed.

(** On [heap2_filled], resizing the 16-byte payload at 1016 to 40 bytes
    takes the allocate, copy and free path and returns 1168. *)
Lemma mm_realloc_keeps_payload_witness :
  let s := heap2_filled in
  let s' := state_after (mm_realloc 10 1016 40) s in
  heap_inv s ([] ++ mkBlock (1016 - 4) 24 Allocated ::
                [mkBlock 1036 24 Allocated; mkBlock 1060 152 Free]) [1060] /\
  0 < 40 <= two31 - 16 /\
  mm_realloc 10 1016 40 s = Ok (1168, s') /\
  1168 <> 0 /\
  forall i, 0 <= i < Z.min (24 - 8) 40 -> mem s' (1168 + i) = mem s (1016 + i).
Proof.
  assert (I0 : heap_inv heap2_filled
                 ([] ++ mkBlock (1016 - 4) 24 Allocated ::
                    [mkBlock 1036 24 Allocated; mkBlock 1060 152 Free]) [1060]).
  { apply check_inv_sound. vm_compute. reflexivity. }
  assert (Hn : 0 < 40 <= two31 - 16) by (unfold two31; lia).
  assert (E : mm_realloc 10 1016 40 heap2_filled
              = Ok (1168, state_after (mm_realloc 10 1016 40) heap2_filled)).
  { assert (V : value_of (mm_realloc 10 1016 40) heap2_filled = Some 1168)
      by (vm_compute; reflexivity).
    unfold value_of, state_after in *.
    destruct (mm_realloc 10 1016 40 heap2_filled) as [[a s1]| |];
      [|discriminate V|discriminate V].
    injection V as ->. reflexivity. }
  split; [exact I0|]. split; [exact Hn|]. split; [exact E|].
  exact (mm_realloc_keeps_payload 10 heap2_filled [] 1016 24
           [mkBlock 1036 24 Allocated; mkBlock 1060 152 Free] [1060] 40 1168
           _ I0 Hn E).
Defined.

(** The in-place paths on concrete heaps.  A 24-byte block followed by a
    free block of 176 bytes grows in place to 200 bytes when 40 bytes are
    asked for; a 608-byte block shrinks in place to 24 bytes when 16 bytes
    are asked for.  Both calls return the pointer they were given and the
    word the caller stored there is still there. *)
Example mm_realloc_in_place :
  value_of (a <- mm_malloc 10 16 ;; store a 287454020 ;;;
            q <- mm_realloc 10 a 40 ;;
            w <- load_int q ;; h <- load_int (q - 4) ;; ret (a, q, w, h)) heap0
  = Some (1016, 1016, 287454020, 200 + 1) /\
  value_of (a <- mm_malloc 10 600 ;; store a 287454020 ;;;
            h0 <- load_int (a - 4) ;;
            q <- mm_realloc 10 a 16 ;;
            w <- load_int q ;; h <- load_int (q - 4) ;; ret (a, h0, q, w, h)) heap0
  = Some (1216, 608 + 1, 1216, 287454020, 24 + 1).
Proof. vm_compute. split; reflexivity. Qed.

(** C8.  [mm_realloc] does not keep the payload for every size it
    accepts: its [size_t] size is narrowed to the [int] parameter of
    [required_block_size] without a check.  On [heap_large], a well-formed
    heap, the block at 1212 is allocated, has 264 bytes and its payload at
    1216 starts with the byte 68.  For [n = 2^32 - 7] the required block
    size wraps to 8, [mm_realloc] shrinks the block in place to 8 bytes,
    and the footer of that block is the first payload word: the call
    returns the non-null pointer 1216 and the byte at 1216 is 9, although
    the first [min (264 - 8) n] bytes should be those from before the
    call. *)
Lemma mm_realloc_huge_size_overwrites_payload :
  let s := heap_large in
  let n := 4294967289 in
  check_rep s heap_large_blocks [] && clean_b heap_large_blocks = true /\
  In (mkBlock (1216 - 4) 264 Allocated) heap_large_blocks /\
  0 < n < two32 /\
  required_block_size (to_int n) = 8 /\
  value_of (mm_realloc 10 1216 n) s = Some 1216 /\
  0 < Z.min (264 - 8) n /\
  mem s 1216 = 68 /\
  mem (state_after (mm_realloc 10 1216 n) s) 1216 = 9.
Proof. vm_compute. repeat split; auto; discriminate. Qed.

(** Apart from the [size == 0] branch of [mm_realloc], the pointers the
    allocator returns on a well-formed heap are multiples of 8. *)
Lemma mm_malloc_aligned fuel s bl fl n q s' :
  heap_inv s bl fl -> 0 < n <= two31 - 16 ->
  mm_malloc fuel n s = Ok (q, s') -> q <> 0 /\ q mod 8 = 0.
Proof.
  intros I0 Hn E.
  destruct (wp_partial _ _ _ _ _ (mm_malloc_spec fuel s bl fl n I0 Hn) E)
    as (bl' & fl' & qsz & [R' _] & _ & _ & HQ & _).
  pose proof (rep_block _ _ _ R' _ HQ) as (Hb & _).
  pose proof (rep_aligned _ _ _ R' _ HQ) as Ha.
  pose proof (hr_lo _ _ _ R'). cbn [b_addr] in Hb, Ha.
  split; [lia|]. Z.div_mod_to_equations. lia.
Qed.

Lemma mm_realloc_aligned fuel s bl1 p sz bl2 fl n q s' :
  heap_inv s (bl1 ++ mkBlock (p - 4) sz Allocated :: bl2) fl ->
  0 < n <= two31 - 16 ->
  mm_realloc fuel p n s = Ok (q, s') -> q <> 0 /\ q mod 8 = 0.
Proof.
  intros I0 Hn E.
  destruct (wp_partial _ _ _ _ _ (mm_realloc_spec fuel s bl1 p sz bl2 fl n I0 Hn) E)
    as (bl' & fl' & qsz & [R' _] & HQ & _).
  pose proof (rep_block _ _ _ R' _ HQ) as (Hb & _).
  pose proof (rep_aligned _ _ _ R' _ HQ) as Ha.
  pose proof (hr_lo _ _ _ R'). cbn [b_addr] in Hb, Ha.
  split; [lia|]. Z.div_mod_to_equations. lia.
Qed.

(** C10 fails after a [mm_realloc] with size 0.  [heap2_user] is well
    formed: two allocated blocks of 24 bytes with payloads at 1016 and 1040,
    the first payload ending with the words 1 and 9 written by the caller.
    [mm_realloc 1040 0] passes the header address 1036 to [mm_free], which
    frees the word at 1032, the footer of the first block, as if it were a
    block header, and puts it on the free list.  The next [mm_malloc 16]
    takes this block and returns 1036, which is 4 modulo 8. *)
Theorem mm_malloc_unaligned_after_realloc_zero :
  let s := heap2_user in
  let s1 := state_after (mm_realloc 10 1040 0) s in
  check_rep s heap2_blocks [1060] && clean_b heap2_blocks = true /\
  value_of (mm_realloc 10 1040 0) s = Some 0 /\
  free_headp s1 = 1032 /\
  value_of (mm_malloc 10 16) s1 = Some 1036 /\
  1036 mod 8 = 4.
Proof. vm_compute. repeat split; reflexivity. Qed.
(** * Further properties of the allocator's functions *)

(** X1.  Header codec round trip: after [set_header bp size al], with
    [size] a multiple of 8 below 2^31 and [al] the allocated bit, [get_size]
    returns [size] and [get_allocated] returns [al]: the bit is packed into
    the low bits of the size and neither disturbs the other. *)
Theorem header_codec_round_trip s bp size al :
  mem_start_brk s <= bp -> bp + 4 <= mem_brk s ->
  0 <= size < two31 -> size mod 8 = 0 -> al = 0 \/ al = 1 ->
  exists s',
    set_header bp size al s = Ok (tt, s') /\
    get_size bp s' = Ok (size, s') /\
    get_allocated bp s' = Ok (al, s').
Proof.
  intros H1 H2 Hs Hs8 Hal.
  assert (Hlt : size + al < two31).
  { unfold two31 in *. Z.div_mod_to_equations. lia. }
  exists (with_mem s (wr (mem s) bp (size + al))).
  assert (Hw : rd (wr (mem s) bp (size + al)) bp = size + al).
  { rewrite rd_wr_same. apply word_mod. lia. }
  split; [|split].
  - apply run_ok. apply wp_set_header; auto.
  - apply run_ok. eapply wp_get_size with (sz := size) (al := al); auto; lia.
  - apply run_ok. eapply wp_get_allocated with (sz := size) (al := al); auto; lia.
Qed.

Lemma header_codec_round_trip_witness :
  exists s',
    set_header 1012 24 1 heap0 = Ok (tt, s') /\
    get_size 1012 s' = Ok (24, s') /\
    get_allocated 1012 s' = Ok (1, s').
Proof.
  apply (header_codec_round_trip heap0 1012 24 1).
  - vm_compute. discriminate.
  - vm_compute. discriminate.
  - unfold two31. lia.
  - reflexivity.
  - right. reflexivity.
Defined.

(** X2.  Boundary tags: [set_header] followed by [set_footer] writes the
    same word at [bp] and at [bp + size - 4] (the footer is located through
    the size just written in the header) and nothing else; afterwards
    [get_next bp] is [bp + size] and [get_prev (bp + size)] is [bp]. *)
Theorem boundary_tags_link_neighbours s bp size al :
  mem_start_brk s <= bp -> bp + size <= mem_brk s ->
  8 <= size < two31 -> size mod 8 = 0 -> al = 0 \/ al = 1 ->
  exists s',
    (set_header bp size al ;;; set_footer bp size al) s = Ok (tt, s') /\
    load_int bp s' = Ok (size + al, s') /\
    load_int (bp + size - 4) s' = Ok (size + al, s') /\
    get_next bp s' = Ok (bp + size, s') /\
    get_prev (bp + size) s' = Ok (bp, s') /\
    forall x, x < bp \/ bp + size <= x \/ bp + 4 <= x < bp + size - 4 ->
              mem s' x = mem s x.
Proof.
  intros H1 H2 Hs Hs8 Hal.
  assert (Hlt : size + al < two31).
  { unfold two31 in *. Z.div_mod_to_equations. lia. }
  set (m' := wr (wr (mem s) bp (size + al)) (bp + size - 4) (size + al)).
  exists (with_mem s m').
  assert (Hh : rd m' bp = size + al).
  { unfold m'. rewrite rd_wr_other by lia. rewrite rd_wr_same.
    apply word_mod. lia. }
  assert (Hf : rd m' (bp + size - 4) = size + al).
  { unfold m'. rewrite rd_wr_same. apply word_mod. lia. }
  split; [|split; [|split; [|split; [|split]]]].
  - apply run_ok. apply wp_bind. apply wp_set_header; auto; try lia.
    eapply wp_set_footer with (cur := size) (cal := al); proj_simpl;
      auto; try lia.
    rewrite rd_wr_same. apply word_mod. lia.
  - apply run_ok. apply wp_load_int; proj_simpl; try lia.
    rewrite Hh, to_int_small by lia. auto.
  - apply run_ok. apply wp_load_int; proj_simpl; try lia.
    rewrite Hf, to_int_small by lia. auto.
  - apply run_ok.
    eapply wp_get_next with (sz := size) (al := al); proj_simpl; auto; lia.
  - apply run_ok.
    eapply wp_get_prev with (sz := size) (al := al); proj_simpl; auto;
      try lia.
    split; [lia|reflexivity].
  - intros x Hx. proj_simpl. unfold m'. rewrite !wr_other by lia. reflexivity.
Qed.

Lemma boundary_tags_link_neighbours_witness :
  exists s',
    (set_header 1012 24 1 ;;; set_footer 1012 24 1) heap0 = Ok (tt, s') /\
    load_int 1012 s' = Ok (24 + 1, s') /\
    load_int (1012 + 24 - 4) s' = Ok (24 + 1, s') /\
    get_next 1012 s' = Ok (1012 + 24, s') /\
    get_prev (1012 + 24) s' = Ok (1012, s') /\
    forall x, x < 1012 \/ 1012 + 24 <= x \/ 1012 + 4 <= x < 1012 + 24 - 4 ->
              mem s' x = mem heap0 x.
Proof.
  apply (boundary_tags_link_neighbours heap0 1012 24 1).
  - vm_compute. discriminate.
  - vm_compute. discriminate.
  - unfold two31. lia.
  - reflexivity.
  - right. reflexivity.
Defined.

(** X3.  Link fields: [set_prev_free] and [set_next_free] store the two
    links in the words at [bp + 4] and [bp + 8]; [get_prev_free] and
    [get_next_free] read them back, and the header word at [bp] is
    untouched. *)
Theorem free_links_round_trip s bp p n :
  mem_start_brk s <= bp -> bp + 12 <= mem_brk s ->
  0 <= p < two32 -> 0 <= n < two32 ->
  exists s',
    (set_prev_free bp p ;;; set_next_free bp n) s = Ok (tt, s') /\
    get_prev_free bp s' = Ok (p, s') /\
    get_next_free bp s' = Ok (n, s') /\
    rd (mem s') bp = rd (mem s) bp.
Proof.
  intros H1 H2 Hp Hn.
  set (m' := wr (wr (mem s) (bp + 4) p) (bp + 8) n).
  exists (with_mem s m').
  split; [|split; [|split]].
  - apply run_ok. unfold set_prev_free, set_next_free.
    apply wp_bind. apply wp_store; try lia.
    apply wp_store; proj_simpl; try lia. auto.
  - apply run_ok. unfold get_prev_free. apply wp_load_ptr; proj_simpl; try lia.
    unfold m'. rewrite rd_wr_other by lia. rewrite rd_wr_same.
    rewrite Z.mod_small by lia. auto.
  - apply run_ok. unfold get_next_free. apply wp_load_ptr; proj_simpl; try lia.
    unfold m'. rewrite rd_wr_same. rewrite Z.mod_small by lia. auto.
  - proj_simpl. unfold m'. rewrite !rd_wr_other by lia. reflexivity.
Qed.

Lemma free_links_round_trip_witness :
  exists s',
    (set_prev_free 1012 1084 ;;; set_next_free 1012 1132) heap0 = Ok (tt, s') /\
    get_prev_free 1012 s' = Ok (1084, s') /\
    get_next_free 1012 s' = Ok (1132, s') /\
    rd (mem s') 1012 = rd (mem heap0) 1012.
Proof.
  apply (free_links_round_trip heap0 1012 1084 1132).
  - vm_compute. discriminate.
  - vm_compute. discriminate.
  - unfold two32. lia.
  - unfold two32. lia.
Defined.

(** X4.  [free_list_prepend bp] on a well-formed free list [fl] that does
    not contain [bp] returns with the list [bp :: fl] (so [bp] is the new
    head and the tail is the old one, or [bp] when the list was empty); only
    link fields of [bp] and of the nodes of [fl] are written. *)
Theorem free_list_prepend_puts_first s fl bp :
  fl_rep s fl -> ~ In bp fl -> spaced (bp :: fl) -> node_ok s bp ->
  exists s',
    free_list_prepend bp s = Ok (tt, s') /\
    fl_rep s' (bp :: fl) /\
    only_links (bp :: fl) (mem s) (mem s') /\ same_region s s'.
Proof.
  intros F Hn Hsp Hok.
  assert (W : wp False (free_list_prepend bp) s (fun _ s' =>
            fl_rep s' (bp :: fl) /\
            only_links (bp :: fl) (mem s) (mem s') /\ same_region s s')).
  { apply free_list_prepend_spec with fl; auto. }
  apply wp_ok in W. destruct W as ([] & s' & E & H). exists s'. auto.
Qed.

Lemma free_list_prepend_puts_first_witness :
  exists s',
    free_list_prepend 1060 heap5 = Ok (tt, s') /\
    fl_rep s' (1060 :: [1084; 1036; 1132]) /\
    only_links (1060 :: [1084; 1036; 1132]) (mem heap5) (mem s') /\
    same_region heap5 s'.
Proof.
  apply (free_list_prepend_puts_first heap5 [1084; 1036; 1132] 1060
           heap5_fl_rep).
  - cbn [In]. lia.
  - exact heap5_spaced.
  - exact heap5_node_ok.
Defined.

(** X5.  [free_list_append bp] on a well-formed free list [fl] that does
    not contain [bp] returns with the list [fl ++ [bp]]; only link fields
    of [bp] and of the nodes of [fl] are written. *)
Theorem free_list_append_puts_last s fl bp :
  fl_rep s fl -> ~ In bp fl -> spaced (bp :: fl) -> node_ok s bp ->
  exists s',
    free_list_append bp s = Ok (tt, s') /\
    fl_rep s' (fl ++ [bp]) /\
    only_links (bp :: fl) (mem s) (mem s') /\ same_region s s'.
Proof.
  intros F Hn Hsp Hok.
  assert (W : wp False (free_list_append bp) s (fun _ s' =>
            fl_rep s' (fl ++ [bp]) /\
            only_links (bp :: fl) (mem s) (mem s') /\ same_region s s')).
  { apply free_list_append_spec with fl; auto. }
  apply wp_ok in W. destruct W as ([] & s' & E & H). exists s'. auto.
Qed.

Lemma free_list_append_puts_last_witness :
  exists s',
    free_list_append 1060 heap5 = Ok (tt, s') /\
    fl_rep s' ([1084; 1036; 1132] ++ [1060]) /\
    only_links (1060 :: [1084; 1036; 1132]) (mem heap5) (mem s') /\
    same_region heap5 s'.
Proof.
  apply (free_list_append_puts_last heap5 [1084; 1036; 1132] 1060
           heap5_fl_rep).
  - cbn [In]. lia.
  - exact heap5_spaced.
  - exact heap5_node_ok.
Defined.

(** X6.  [free_list_remove bp] works at every position: from the list
    [l1 ++ bp :: l2] it returns with the list [l1 ++ l2], in the same order
    and without [bp], having written link fields only. *)
Theorem free_list_remove_unlinks s l1 bp l2 :
  fl_rep s (l1 ++ bp :: l2) ->
  exists s',
    free_list_remove bp s = Ok (tt, s') /\
    fl_rep s' (l1 ++ l2) /\ ~ In bp (l1 ++ l2) /\
    only_links (l1 ++ bp :: l2) (mem s) (mem s') /\ same_region s s'.
Proof.
  intros F.
  assert (W : wp False (free_list_remove bp) s (fun _ s' =>
            fl_rep s' (l1 ++ l2) /\
            only_links (l1 ++ bp :: l2) (mem s) (mem s') /\ same_region s s')).
  { apply free_list_remove_spec with l1 l2; auto. }
  apply wp_ok in W. destruct W as ([] & s' & E & H1 & H2 & H3).
  exists s'. split; [exact E|]. split; [exact H1|].
  split; [|split; [exact H2|exact H3]].
  apply NoDup_remove_2. apply (fr_nodup _ _ F).
Qed.

Lemma free_list_remove_unlinks_witness :
  exists s',
    free_list_remove 1036 heap5 = Ok (tt, s') /\
    fl_rep s' ([1084] ++ [1132]) /\ ~ In 1036 ([1084] ++ [1132]) /\
    only_links ([1084] ++ 1036 :: [1132]) (mem heap5) (mem s') /\
    same_region heap5 s'.
Proof.
  apply (free_list_remove_unlinks heap5 [1084] 1036 [1132] heap5_fl_rep).
Defined.

(** X7.  Inserting a node at either end of the free list and removing it
    again gives back the list one started from. *)
Theorem free_list_insert_then_remove s fl bp :
  fl_rep s fl -> ~ In bp fl -> spaced (bp :: fl) -> node_ok s bp ->
  (exists s1 s2,
     free_list_prepend bp s = Ok (tt, s1) /\
     free_list_remove bp s1 = Ok (tt, s2) /\ fl_rep s2 fl) /\
  (exists s1 s2,
     free_list_append bp s = Ok (tt, s1) /\
     free_list_remove bp s1 = Ok (tt, s2) /\ fl_rep s2 fl).
Proof.
  intros F Hn Hsp Hok. split.
  - assert (W : wp False (free_list_prepend bp) s (fun _ s1 =>
              fl_rep s1 ([] ++ bp :: fl))).
    { apply free_list_prepend_spec with fl; auto. }
    apply wp_ok in W. destruct W as ([] & s1 & E1 & F1).
    assert (W : wp False (free_list_remove bp) s1 (fun _ s2 =>
              fl_rep s2 ([] ++ fl))).
    { apply free_list_remove_spec with [] fl; auto. }
    apply wp_ok in W. destruct W as ([] & s2 & E2 & F2).
    exists s1, s2. auto.
  - assert (W : wp False (free_list_append bp) s (fun _ s1 =>
              fl_rep s1 (fl ++ bp :: []))).
    { apply free_list_append_spec with fl; auto. }
    apply wp_ok in W. destruct W as ([] & s1 & E1 & F1).
    assert (W : wp False (free_list_remove bp) s1 (fun _ s2 =>
              fl_rep s2 (fl ++ []))).
    { apply free_list_remove_spec with fl []; auto. }
    apply wp_ok in W. destruct W as ([] & s2 & E2 & F2).
    rewrite app_nil_r in F2. exists s1, s2. auto.
Qed.

Lemma free_list_insert_then_remove_witness :
  (exists s1 s2,
     free_list_prepend 1060 heap5 = Ok (tt, s1) /\
     free_list_remove 1060 s1 = Ok (tt, s2) /\
     fl_rep s2 [1084; 1036; 1132]) /\
  (exists s1 s2,
     free_list_append 1060 heap5 = Ok (tt, s1) /\
     free_list_remove 1060 s1 = Ok (tt, s2) /\
     fl_rep s2 [1084; 1036; 1132]).
Proof.
  apply (free_list_insert_then_remove heap5 [1084; 1036; 1132] 1060
           heap5_fl_rep).
  - cbn [In]. lia.
  - exact heap5_spaced.
  - exact heap5_node_ok.
Defined.

(** X8.  [free_coalesce] on a block whose two neighbours are allocated
    (the prologue and the epilogue count as allocated): it returns the
    block itself, the block is free with its size unchanged, and it is put
    at the head of the free list when its size is below 1000 and at the tail
    otherwise. *)
Theorem free_coalesce_between_allocated s bl1 bp sz st bl2 fl :
  heap_rep s (bl1 ++ mkBlock bp sz st :: bl2) fl ->
  st <> Free -> clean bl1 -> clean bl2 ->
  prev_allocated bl1 -> next_allocated bl2 ->
  exists s',
    free_coalesce bp s = Ok (bp, s') /\
    heap_rep s' (bl1 ++ mkBlock bp sz Free :: bl2) (insert_fl sz bp fl) /\
    (if sz <? 1000 then free_headp s' = bp else free_tailp s' = bp) /\
    same_region s s'.
Proof.
  intros R Hst C1 C2 Hpa Hna. apply rep_limbo in R; [|exact Hst].
  destruct (limbo_node _ _ _ _ _ _ R) as (_ & Hni & _ & _ & Hsz & _).
  assert (W : wp False (free_coalesce bp) s (fun r s' =>
            r = bp /\
            heap_rep s' (bl1 ++ mkBlock bp sz Free :: bl2)
                     (insert_fl sz bp fl) /\ same_region s s')).
  { apply free_coalesce_mark_full
      with (bl1 := bl1) (sz := sz) (bl2 := bl2) (fl := fl); auto.
    intros s2 psz pal nsz nal R2 Sr2 Hout Hh2 Hf2 HP HN.
    destruct HP as [(-> & _)|(_ & bl1' & E)].
    2:{ subst bl1. unfold prev_allocated in Hpa.
        rewrite last_map_snoc in Hpa. discriminate Hpa. }
    destruct HN as [(-> & _)|(_ & bl2' & E)].
    2:{ subst bl2. discriminate Hna. }
    eapply coalesce_AA; eauto.
    intros s' R' Sr' _. split; [reflexivity|]. split; [exact R'|].
    eapply same_region_trans; eassumption. }
  apply wp_ok in W. destruct W as (r & s' & E & -> & R' & Sr').
  exists s'. split; [exact E|]. split; [exact R'|]. split; [|exact Sr'].
  pose proof (hr_head _ _ _ R') as Hh. pose proof (hr_tail _ _ _ R') as Htl.
  unfold insert_fl in *. destruct (sz <? 1000).
  - exact Hh.
  - rewrite last_last in Htl. exact Htl.
Qed.

Lemma free_coalesce_between_allocated_witness :
  exists s',
    free_coalesce 1012 heap2 = Ok (1012, s') /\
    heap_rep s' ([] ++ mkBlock 1012 24 Free ::
                   [mkBlock 1036 24 Allocated; mkBlock 1060 152 Free])
             (insert_fl 24 1012 [1060]) /\
    (if 24 <? 1000 then free_headp s' = 1012 else free_tailp s' = 1012) /\
    same_region heap2 s'.
Proof.
  apply (free_coalesce_between_allocated heap2 [] 1012 24 Allocated
           [mkBlock 1036 24 Allocated; mkBlock 1060 152 Free] [1060]).
  - apply check_rep_sound. vm_compute. reflexivity.
  - discriminate.
  - apply clean_b_sound. reflexivity.
  - apply clean_b_sound. reflexivity.
  - reflexivity.
  - reflexivity.
Defined.

(** X9.  [free_coalesce] on a block whose previous neighbour is free and
    whose next neighbour is allocated: it returns the previous block, which
    now spans both, and the free list is exactly what it was: the merged
    block keeps the place the previous block had in the list, whatever its
    new size. *)
Theorem free_coalesce_prev_free s bl1 pb psz bp sz st bl2 fl :
  heap_rep s (bl1 ++ mkBlock pb psz Free :: mkBlock bp sz st :: bl2) fl ->
  st <> Free -> clean bl1 -> clean bl2 -> next_allocated bl2 ->
  exists s',
    free_coalesce bp s = Ok (pb, s') /\
    heap_rep s' (bl1 ++ mkBlock pb (psz + sz) Free :: bl2) fl /\
    free_headp s' = free_headp s /\ free_tailp s' = free_tailp s /\
    same_region s s'.
Proof.
  intros R Hst C1 C2 Hna.
  assert (R0 : heap_rep s ((bl1 ++ [mkBlock pb psz Free]) ++
                           mkBlock bp sz Limbo :: bl2) fl).
  { rewrite <- app_assoc. cbn [app].
    change (bl1 ++ mkBlock pb psz Free :: mkBlock bp sz Limbo :: bl2)
      with (bl1 ++ mkBlock pb psz Free :: ([] ++ mkBlock bp sz Limbo :: bl2)).
    rewrite app_comm_cons, app_assoc.
    apply rep_limbo with st; [|exact Hst].
    rewrite <- app_assoc. exact R. }
  pose proof (hr_chain _ _ _ R) as Hc. apply chain_split in Hc.
  destruct Hc as (_ & _ & _ & Hc). cbn [chain] in Hc.
  destruct Hc as (Ebp & _). unfold b_end in Ebp. cbn [b_addr b_size] in Ebp.
  assert (W : wp False (free_coalesce bp) s (fun r s' =>
            r = pb /\
            heap_rep s' (bl1 ++ mkBlock pb (psz + sz) Free :: bl2) fl /\
            same_region s s')).
  { apply free_coalesce_mark_full
      with (bl1 := bl1 ++ [mkBlock pb psz Free]) (sz := sz) (bl2 := bl2)
           (fl := fl); auto.
    { apply clean_app. split; [exact C1|].
      apply clean_cons. split; [discriminate|constructor]. }
    intros s2 psz' pal nsz nal R2 Sr2 Hout Hh2 Hf2 HP HN.
    destruct HP as [(_ & Hpa)|(-> & bl1' & E)].
    { unfold prev_allocated in Hpa. rewrite last_map_snoc in Hpa.
      discriminate Hpa. }
    apply app_inj_tail in E. destruct E as [<- E]. injection E as E1 E2.
    destruct HN as [(-> & _)|(_ & bl2' & E)].
    2:{ subst bl2. discriminate Hna. }
    rewrite <- app_assoc in R2. cbn [app] in R2.
    eapply coalesce_FA with (pb := pb) (psz := psz); [exact R2|lia|].
    intros s' R' Sr' _ _. split; [reflexivity|]. split; [exact R'|].
    eapply same_region_trans; eassumption. }
  apply wp_ok in W. destruct W as (r & s' & E & -> & R' & Sr').
  exists s'. split; [exact E|]. split; [exact R'|].
  rewrite (hr_head _ _ _ R'), (hr_tail _ _ _ R').
  rewrite (hr_head _ _ _ R), (hr_tail _ _ _ R). auto.
Qed.

Lemma free_coalesce_prev_free_witness :
  exists s',
    free_coalesce 1036 heap_big_next = Ok (1012, s') /\
    heap_rep s' ([] ++ mkBlock 1012 (24 + 24) Free ::
                   [mkBlock 1060 24 Allocated; mkBlock 1084 2136 Free])
             [1012; 1084] /\
    free_headp s' = free_headp heap_big_next /\
    free_tailp s' = free_tailp heap_big_next /\
    same_region heap_big_next s'.
Proof.
  apply (free_coalesce_prev_free heap_big_next [] 1012 24 1036 24 Allocated
           [mkBlock 1060 24 Allocated; mkBlock 1084 2136 Free] [1012; 1084]).
  - apply check_rep_sound. vm_compute. reflexivity.
  - discriminate.
  - apply clean_b_sound. reflexivity.
  - apply clean_b_sound. reflexivity.
  - reflexivity.
Defined.

(** X10.  [free_coalesce] on a block between two free blocks: it returns
    the previous block, which now spans the three, the next block is off
    the free list and the previous one keeps its place in it. *)
Theorem free_coalesce_both_free s bl1 pb psz bp sz st nb nsz bl2 l1 l2 :
  heap_rep s (bl1 ++ mkBlock pb psz Free :: mkBlock bp sz st
                  :: mkBlock nb nsz Free :: bl2) (l1 ++ nb :: l2) ->
  st <> Free -> clean bl1 -> clean bl2 ->
  exists s',
    free_coalesce bp s = Ok (pb, s') /\
    heap_rep s' (bl1 ++ mkBlock pb (psz + sz + nsz) Free :: bl2) (l1 ++ l2) /\
    ~ In nb (l1 ++ l2) /\ In pb (l1 ++ l2) /\
    same_region s s'.
Proof.
  intros R Hst C1 C2.
  assert (R0 : heap_rep s ((bl1 ++ [mkBlock pb psz Free]) ++
                 mkBlock bp sz Limbo :: mkBlock nb nsz Free :: bl2)
                 (l1 ++ nb :: l2)).
  { apply rep_limbo with st; [|exact Hst].
    rewrite <- app_assoc. exact R. }
  pose proof (hr_chain _ _ _ R) as Hc. apply chain_split in Hc.
  destruct Hc as (_ & _ & _ & Hc). cbn [chain] in Hc.
  destruct Hc as (Ebp & _ & _ & Enb & _).
  unfold b_end in Ebp, Enb. cbn [b_addr b_size] in Ebp, Enb.
  pose proof (hr_nodup _ _ _ R) as Hnd.
  assert (W : wp False (free_coalesce bp) s (fun r s' =>
            r = pb /\
            heap_rep s' (bl1 ++ mkBlock pb (psz + sz + nsz) Free :: bl2)
                     (l1 ++ l2) /\
            same_region s s')).
  { apply free_coalesce_mark_full
      with (bl1 := bl1 ++ [mkBlock pb psz Free]) (sz := sz)
           (bl2 := mkBlock nb nsz Free :: bl2) (fl := l1 ++ nb :: l2); auto.
    { apply clean_app. split; [exact C1|].
      apply clean_cons. split; [discriminate|constructor]. }
    { apply clean_cons. split; [discriminate|exact C2]. }
    intros s2 psz' pal nsz' nal R2 Sr2 Hout Hh2 Hf2 HP HN.
    destruct HP as [(_ & Hpa)|(-> & bl1' & E)].
    { unfold prev_allocated in Hpa. rewrite last_map_snoc in Hpa.
      discriminate Hpa. }
    apply app_inj_tail in E. destruct E as [<- E]. injection E as E1 E2.
    destruct HN as [(_ & HNa)|(-> & bl2' & E)]; [discriminate HNa|].
    injection E as E3 E4 E5.
    rewrite <- app_assoc in R2. cbn [app] in R2.
    eapply coalesce_FF with (pb := pb) (psz := psz) (nb := nb) (nsz := nsz);
      [exact R2|lia|lia|].
    intros s' R' Sr' _. split; [reflexivity|]. split; [exact R'|].
    eapply same_region_trans; eassumption. }
  apply wp_ok in W. destruct W as (r & s' & E & -> & R' & Sr').
  exists s'. split; [exact E|]. split; [exact R'|].
  split; [|split; [|exact Sr']].
  - apply NoDup_remove_2 in Hnd. exact Hnd.
  - apply (hr_free _ _ _ R'). apply in_free_addrs.
    exists (mkBlock pb (psz + sz + nsz) Free). split; [in_list|auto].
Qed.

Lemma free_coalesce_both_free_witness :
  exists s',
    free_coalesce 1060 heap5 = Ok (1036, s') /\
    heap_rep s' ([mkBlock 1012 24 Allocated] ++
                 mkBlock 1036 (24 + 24 + 24) Free ::
                 [mkBlock 1108 24 Allocated; mkBlock 1132 80 Free])
             ([] ++ [1036; 1132]) /\
    ~ In 1084 ([] ++ [1036; 1132]) /\ In 1036 ([] ++ [1036; 1132]) /\
    same_region heap5 s'.
Proof.
  apply (free_coalesce_both_free heap5 [mkBlock 1012 24 Allocated]
           1036 24 1060 24 Allocated 1084 24
           [mkBlock 1108 24 Allocated; mkBlock 1132 80 Free] [] [1036; 1132]).
  - apply check_rep_sound. vm_compute. reflexivity.
  - discriminate.
  - apply clean_b_sound. reflexivity.
  - apply clean_b_sound. reflexivity.
Defined.

(** X11.  [extend_heap size] on a well-formed heap, for [size] a multiple
    of 8 that is at least 16 (a free block needs 16 bytes).  When the
    provider cannot supply [size] bytes it returns [NULL] and changes
    nothing.
    When it can, the region grows by exactly [size] bytes, the heap is well
    formed again, the block returned is free, is the last block of the heap
    and has at least [size] bytes (more when it was merged with a free last
    block), the allocated blocks and their payloads are as before, and a
    heap without neighbouring free blocks stays so. *)
Theorem extend_heap_result s bl fl size :
  heap_inv s bl fl -> 16 <= size -> size mod 8 = 0 ->
  (mem_max_addr s < mem_brk s + size -> extend_heap size s = Ok (0, s)) /\
  (mem_brk s + size <= mem_max_addr s ->
   exists r s' bl' fl' rsz,
     extend_heap size s = Ok (r, s') /\
     heap_inv s' bl' fl' /\
     mem_brk s' = mem_brk s + size /\
     In (mkBlock r rsz Free) bl' /\ size <= rsz /\
     r + rsz = mem_brk s' - 4 /\
     evolves s bl s' bl' /\
     (coalesced bl -> coalesced bl')).
Proof.
  intros I0 Hs Hs8.
  assert (W : wp False (extend_heap size) s (fun r s' =>
            (mem_max_addr s < mem_brk s + size -> r = 0 /\ s' = s) /\
            (mem_brk s + size <= mem_max_addr s ->
             exists bl' fl' rsz,
               heap_inv s' bl' fl' /\ mem_brk s' = mem_brk s + size /\
               In (mkBlock r rsz Free) bl' /\ size <= rsz /\
               r + rsz = mem_brk s' - 4 /\ evolves s bl s' bl' /\
               (coalesced bl -> coalesced bl')))).
  { apply extend_heap_full with (K := coalesced bl) (bl := bl) (fl := fl);
      auto.
    - intros Hno. split; [auto|]. intros Hroom. lia.
    - intros Hroom r s' bl' fl' rsz I' Ev Hb Hbrk Hmax Hr Hsz Hend _ _ HK.
      split; [intros Hno; lia|]. intros _.
      exists bl', fl', rsz. auto 10. }
  apply wp_ok in W. destruct W as (r & s' & E & W1 & W2). split.
  - intros Hno. destruct (W1 Hno) as [-> ->]. exact E.
  - intros Hroom. destruct (W2 Hroom) as (bl' & fl' & rsz & H).
    exists r, s', bl', fl', rsz. split; [exact E|exact H].
Qed.

Lemma extend_heap_result_witness :
  (mem_max_addr heap2 < mem_brk heap2 + 64 ->
   extend_heap 64 heap2 = Ok (0, heap2)) /\
  (mem_brk heap2 + 64 <= mem_max_addr heap2 ->
   exists r s' bl' fl' rsz,
     extend_heap 64 heap2 = Ok (r, s') /\
     heap_inv s' bl' fl' /\
     mem_brk s' = mem_brk heap2 + 64 /\
     In (mkBlock r rsz Free) bl' /\ 64 <= rsz /\
     r + rsz = mem_brk s' - 4 /\
     evolves heap2 heap2_blocks s' bl' /\
     (coalesced heap2_blocks -> coalesced bl')).
Proof.
  apply (extend_heap_result heap2 heap2_blocks [1060] 64 ltac:(apply check_inv_sound; vm_compute; reflexivity)).
  - lia.
  - reflexivity.
Defined.

(** X12.  [mm_init] on a fresh region (nothing handed out yet, start
    aligned on 8, room for 16 bytes) returns 0 and leaves a well-formed
    heap, whatever the region held before: one free block of 200 bytes right
    after the prologue when the provider can supply 216 bytes, and no block
    at all (prologue and epilogue only) when it cannot. *)
Theorem mm_init_establishes_heap s :
  mem_brk s = mem_start_brk s -> 0 < mem_start_brk s ->
  mem_start_brk s mod 8 = 0 ->
  mem_start_brk s + 16 <= mem_max_addr s -> mem_max_addr s <= two31 ->
  exists s' bl fl,
    mm_init s = Ok (0, s') /\
    heap_inv s' bl fl /\ coalesced bl /\
    mem_start_brk s' = mem_start_brk s /\
    mem_max_addr s' = mem_max_addr s /\
    (mem_start_brk s + 216 <= mem_max_addr s ->
     bl = [mkBlock (mem_start_brk s + 12) 200 Free] /\
     fl = [mem_start_brk s + 12] /\ mem_brk s' = mem_start_brk s + 216) /\
    (mem_max_addr s < mem_start_brk s + 216 ->
     bl = [] /\ fl = [] /\ mem_brk s' = mem_start_brk s + 16).
Proof.
  intros Hb Hlo Hal Hroom Hmax.
  destruct (Z_le_gt_dec (mem_start_brk s + 216) (mem_max_addr s)) as [Hr|Hn].
  - destruct (wp_ok _ _ _ (mm_init_room s Hb Hlo Hal Hr Hmax))
      as (r & s' & E & -> & I' & H1 & H2 & H3).
    exists s', [mkBlock (mem_start_brk s + 12) 200 Free], [mem_start_brk s + 12].
    split; [exact E|]. split; [exact I'|].
    split; [apply coalesced_b_sound; reflexivity|]. split; [exact H2|]. split; [exact H3|].
    split; [auto|]. intros H. lia.
  - destruct (wp_ok _ _ _ (mm_init_no_room s Hb Hlo Hal Hroom ltac:(lia) Hmax))
      as (r & s' & E & -> & I' & H1 & H2 & H3).
    exists s', [], [].
    split; [exact E|]. split; [exact I'|].
    split; [exact I|]. split; [exact H2|]. split; [exact H3|].
    split; [|auto]. intros H. lia.
Qed.

Lemma mm_init_establishes_heap_witness :
  exists s' bl fl,
    mm_init (fresh zeros 1000 100000) = Ok (0, s') /\
    heap_inv s' bl fl /\ coalesced bl /\
    mem_start_brk s' = mem_start_brk (fresh zeros 1000 100000) /\
    mem_max_addr s' = mem_max_addr (fresh zeros 1000 100000) /\
    (mem_start_brk (fresh zeros 1000 100000) + 216
     <= mem_max_addr (fresh zeros 1000 100000) ->
     bl = [mkBlock (mem_start_brk (fresh zeros 1000 100000) + 12) 200 Free] /\
     fl = [mem_start_brk (fresh zeros 1000 100000) + 12] /\
     mem_brk s' = mem_start_brk (fresh zeros 1000 100000) + 216) /\
    (mem_max_addr (fresh zeros 1000 100000)
     < mem_start_brk (fresh zeros 1000 100000) + 216 ->
     bl = [] /\ fl = [] /\
     mem_brk s' = mem_start_brk (fresh zeros 1000 100000) + 16).
Proof.
  apply (mm_init_establishes_heap (fresh zeros 1000 100000)).
  - reflexivity.
  - reflexivity.
  - reflexivity.
  - vm_compute. discriminate.
  - vm_compute. discriminate.
Defined.

(** X13.  [mm_free p], for the payload [p] of an allocated block of a
    well-formed heap, always returns; the heap is well formed again and the
    region is the same; the bytes of the block now belong to a free block;
    no block at [p - 4] is allocated any more and no other block became
    allocated; the other allocated blocks and their payloads are untouched;
    and a heap without neighbouring free blocks stays so. *)
Theorem mm_free_releases s bl1 p sz bl2 fl :
  heap_inv s (bl1 ++ mkBlock (p - 4) sz Allocated :: bl2) fl ->
  exists s' bl' fl' r rsz,
    mm_free p s = Ok (tt, s') /\
    heap_inv s' bl' fl' /\ same_region s s' /\
    In (mkBlock r rsz Free) bl' /\ r <= p - 4 /\ p - 4 + sz <= r + rsz /\
    (forall b, In b bl' -> b_status b = Allocated ->
               In b (bl1 ++ bl2) /\ b_addr b <> p - 4) /\
    keeps_allocated (bl1 ++ bl2) bl' /\
    keeps_payloads (bl1 ++ bl2) (mem s) (mem s') /\
    (coalesced (bl1 ++ mkBlock (p - 4) sz Allocated :: bl2) ->
     coalesced bl').
Proof.
  intros I0. pose proof I0 as [R0 _].
  pose proof (hr_chain _ _ _ R0) as Hc.
  assert (W : wp False (mm_free p) s (fun _ s' =>
            exists bl' fl' r rsz,
              heap_inv s' bl' fl' /\ same_region s s' /\
              In (mkBlock r rsz Free) bl' /\ r <= p - 4 /\
              p - 4 + sz <= r + rsz /\
              (forall b, In b bl' -> b_status b = Allocated ->
                         In b (bl1 ++ bl2) /\ b_addr b <> p - 4) /\
              keeps_allocated (bl1 ++ bl2) bl' /\
              keeps_payloads (bl1 ++ bl2) (mem s) (mem s') /\
              (coalesced (bl1 ++ mkBlock (p - 4) sz Allocated :: bl2) ->
               coalesced bl'))).
  { apply mm_free_full
      with (K := coalesced (bl1 ++ mkBlock (p - 4) sz Allocated :: bl2))
           (bl1 := bl1) (sz := sz) (bl2 := bl2) (fl := fl); auto.
    intros s' bl' fl' r rsz I' Sr Ka Kp Hr Hr1 Hr2 Hold _ HK.
    exists bl', fl', r, rsz.
    split; [exact I'|]. split; [exact Sr|]. split; [exact Hr|].
    split; [exact Hr1|]. split; [exact Hr2|].
    split; [|split; [exact Ka|split; [exact Kp|exact HK]]].
    intros b Hb Sb. destruct (Hold b Hb) as [E|Hi].
    - subst b. discriminate Sb.
    - split; [exact Hi|].
      destruct (chain_side _ _ _ _ _ _ Hc Hi) as [[Hi' H]|[Hi' H]].
      + apply chain_split in Hc. destruct Hc as (Hc & _).
        pose proof (chain_in_size _ _ _ _ Hc Hi').
        unfold b_end in H. cbn [b_addr] in H. lia.
      + unfold b_end in H. cbn [b_addr b_size] in H.
        pose proof (rep_block _ _ _ R0 (mkBlock (p - 4) sz Allocated)
                      ltac:(in_list)) as Hp.
        cbn [b_size] in Hp. lia. }
  apply wp_ok in W. destruct W as ([] & s' & E & bl' & fl' & r & rsz & H).
  exists s', bl', fl', r, rsz. split; [exact E|exact H].
Qed.

Lemma mm_free_releases_witness :
  exists s' bl' fl' r rsz,
    mm_free 1040 heap2 = Ok (tt, s') /\
    heap_inv s' bl' fl' /\ same_region heap2 s' /\
    In (mkBlock r rsz Free) bl' /\ r <= 1040 - 4 /\
    1040 - 4 + 24 <= r + rsz /\
    (forall b, In b bl' -> b_status b = Allocated ->
               In b ([mkBlock 1012 24 Allocated] ++ [mkBlock 1060 152 Free]) /\
               b_addr b <> 1040 - 4) /\
    keeps_allocated ([mkBlock 1012 24 Allocated] ++ [mkBlock 1060 152 Free])
                    bl' /\
    keeps_payloads ([mkBlock 1012 24 Allocated] ++ [mkBlock 1060 152 Free])
                   (mem heap2) (mem s') /\
    (coalesced ([mkBlock 1012 24 Allocated] ++
                mkBlock (1040 - 4) 24 Allocated :: [mkBlock 1060 152 Free]) ->
     coalesced bl').
Proof.
  apply (mm_free_releases heap2 [mkBlock 1012 24 Allocated] 1040 24
           [mkBlock 1060 152 Free] [1060]).
  apply check_inv_sound. vm_compute. reflexivity.
Defined.

(** X14.  [place bp size], for [size] a multiple of 8 that is at least 16,
    on a free block of [bsz >= size] bytes returns an allocated block inside it and leaves the heap well formed: the whole
    block when at most 8 bytes would remain, else the last [size] bytes of
    it when [size > 25] and the first [size] bytes otherwise, the rest
    staying free.  Nothing else becomes allocated and the other allocated
    blocks keep their payloads. *)
Theorem place_allocates s bl fl bp bsz size :
  heap_inv s bl fl -> In (mkBlock bp bsz Free) bl ->
  16 <= size -> size mod 8 = 0 -> size <= bsz ->
  exists r s' bl' fl' rsz,
    place bp size s = Ok (r, s') /\
    heap_inv s' bl' fl' /\ same_region s s' /\
    In (mkBlock r rsz Allocated) bl' /\ placed bp bsz size r rsz /\
    evolves s bl s' bl' /\
    (forall b, In b bl' -> b_status b = Allocated ->
               b = mkBlock r rsz Allocated \/ In b bl) /\
    (coalesced bl -> coalesced bl').
Proof.
  intros I0 HF Hs Hs8 Hfit.
  assert (W : wp False (place bp size) s (fun r s' =>
            exists bl' fl' rsz,
              heap_inv s' bl' fl' /\ same_region s s' /\
              In (mkBlock r rsz Allocated) bl' /\ placed bp bsz size r rsz /\
              evolves s bl s' bl' /\
              (forall b, In b bl' -> b_status b = Allocated ->
                         b = mkBlock r rsz Allocated \/ In b bl) /\
              (coalesced bl -> coalesced bl'))).
  { apply place_full with (K := coalesced bl) (bl := bl) (fl := fl)
                          (bsz := bsz); auto.
    intros r s' bl' fl' rsz I' Sr Ev Hr _ _ _ Hpl Hnew HK.
    exists bl', fl', rsz. auto 10. }
  apply wp_ok in W. destruct W as (r & s' & E & bl' & fl' & rsz & H).
  exists r, s', bl', fl', rsz. split; [exact E|exact H].
Qed.

Lemma place_allocates_witness :
  exists r s' bl' fl' rsz,
    place 1060 32 heap2 = Ok (r, s') /\
    heap_inv s' bl' fl' /\ same_region heap2 s' /\
    In (mkBlock r rsz Allocated) bl' /\ placed 1060 152 32 r rsz /\
    evolves heap2 heap2_blocks s' bl' /\
    (forall b, In b bl' -> b_status b = Allocated ->
               b = mkBlock r rsz Allocated \/ In b heap2_blocks) /\
    (coalesced heap2_blocks -> coalesced bl').
Proof.
  apply (place_allocates heap2 heap2_blocks [1060] 1060 152 32 ltac:(apply check_inv_sound; vm_compute; reflexivity)).
  - unfold heap2_blocks. in_list.
  - lia.
  - reflexivity.
  - lia.
Defined.

(** X15.  [required_block_size n], for [0 <= n <= 2^31 - 16], is the
    multiple of 8 in [n + 8 .. n + 15]: the payload plus 8 bytes of header
    and footer, rounded up to a multiple of 8, without overflow. *)
Theorem required_block_size_rounds_up n :
  0 <= n <= two31 - 16 ->
  exists k, required_block_size n = 8 * k /\
            n + 8 <= 8 * k < n + 16.
Proof.
  intros Hn.
  destruct (required_block_size_ok n Hn) as (H1 & H2 & H3 & _).
  rewrite (to_int_small n) in * by (unfold two31 in *; lia).
  exists (required_block_size n / 8).
  Z.div_mod_to_equations. lia.
Qed.

Lemma required_block_size_rounds_up_witness :
  exists k, required_block_size 17 = 8 * k /\ 17 + 8 <= 8 * k < 17 + 16.
Proof.
  apply (required_block_size_rounds_up 17). unfold two31. lia.
Defined.

(** X16.  [mm_malloc n], [0 < n <= 2^31 - 16], on a well-formed heap
    returns, with fuel for one step per free-list node, whenever some free block has the required size or the provider
    can supply the required size.  The pointer is not [NULL], is a multiple
    of 8 and is the payload of an allocated block of at least [n + 8]
    bytes.  The region does not grow when a free block fits, and grows by
    exactly the required block size otherwise: the loop of [mm_malloc] runs
    once. *)
Theorem mm_malloc_returns fuel s bl fl n :
  heap_inv s bl fl -> 0 < n <= two31 - 16 ->
  (S (length fl) < fuel)%nat ->
  has_fit bl (required_block_size (to_int n)) \/
  mem_brk s + required_block_size (to_int n) <= mem_max_addr s ->
  exists q s' bl' fl' qsz,
    mm_malloc fuel n s = Ok (q, s') /\
    heap_inv s' bl' fl' /\
    In (mkBlock (q - 4) qsz Allocated) bl' /\ n + 8 <= qsz /\
    q <> 0 /\ q mod 8 = 0 /\
    (has_fit bl (required_block_size (to_int n)) ->
     mem_brk s' = mem_brk s) /\
    (~ has_fit bl (required_block_size (to_int n)) ->
     mem_brk s' = mem_brk s + required_block_size (to_int n)).
Proof.
  intros I0 Hn Hfuel Hc.
  destruct (required_block_size_ok n ltac:(lia)) as (H1 & _).
  assert (W : wp False (mm_malloc fuel n) s (fun q s' =>
            exists bl' fl' qsz,
              heap_inv s' bl' fl' /\
              In (mkBlock (q - 4) qsz Allocated) bl' /\ n + 8 <= qsz /\
              q <> 0 /\ q mod 8 = 0 /\
              (has_fit bl (required_block_size (to_int n)) ->
               mem_brk s' = mem_brk s) /\
              (~ has_fit bl (required_block_size (to_int n)) ->
               mem_brk s' = mem_brk s + required_block_size (to_int n)))).
  { apply mm_malloc_full with (K := False) (bl := bl) (fl := fl); auto.
    - intros [].
    - intros q s' bl' fl' qsz I' _ _ _ Hb1 Hb2 HQ Hq _ _ _.
      exists bl', fl', qsz. destruct I' as [R' C'].
      pose proof (rep_block _ _ _ R' _ HQ) as (Hb & _).
      pose proof (rep_aligned _ _ _ R' _ HQ) as Ha.
      pose proof (hr_lo _ _ _ R'). cbn [b_addr] in Hb, Ha.
      split; [split; assumption|]. split; [exact HQ|]. split; [lia|].
      split; [lia|]. split; [Z.div_mod_to_equations; lia|]. auto. }
  apply wp_ok in W. destruct W as (q & s' & E & bl' & fl' & qsz & H).
  exists q, s', bl', fl', qsz. split; [exact E|exact H].
Qed.

Lemma mm_malloc_returns_witness :
  exists q s' bl' fl' qsz,
    mm_malloc 10 1000 heap2 = Ok (q, s') /\
    heap_inv s' bl' fl' /\
    In (mkBlock (q - 4) qsz Allocated) bl' /\ 1000 + 8 <= qsz /\
    q <> 0 /\ q mod 8 = 0 /\
    (has_fit heap2_blocks (required_block_size (to_int 1000)) ->
     mem_brk s' = mem_brk heap2) /\
    (~ has_fit heap2_blocks (required_block_size (to_int 1000)) ->
     mem_brk s' = mem_brk heap2 + required_block_size (to_int 1000)).
Proof.
  apply (mm_malloc_returns 10 heap2 heap2_blocks [1060] 1000 ltac:(apply check_inv_sound; vm_compute; reflexivity)).
  - unfold two31. lia.
  - simpl. lia.
  - right. vm_compute. discriminate.
Defined.

(** X17.  When [mm_malloc n], [0 < n <= 2^31 - 16], returns [q] on a
    well-formed heap, the block
    of [q] overlaps no block that was allocated before, those blocks are
    still allocated and their payloads are unchanged, [q]'s block is the only
    new allocated block, and a heap without neighbouring free blocks stays
    so. *)
Theorem mm_malloc_fresh_block fuel s bl fl n q s' :
  heap_inv s bl fl -> 0 < n <= two31 - 16 ->
  mm_malloc fuel n s = Ok (q, s') ->
  exists bl' fl' qsz,
    heap_inv s' bl' fl' /\
    In (mkBlock (q - 4) qsz Allocated) bl' /\ n + 8 <= qsz /\
    (forall b, In b bl -> b_status b = Allocated ->
       In b bl' /\ (b_end b <= q - 4 \/ q - 4 + qsz <= b_addr b) /\
       forall x, b_addr b + 4 <= x < b_end b - 4 -> mem s' x = mem s x) /\
    (forall b, In b bl' -> b_status b = Allocated ->
               b = mkBlock (q - 4) qsz Allocated \/ In b bl) /\
    (coalesced bl -> coalesced bl').
Proof.
  intros I0 Hn E.
  destruct (required_block_size_ok n ltac:(lia)) as (H1 & _).
  assert (W : wp True (mm_malloc fuel n) s (fun q s' =>
    exists bl' fl' qsz,
      heap_inv s' bl' fl' /\
      In (mkBlock (q - 4) qsz Allocated) bl' /\ n + 8 <= qsz /\
      (forall b, In b bl -> b_status b = Allocated ->
         In b bl' /\ (b_end b <= q - 4 \/ q - 4 + qsz <= b_addr b) /\
         forall x, b_addr b + 4 <= x < b_end b - 4 -> mem s' x = mem s x) /\
      (forall b, In b bl' -> b_status b = Allocated ->
                 b = mkBlock (q - 4) qsz Allocated \/ In b bl) /\
      (coalesced bl -> coalesced bl'))).
  { apply mm_malloc_full with (K := coalesced bl) (bl := bl) (fl := fl); auto.
    intros q0 s0 bl' fl' qsz I' Ev _ _ _ _ HQ Hq Hfresh Hnew HK.
    exists bl', fl', qsz. destruct Ev as (_ & Ka & Kp).
    split; [exact I'|]. split; [exact HQ|]. split; [lia|].
    split; [|split; [exact Hnew|exact HK]].
    intros b Hb Sb. pose proof (Ka b Hb Sb) as Hb'.
    split; [exact Hb'|]. split; [|exact (Kp b Hb Sb)].
    destruct I' as [R' _].
    destruct (chain_disjoint _ _ _ _ _ (hr_chain _ _ _ R') Hb' HQ) as [Eb|Hd].
    - exfalso. apply (Hfresh b Hb Sb). subst b. reflexivity.
    - unfold b_end in *. cbn [b_addr b_size] in *. lia. }
  exact (wp_partial _ _ _ _ _ W E).
Qed.

Lemma mm_malloc_fresh_block_witness :
  exists bl' fl' qsz,
    heap_inv (state_after (mm_malloc 10 16) heap2) bl' fl' /\
    In (mkBlock (1064 - 4) qsz Allocated) bl' /\ 16 + 8 <= qsz /\
    (forall b, In b heap2_blocks -> b_status b = Allocated ->
       In b bl' /\ (b_end b <= 1064 - 4 \/ 1064 - 4 + qsz <= b_addr b) /\
       forall x, b_addr b + 4 <= x < b_end b - 4 ->
                 mem (state_after (mm_malloc 10 16) heap2) x = mem heap2 x) /\
    (forall b, In b bl' -> b_status b = Allocated ->
               b = mkBlock (1064 - 4) qsz Allocated \/ In b heap2_blocks) /\
    (coalesced heap2_blocks -> coalesced bl').
Proof.
  apply (mm_malloc_fresh_block 10 heap2 heap2_blocks [1060] 16 1064
           (state_after (mm_malloc 10 16) heap2) ltac:(apply check_inv_sound; vm_compute; reflexivity)).
  - unfold two31. lia.
  - apply ok_state_after. vm_compute. reflexivity.
Defined.

(** X18.  When the block of [p] has the required size, or the next block
    is free and the two together have it, [mm_realloc p n], [0 < n <= 2^31 - 16], always
    returns [p] itself: the block is resized in place, the region does not grow,
    and the other allocated blocks and their payloads are untouched. *)
Theorem mm_realloc_resizes_in_place fuel s bl1 p sz bl2 fl n :
  heap_inv s (bl1 ++ mkBlock (p - 4) sz Allocated :: bl2) fl ->
  0 < n <= two31 - 16 ->
  resize_in_place sz bl2 (required_block_size (to_int n)) ->
  exists s' bl' fl' qsz,
    mm_realloc fuel p n s = Ok (p, s') /\
    heap_inv s' bl' fl' /\
    In (mkBlock (p - 4) qsz Allocated) bl' /\ n + 8 <= qsz /\
    mem_brk s' = mem_brk s /\
    keeps_allocated (bl1 ++ bl2) bl' /\
    keeps_payloads (bl1 ++ bl2) (mem s) (mem s').
Proof.
  intros I0 Hn Hip.
  assert (W : wp False (mm_realloc fuel p n) s
            (realloc_full_post False s bl1 p sz bl2 n
               (required_block_size (to_int n)))).
  { apply mm_realloc_full with (fl := fl); auto. intros []. }
  apply wp_ok in W.
  destruct W as (q & s' & E & bl' & fl' & qsz & H1 & H2 & H3 & _ & _ & H6
                   & H7 & H8 & _).
  destruct (H8 Hip) as [-> Hb].
  exists s', bl', fl', qsz. auto 10.
Qed.

Lemma mm_realloc_resizes_in_place_witness :
  exists s' bl' fl' qsz,
    mm_realloc 10 1040 100 heap2 = Ok (1040, s') /\
    heap_inv s' bl' fl' /\
    In (mkBlock (1040 - 4) qsz Allocated) bl' /\ 100 + 8 <= qsz /\
    mem_brk s' = mem_brk heap2 /\
    keeps_allocated ([mkBlock 1012 24 Allocated] ++ [mkBlock 1060 152 Free])
                    bl' /\
    keeps_payloads ([mkBlock 1012 24 Allocated] ++ [mkBlock 1060 152 Free])
                   (mem heap2) (mem s').
Proof.
  apply (mm_realloc_resizes_in_place 10 heap2 [mkBlock 1012 24 Allocated] 1040 24
           [mkBlock 1060 152 Free] [1060] 100 ltac:(apply check_inv_sound; vm_compute; reflexivity)).
  - unfold two31. lia.
  - right. exists 1060, 152, []. split; [reflexivity|].
    vm_compute. discriminate.
Defined.

(** X19.  When [mm_realloc p n], [0 < n <= 2^31 - 16], cannot resize in
    place and
    [mm_malloc n] can be served, it returns a pointer other than [p] to a
    block of at least [n + 8] bytes holding the whole old payload, and no
    allocated block is left at [p - 4]: the old block has been freed. *)
Theorem mm_realloc_moves fuel s bl1 p sz bl2 fl n :
  heap_inv s (bl1 ++ mkBlock (p - 4) sz Allocated :: bl2) fl ->
  0 < n <= two31 - 16 ->
  ~ resize_in_place sz bl2 (required_block_size (to_int n)) ->
  (S (length fl) < fuel)%nat ->
  has_fit (bl1 ++ mkBlock (p - 4) sz Allocated :: bl2)
          (required_block_size (to_int n)) \/
  mem_brk s + required_block_size (to_int n) <= mem_max_addr s ->
  exists q s' bl' fl' qsz,
    mm_realloc fuel p n s = Ok (q, s') /\
    heap_inv s' bl' fl' /\ q <> p /\
    In (mkBlock (q - 4) qsz Allocated) bl' /\ n + 8 <= qsz /\
    (forall b, In b bl' -> b_status b = Allocated -> b_addr b <> p - 4) /\
    (forall i, 0 <= i < sz - 8 -> mem s' (q + i) = mem s (p + i)).
Proof.
  intros I0 Hn Hnip Hfuel Hc.
  pose proof (hr_chain _ _ _ (proj1 I0)) as Hch.
  assert (HP : In (mkBlock (p - 4) sz Allocated)
                  (bl1 ++ mkBlock (p - 4) sz Allocated :: bl2)) by in_list.
  pose proof (chain_in_size _ _ _ _ Hch HP) as [Hsz Hsz8].
  cbn [b_size] in Hsz, Hsz8.
  destruct (required_block_size_ok n ltac:(lia)) as (Hr1 & Hr2 & Hr8 & _).
  assert (W : wp False (mm_realloc fuel p n) s
            (realloc_full_post False s bl1 p sz bl2 n
               (required_block_size (to_int n)))).
  { apply mm_realloc_full with (fl := fl); auto. intros []. }
  apply wp_ok in W.
  destruct W as (q & s' & E & bl' & fl' & qsz & H1 & H2 & H3 & H4 & _ & _
                   & _ & _ & H9 & H10 & _).
  pose proof (proj1 H9 Hnip) as H9n.
  exists q, s', bl', fl', qsz.
  split; [exact E|]. split; [exact H1|]. split; [exact H9n|].
  split; [exact H2|]. split; [exact H3|]. split.
  - intros b Hb Sb Ea. destruct (H10 b Hb Sb) as [Eb|Hi].
    + subst b. cbn [b_addr] in Ea. lia.
    + destruct (chain_side _ _ _ _ _ _ Hch Hi) as [[Hi' H]|[Hi' H]].
      * apply chain_split in Hch. destruct Hch as (Hc1 & _).
        pose proof (chain_in_size _ _ _ _ Hc1 Hi').
        unfold b_end in H. cbn [b_addr] in H. lia.
      * unfold b_end in H. cbn [b_addr b_size] in H. lia.
  - intros i Hi. apply H4.
    assert (sz < required_block_size (to_int n)).
    { destruct (Z_lt_ge_dec sz (required_block_size (to_int n))); [assumption|].
      exfalso. apply Hnip. left. lia. }
    Z.div_mod_to_equations. lia.
Qed.

Lemma mm_realloc_moves_witness :
  exists q s' bl' fl' qsz,
    mm_realloc 10 1016 40 heap2_filled = Ok (q, s') /\
    heap_inv s' bl' fl' /\ q <> 1016 /\
    In (mkBlock (q - 4) qsz Allocated) bl' /\ 40 + 8 <= qsz /\
    (forall b, In b bl' -> b_status b = Allocated -> b_addr b <> 1016 - 4) /\
    (forall i, 0 <= i < 24 - 8 ->
               mem s' (q + i) = mem heap2_filled (1016 + i)).
Proof.
  apply (mm_realloc_moves 10 heap2_filled [] 1016 24
           [mkBlock 1036 24 Allocated; mkBlock 1060 152 Free] [1060] 40).
  - apply check_inv_sound. vm_compute. reflexivity.
  - unfold two31. lia.
  - intros [H|(nb & nsz & bl2' & E & H)].
    + vm_compute in H. apply H. reflexivity.
    + discriminate E.
  - simpl. lia.
  - left. exists (mkBlock 1060 152 Free).
    split; [in_list|]. split; [reflexivity|]. vm_compute. discriminate.
Defined.

(** X20.  When [mm_realloc p n] returns on a well-formed heap (for
    [0 < n <= 2^31 - 16]), the heap is well formed again, the other
    allocated blocks are still allocated with their payloads unchanged, the
    returned block is the only allocated block that was not one of them,
    and a heap without neighbouring free blocks stays so. *)
Theorem mm_realloc_preserves_heap fuel s bl1 p sz bl2 fl n q s' :
  heap_inv s (bl1 ++ mkBlock (p - 4) sz Allocated :: bl2) fl ->
  0 < n <= two31 - 16 ->
  mm_realloc fuel p n s = Ok (q, s') ->
  exists bl' fl' qsz,
    heap_inv s' bl' fl' /\
    In (mkBlock (q - 4) qsz Allocated) bl' /\
    keeps_allocated (bl1 ++ bl2) bl' /\
    keeps_payloads (bl1 ++ bl2) (mem s) (mem s') /\
    (forall b, In b bl' -> b_status b = Allocated ->
               b = mkBlock (q - 4) qsz Allocated \/ In b (bl1 ++ bl2)) /\
    mem_start_brk s' = mem_start_brk s /\
    (coalesced (bl1 ++ mkBlock (p - 4) sz Allocated :: bl2) ->
     coalesced bl').
Proof.
  intros I0 Hn E.
  assert (W : wp True (mm_realloc fuel p n) s
            (realloc_full_post
               (coalesced (bl1 ++ mkBlock (p - 4) sz Allocated :: bl2))
               s bl1 p sz bl2 n (required_block_size (to_int n)))).
  { apply mm_realloc_full with (fl := fl); auto. }
  destruct (wp_partial _ _ _ _ _ W E)
    as (bl' & fl' & qsz & H1 & H2 & _ & _ & H5 & H6 & H7 & _ & _ & H10 & H11).
  exists bl', fl', qsz. auto 10.
Qed.

Lemma mm_realloc_preserves_heap_witness :
  exists bl' fl' qsz,
    heap_inv (state_after (mm_realloc 10 1040 100) heap2) bl' fl' /\
    In (mkBlock (1040 - 4) qsz Allocated) bl' /\
    keeps_allocated ([mkBlock 1012 24 Allocated] ++ [mkBlock 1060 152 Free])
                    bl' /\
    keeps_payloads ([mkBlock 1012 24 Allocated] ++ [mkBlock 1060 152 Free])
                   (mem heap2)
                   (mem (state_after (mm_realloc 10 1040 100) heap2)) /\
    (forall b, In b bl' -> b_status b = Allocated ->
               b = mkBlock (1040 - 4) qsz Allocated \/
               In b ([mkBlock 1012 24 Allocated] ++ [mkBlock 1060 152 Free])) /\
    mem_start_brk (state_after (mm_realloc 10 1040 100) heap2)
    = mem_start_brk heap2 /\
    (coalesced ([mkBlock 1012 24 Allocated] ++
                mkBlock (1040 - 4) 24 Allocated :: [mkBlock 1060 152 Free]) ->
     coalesced bl').
Proof.
  apply (mm_realloc_preserves_heap 10 heap2 [mkBlock 1012 24 Allocated] 1040 24
           [mkBlock 1060 152 Free] [1060] 100 1040
           (state_after (mm_realloc 10 1040 100) heap2) ltac:(apply check_inv_sound; vm_compute; reflexivity)).
  - unfold two31. lia.
  - apply ok_state_after. vm_compute. reflexivity.
Defined.

(** X21.  [mm_malloc n], [0 < n <= 2^31 - 16], followed by [mm_free] of
    the pointer it returned:
    [mm_free] returns, the heap is well formed, the allocated blocks are
    exactly those from before the allocation, with their payloads
    unchanged, and a heap without neighbouring free blocks stays so. *)
Theorem mm_malloc_then_free fuel s bl fl n q s1 :
  heap_inv s bl fl -> 0 < n <= two31 - 16 ->
  mm_malloc fuel n s = Ok (q, s1) ->
  exists s2 bl2 fl2,
    mm_free q s1 = Ok (tt, s2) /\ heap_inv s2 bl2 fl2 /\
    (forall b, b_status b = Allocated -> (In b bl2 <-> In b bl)) /\
    keeps_payloads bl (mem s) (mem s2) /\
    (coalesced bl -> coalesced bl2).
Proof.
  intros I0 Hn E.
  assert (W : wp True (mm_malloc fuel n) s (fun q s1 =>
    exists bl1 fl1 qsz,
      heap_inv s1 bl1 fl1 /\ evolves s bl s1 bl1 /\
      In (mkBlock (q - 4) qsz Allocated) bl1 /\
      (forall b, In b bl -> b_status b = Allocated -> b_addr b <> q - 4) /\
      (forall b, In b bl1 -> b_status b = Allocated ->
                 b = mkBlock (q - 4) qsz Allocated \/ In b bl) /\
      (coalesced bl -> coalesced bl1))).
  { apply mm_malloc_full with (K := coalesced bl) (bl := bl) (fl := fl); auto.
    intros q0 s0 bl' fl' qsz I' Ev _ _ _ _ HQ Hq Hfresh Hnew HK.
    exists bl', fl', qsz. auto 10. }
  destruct (wp_partial _ _ _ _ _ W E)
    as (bl1 & fl1 & qsz & I1 & Ev & HQ & Hfresh & Hnew & HK1).
  destruct Ev as (_ & Ka & Kp).
  apply in_split in HQ. destruct HQ as (bx & by' & Ebl). subst bl1.
  pose proof (hr_chain _ _ _ (proj1 I1)) as Hc1.
  assert (W2 : wp False (mm_free q) s1 (fun _ s2 =>
    exists bl2 fl2,
      heap_inv s2 bl2 fl2 /\
      (forall b, b_status b = Allocated -> (In b bl2 <-> In b bl)) /\
      keeps_payloads bl (mem s) (mem s2) /\
      (coalesced bl -> coalesced bl2))).
  { apply mm_free_full with (K := coalesced bl) (bl1 := bx) (sz := qsz)
                            (bl2 := by') (fl := fl1); auto.
    intros s2 bl2 fl2 r rsz I2 _ Ka2 Kp2 _ _ _ Hold _ HK2.
    exists bl2, fl2. split; [exact I2|].
    assert (Hin : forall b, In b bl -> b_status b = Allocated ->
                            In b (bx ++ by')).
    { intros b Hb Sb.
      apply in_not_mid with (y := mkBlock (q - 4) qsz Allocated).
      - apply Ka; assumption.
      - intros Eb. apply (Hfresh b Hb Sb). subst b. reflexivity. }
    split; [|split; [|exact HK2]].
    - intros b Sb. split.
      + intros Hb. destruct (Hold b Hb) as [Eb|Hi].
        { subst b. discriminate Sb. }
        destruct (Hnew b (in_remove_mid _ _ _ _ Hi) Sb) as [Eb|Ho];
          [|exact Ho].
        exfalso. subst b. exact (chain_not_both _ _ _ _ _ Hc1 Hi).
      + intros Hb. apply Ka2; [|exact Sb]. apply Hin; assumption.
    - intros b Hb Sb x Hx.
      rewrite (Kp2 b (Hin b Hb Sb) Sb x Hx). apply (Kp b Hb Sb x Hx). }
  apply wp_ok in W2. destruct W2 as ([] & s2 & E2 & bl2 & fl2 & H).
  exists s2, bl2, fl2. split; [exact E2|exact H].
Qed.

Lemma mm_malloc_then_free_witness :
  exists s2 bl2 fl2,
    mm_free 1064 (state_after (mm_malloc 10 16) heap2) = Ok (tt, s2) /\
    heap_inv s2 bl2 fl2 /\
    (forall b, b_status b = Allocated -> (In b bl2 <-> In b heap2_blocks)) /\
    keeps_payloads heap2_blocks (mem heap2) (mem s2) /\
    (coalesced heap2_blocks -> coalesced bl2).
Proof.
  apply (mm_malloc_then_free 10 heap2 heap2_blocks [1060] 16 1064
           (state_after (mm_malloc 10 16) heap2) ltac:(apply check_inv_sound; vm_compute; reflexivity)).
  - unfold two31. lia.
  - apply ok_state_after. vm_compute. reflexivity.
Defined.

(** X22.  For [0 < n <= 2^31 - 16], when the block of [p], an allocated block
    of a well-formed heap, already has the size required for [n] bytes
    and at most 250 bytes more, [mm_realloc p n] returns [p] and leaves the
    whole state as it is: neither the memory nor the free list nor the
    region changes. *)
Theorem mm_realloc_small_surplus_changes_nothing fuel s bl1 p sz bl2 fl n :
  heap_inv s (bl1 ++ mkBlock (p - 4) sz Allocated :: bl2) fl ->
  0 < n <= two31 - 16 ->
  required_block_size (to_int n) <= sz <= required_block_size (to_int n) + 250 ->
  mm_realloc fuel p n s = Ok (p, s).
Proof.
  intros I0 Hn Hfit. pose proof I0 as [R C].
  apply clean_split in C. destruct C as (C1 & _ & C2).
  destruct (required_block_size_ok n ltac:(lia)) as (Hr1 & Hr2 & Hr8 & _).
  apply run_ok. unfold mm_realloc. cbv zeta.
  remember (required_block_size (to_int n)) as r eqn:Er.
  remember (p - 4) as hp eqn:Ehp.
  assert (Hr16 : 16 <= r) by (Z.div_mod_to_equations; lia).
  rewrite (to_uint_small' r) by (unfold two31 in *; lia).
  rewrite (to_int_small r) by (unfold two31 in *; lia).
  assert (HP : In (mkBlock hp sz Allocated)
                  (bl1 ++ mkBlock hp sz Allocated :: bl2)) by in_list.
  pose proof (rep_block _ _ _ R _ HP) as HPb.
  pose proof (rep_tagged _ _ _ R _ HP) as [TP1 TP2].
  pose proof (hr_lo _ _ _ R) as Hlo. pose proof (hr_max _ _ _ R) as Hmax.
  destruct (next_view _ _ _ _ _ R C2)
    as (nsz & nal & N1 & N2 & N3 & N4 & N5 & N6 & N7 & N8).
  unfold b_end in *. cbn [b_addr b_size] in *.
  destruct HPb as (P1 & P2 & P3 & P4 & P5).
  wp_size sz 1. rewrite (to_uint_small' sz) by lia.
  wp_size sz 1. wp_next sz 1. wp_size nsz nal.
  replace (hp =? 0) with false by (symmetry; apply Z.eqb_neq; lia).
  replace (n =? 0) with false by (symmetry; apply Z.eqb_neq; lia).
  replace (sz <? r) with false by (symmetry; apply Z.ltb_ge; lia).
  rewrite (to_uint_small' (sz - r)) by lia.
  replace (sz - r >? 250) with false
    by (symmetry; apply not_true_is_false; rewrite Z.gtb_lt; lia).
  apply wp_bind. apply wp_ret. apply wp_ret.
  unfold get_payload_addr. split; [lia|reflexivity].
Qed.

Lemma mm_realloc_small_surplus_changes_nothing_witness :
  mm_realloc 10 1016 8 heap2 = Ok (1016, heap2).
Proof.
  apply (mm_realloc_small_surplus_changes_nothing
           10 heap2 [] 1016 24 [mkBlock 1036 24 Allocated; mkBlock 1060 152 Free]
           [1060] 8).
  - apply check_inv_sound. vm_compute. reflexivity.
  - unfold two31. lia.
  - vm_compute. split; discriminate.
Defined.

(** X23.  In every state reached from [mm_init] on a fresh region by calls
    of [mm_malloc], of [mm_free] and [mm_realloc] on live pointers, and by
    stores of the caller inside live payloads, the heap is well formed, no
    two neighbouring blocks are free, every live pointer is the payload of
    an allocated block with room for the size asked for, every allocated
    block belongs to a live pointer, and no pointer is live twice. *)
Theorem reachable_heap_well_formed s live :
  reachable s live ->
  exists bl fl,
    heap_inv s bl fl /\ coalesced bl /\
    (forall p n, In (p, n) live ->
       exists sz, In (mkBlock (p - 4) sz Allocated) bl /\ n + 8 <= sz) /\
    (forall b, In b bl -> b_status b = Allocated ->
       In (b_addr b + 4) (map fst live)) /\
    NoDup (map fst live).
Proof.
  intros Hr. destruct (reachable_inv s live Hr) as (bl & fl & I0 & K0 & Tr).
  exists bl, fl. split; [exact I0|]. split; [exact K0|exact Tr].
Qed.

Lemma reachable_heap_well_formed_witness :
  exists bl fl,
    heap_inv heap2 bl fl /\ coalesced bl /\
    (forall p n, In (p, n) [(1040, 16); (1016, 16)] ->
       exists sz, In (mkBlock (p - 4) sz Allocated) bl /\ n + 8 <= sz) /\
    (forall b, In b bl -> b_status b = Allocated ->
       In (b_addr b + 4) (map fst [(1040, 16); (1016, 16)])) /\
    NoDup (map fst [(1040, 16); (1016, 16)]).
Proof.
  apply (reachable_heap_well_formed heap2 [(1040, 16); (1016, 16)]).
  exact heap2_reachable.
Defined.

(** X24.  In a reachable state the payloads of two different live pointers
    do not overlap: one ends at least 8 bytes (a footer and a header) before
    the other starts. *)
Theorem live_payloads_disjoint s live p n p' n' :
  reachable s live -> In (p, n) live -> In (p', n') live -> p <> p' ->
  p + n + 8 <= p' \/ p' + n' + 8 <= p.
Proof.
  intros Hr Hp Hp' Hne.
  destruct (reachable_inv s live Hr) as (bl & fl & [R _] & _ & Hl & _).
  destruct (Hl p n Hp) as (sz & Hb & Hsz).
  destruct (Hl p' n' Hp') as (sz' & Hb' & Hsz').
  destruct (chain_disjoint _ _ _ _ _ (hr_chain _ _ _ R) Hb Hb') as [E|Hd].
  - injection E as E _. lia.
  - unfold b_end in Hd. cbn [b_addr b_size] in Hd. lia.
Qed.

Lemma live_payloads_disjoint_witness :
  1016 + 16 + 8 <= 1040 \/ 1040 + 16 + 8 <= 1016.
Proof.
  apply (live_payloads_disjoint heap2 [(1040, 16); (1016, 16)]).
  - exact heap2_reachable.
  - simpl. auto.
  - simpl. auto.
  - lia.
Defined.

(** X25.  In a reachable state every live pointer is a multiple of 8 and
    its payload lies inside the region, after the prologue and before the
    epilogue; a store of the caller inside the payload is accepted and leads
    to a reachable state with the same live pointers. *)
Theorem live_pointer_aligned_in_heap s live p n :
  reachable s live -> In (p, n) live ->
  p mod 8 = 0 /\ mem_start_brk s + 16 <= p /\ p + n + 8 <= mem_brk s /\
  forall a v, p <= a -> a + 4 <= p + n ->
    exists s', store a v s = Ok (tt, s') /\ reachable s' live.
Proof.
  intros Hr Hp.
  destruct (reachable_inv s live Hr) as (bl & fl & I0 & _ & Tr).
  destruct (proj1 Tr p n Hp) as (sz & Hb & Hsz).
  pose proof (rep_block _ _ _ (proj1 I0) _ Hb) as HBb.
  pose proof (rep_aligned _ _ _ (proj1 I0) _ Hb) as HBa.
  unfold b_end in HBb. cbn [b_addr b_size] in HBb, HBa.
  split; [Z.div_mod_to_equations; lia|]. split; [lia|]. split; [lia|].
  intros a v Ha1 Ha2.
  destruct (store_live s bl fl live p n a v I0 Tr Hp Ha1 Ha2) as [E _].
  exists (with_mem s (wr (mem s) a v)). split; [exact E|].
  exact (reach_store s live p n a v _ Hr Hp Ha1 Ha2 E).
Qed.

Lemma live_pointer_aligned_in_heap_witness :
  1040 mod 8 = 0 /\ mem_start_brk heap2 + 16 <= 1040 /\
  1040 + 16 + 8 <= mem_brk heap2 /\
  forall a v, 1040 <= a -> a + 4 <= 1040 + 16 ->
    exists s', store a v heap2 = Ok (tt, s') /\
               reachable s' [(1040, 16); (1016, 16)].
Proof.
  apply (live_pointer_aligned_in_heap heap2 [(1040, 16); (1016, 16)]).
  - exact heap2_reachable.
  - simpl. auto.
Defined.

(** X26.  In a reachable state in which the provider can still supply the
    required block size, [mm_malloc n], [0 < n <= 2^31 - 16], returns with enough
    fuel.  The
    pointer is not [NULL] and is none of the live pointers, the region grows
    by at most the required block size, and the payload bytes of all live
    pointers are unchanged. *)
Theorem reachable_malloc_returns s live n :
  reachable s live -> 0 < n <= two31 - 16 ->
  mem_brk s + required_block_size (to_int n) <= mem_max_addr s ->
  exists fuel0, forall fuel, (fuel0 <= fuel)%nat ->
  exists q s',
    mm_malloc fuel n s = Ok (q, s') /\ reachable s' ((q, n) :: live) /\
    q <> 0 /\ ~ In q (map fst live) /\
    mem_brk s <= mem_brk s' <= mem_brk s + required_block_size (to_int n) /\
    forall p m, In (p, m) live ->
      forall x, p <= x < p + m -> mem s' x = mem s x.
Proof.
  intros Hr Hn Hroom.
  destruct (reachable_inv s live Hr) as (bl & fl & I0 & K0 & Tr).
  destruct (required_block_size_ok n ltac:(lia)) as (H1 & H2 & _).
  exists (S (S (length fl))). intros fuel Hfuel.
  assert (W : wp False (mm_malloc fuel n) s (fun q s' =>
    q <> 0 /\ ~ In q (map fst live) /\
    mem_brk s <= mem_brk s' <= mem_brk s + required_block_size (to_int n) /\
    forall p m, In (p, m) live ->
      forall x, p <= x < p + m -> mem s' x = mem s x)).
  { apply mm_malloc_full with (K := True) (bl := bl) (fl := fl); auto.
    intros q0 s0 bl' fl' qsz I' Ev _ _ Hb1 Hb2 HQ Hq Hfresh Hnew _.
    destruct Ev as (_ & Ka & Kp).
    pose proof (rep_block _ _ _ (proj1 I') _ HQ) as (Hq1 & _).
    pose proof (hr_lo _ _ _ (proj1 I')). cbn [b_addr] in Hq1.
    split; [lia|].
    split;
      [exact (proj2 (tracks_malloc bl live bl' q0 qsz n Tr Ka HQ
                       ltac:(lia) Hfresh Hnew))|].
    split.
    - destruct (has_fit_dec bl (required_block_size (to_int n))) as [Hf|Hf];
        [rewrite (Hb1 Hf)|rewrite (Hb2 Hf)]; lia.
    - intros p m Hp x Hx. destruct (proj1 Tr p m Hp) as (sz & Hb & Hsz).
      apply (Kp _ Hb eq_refl). unfold b_end. cbn [b_addr b_size]. lia. }
  apply wp_ok in W. destruct W as (q & s' & E & H).
  exists q, s'. split; [exact E|].
  split; [exact (reach_malloc s live fuel n q s' Hr Hn E)|exact H].
Qed.

Lemma reachable_malloc_returns_witness :
  exists fuel0, forall fuel, (fuel0 <= fuel)%nat ->
  exists q s',
    mm_malloc fuel 1000 heap2 = Ok (q, s') /\
    reachable s' ((q, 1000) :: [(1040, 16); (1016, 16)]) /\
    q <> 0 /\ ~ In q (map fst [(1040, 16); (1016, 16)]) /\
    mem_brk heap2 <= mem_brk s'
      <= mem_brk heap2 + required_block_size (to_int 1000) /\
    forall p m, In (p, m) [(1040, 16); (1016, 16)] ->
      forall x, p <= x < p + m -> mem s' x = mem heap2 x.
Proof.
  apply (reachable_malloc_returns heap2 [(1040, 16); (1016, 16)] 1000).
  - exact heap2_reachable.
  - unfold two31. lia.
  - vm_compute. discriminate.
Defined.

(** X27.  In a reachable state [mm_free] of a live pointer returns: it
    reads and writes inside the region only.  The region keeps its size and
    the payload bytes of the other live pointers are unchanged. *)
Theorem reachable_free_returns s live p n :
  reachable s live -> In (p, n) live ->
  exists s',
    mm_free p s = Ok (tt, s') /\ reachable s' (remove_ptr p live) /\
    mem_brk s' = mem_brk s /\
    forall p' n', In (p', n') live -> p' <> p ->
      forall x, p' <= x < p' + n' -> mem s' x = mem s x.
Proof.
  intros Hr Hp.
  destruct (reachable_inv s live Hr) as (bl & fl & I0 & K0 & Tr).
  destruct (tracks_split _ _ _ _ Tr Hp) as (bl1 & sz & bl2 & -> & Hsz).
  assert (W : wp False (mm_free p) s (fun _ s' =>
    mem_brk s' = mem_brk s /\
    forall p' n', In (p', n') live -> p' <> p ->
      forall x, p' <= x < p' + n' -> mem s' x = mem s x)).
  { apply mm_free_full with (K := True) (bl1 := bl1) (sz := sz) (bl2 := bl2)
                            (fl := fl); auto.
    intros s0 bl' fl' r rsz _ Sr _ Kp _ _ _ _ _ _.
    split; [apply Sr|].
    intros p' n' Hp' Hne x Hx.
    destruct (tracks_others _ _ _ _ _ _ _ Tr Hp' Hne) as (sz' & Hb & Hs).
    apply (Kp _ Hb eq_refl). unfold b_end. cbn [b_addr b_size]. lia. }
  apply wp_ok in W. destruct W as ([] & s' & E & Hb & Hm).
  exists s'. split; [exact E|].
  split; [exact (reach_free s live p n s' Hr Hp E)|]. auto.
Qed.

Lemma reachable_free_returns_witness :
  exists s',
    mm_free 1016 heap2 = Ok (tt, s') /\
    reachable s' (remove_ptr 1016 [(1040, 16); (1016, 16)]) /\
    mem_brk s' = mem_brk heap2 /\
    forall p' n', In (p', n') [(1040, 16); (1016, 16)] -> p' <> 1016 ->
      forall x, p' <= x < p' + n' -> mem s' x = mem heap2 x.
Proof.
  apply (reachable_free_returns heap2 [(1040, 16); (1016, 16)] 1016 16).
  - exact heap2_reachable.
  - simpl. auto.
Defined.

(** X28.  In a reachable state in which the provider can still supply the
    required block size, [mm_realloc p n], [0 < n <= 2^31 - 16], of a live pointer
    [p] that was allocated for [n0] bytes returns with enough fuel.  The pointer is not
    [NULL], the first [min n0 n] bytes at the new pointer are those that
    were at [p], the new pointer is none of the other live pointers, and
    the payload bytes of the other live pointers are unchanged. *)
Theorem reachable_realloc_returns s live p n0 n :
  reachable s live -> In (p, n0) live -> 0 < n <= two31 - 16 ->
  mem_brk s + required_block_size (to_int n) <= mem_max_addr s ->
  exists fuel0, forall fuel, (fuel0 <= fuel)%nat ->
  exists q s',
    mm_realloc fuel p n s = Ok (q, s') /\
    reachable s' ((q, n) :: remove_ptr p live) /\
    q <> 0 /\
    (forall i, 0 <= i < Z.min n0 n -> mem s' (q + i) = mem s (p + i)) /\
    forall p' n', In (p', n') live -> p' <> p ->
      q <> p' /\ forall x, p' <= x < p' + n' -> mem s' x = mem s x.
Proof.
  intros Hr Hp Hn Hroom.
  destruct (reachable_inv s live Hr) as (bl & fl & I0 & K0 & Tr).
  destruct (tracks_split _ _ _ _ Tr Hp) as (bl1 & sz & bl2 & -> & Hsz).
  pose proof (hr_chain _ _ _ (proj1 I0)) as Hc.
  exists (S (S (length fl))). intros fuel Hfuel.
  assert (W : wp False (mm_realloc fuel p n) s
            (realloc_full_post True s bl1 p sz bl2 n
               (required_block_size (to_int n)))).
  { apply mm_realloc_full with (fl := fl); auto 6. }
  apply wp_ok in W.
  destruct W as (q & s' & E & bl' & fl' & qsz & I' & HQ & Hq & Hcopy & _ & Ka
                   & Kp & _ & [_ Hfr] & Hnew & _).
  exists q, s'. split; [exact E|].
  split; [exact (reach_realloc s live fuel p n0 n q s' Hr Hp Hn E)|].
  pose proof (rep_block _ _ _ (proj1 I') _ HQ) as (Hq1 & _).
  pose proof (hr_lo _ _ _ (proj1 I')). cbn [b_addr] in Hq1.
  split; [lia|]. split.
  - intros i Hi. apply Hcopy. lia.
  - intros p' n' Hp' Hne. split.
    + exact (proj2 (tracks_realloc _ _ _ _ _ _ _ _ _ _ _ Hc Tr Ka HQ Hq Hfr Hnew)
               p' n' Hp' Hne).
    + intros x Hx.
      destruct (tracks_others _ _ _ _ _ _ _ Tr Hp' Hne) as (sz' & Hb & Hs).
      apply (Kp _ Hb eq_refl). unfold b_end. cbn [b_addr b_size]. lia.
Qed.

Lemma reachable_realloc_returns_witness :
  exists fuel0, forall fuel, (fuel0 <= fuel)%nat ->
  exists q s',
    mm_realloc fuel 1016 40 heap2 = Ok (q, s') /\
    reachable s' ((q, 40) :: remove_ptr 1016 [(1040, 16); (1016, 16)]) /\
    q <> 0 /\
    (forall i, 0 <= i < Z.min 16 40 -> mem s' (q + i) = mem heap2 (1016 + i)) /\
    forall p' n', In (p', n') [(1040, 16); (1016, 16)] -> p' <> 1016 ->
      q <> p' /\ forall x, p' <= x < p' + n' -> mem s' x = mem heap2 x.
Proof.
  apply (reachable_realloc_returns heap2 [(1040, 16); (1016, 16)] 1016 16 40).
  - exact heap2_reachable.
  - simpl. auto.
  - unfold two31. lia.
  - vm_compute. discriminate.
Defined.

